(** * VideoSpeak-AI: translation pipeline core

    A shallow embedding of the server-side core of VideoSpeak-AI
    (text chunking and merging, the retry engine, the translation
    router, the job manager and the quality heuristics), with the
    properties of its design document stated and settled against it.

    Conventions.
    - A JavaScript string is a list of code units; the code units are
      restricted to the Latin-1 range and carried by [ascii].  On that
      range [trim], [toLowerCase] and the regular-expression class [\s]
      are modelled exactly.
    - JavaScript numbers that hold positions, lengths and sizes are
      integers of [Z]; numbers that may be fractional are rationals of
      [Q], computed exactly.
    - [async] methods are embedded as state-passing functions: every
      [await] in the modelled code is on a call that is itself modelled,
      and calls are executed in program order. *)

From Stdlib Require Import ZArith QArith Qround Qminmax Ascii String List Lia.
From stdpp Require Import gmap strings list fin_maps.

Local Open Scope Z_scope.

(** ** JavaScript strings *)

Abbreviation text := (list ascii).

Definition lit (s : string) : text := list_ascii_of_string s.

Definition LF : ascii := ascii_of_nat 10.
Definition CR : ascii := ascii_of_nat 13.

Module Js.

(** [s.length] *)
Definition len (s : text) : Z := Z.of_nat (length s).

(** [!s] for a string: only the empty string is falsy. *)
Definition falsy (s : text) : bool :=
  match s with [] => true | _ => false end.

(** [s.substring(start, end)]: both indices are clamped to
    [0, s.length] and swapped when out of order. *)
Definition substring (s : text) (start finish : Z) : text :=
  let a := Z.min (Z.max start 0) (len s) in
  let b := Z.min (Z.max finish 0) (len s) in
  let from := Z.min a b in
  let to := Z.max a b in
  take (Z.to_nat (to - from)) (drop (Z.to_nat from) s).

(** [s.substring(start)] *)
Definition substringFrom (s : text) (start : Z) : text :=
  substring s start (len s).

(** White space and line terminators of ECMAScript within Latin-1:
    TAB, LF, VT, FF, CR, SPACE and NO-BREAK SPACE. *)
Definition isWhiteSpace (c : ascii) : bool :=
  let n := nat_of_ascii c in
  (((9 <=? n)%nat && (n <=? 13)%nat) || (n =? 32)%nat || (n =? 160)%nat)%bool.

Fixpoint trimStart (s : text) : text :=
  match s with
  | c :: s' => if isWhiteSpace c then trimStart s' else s
  | [] => []
  end.

(** [s.trim()] *)
Definition trim (s : text) : text :=
  rev (trimStart (rev (trimStart s))).

(** Is [d] a prefix of [s]? *)
Fixpoint startsWith (d s : text) : bool :=
  match d, s with
  | [], _ => true
  | c :: d', x :: s' => Ascii.eqb c x && startsWith d' s'
  | _ :: _, [] => false
  end.

(** The largest index [k <= i] at which [d] occurs in [s], or [-1]. *)
Fixpoint lastIndexFrom (s d : text) (i : nat) : Z :=
  if startsWith d (drop i s) then Z.of_nat i
  else match i with
       | O => -1
       | S j => lastIndexFrom s d j
       end.

(** [s.lastIndexOf(d, fromIndex)]: the search starts at
    [fromIndex] clamped to [0, s.length - d.length]. *)
Definition lastIndexOf (s d : text) (fromIndex : Z) : Z :=
  if len s <? len d then -1
  else lastIndexFrom s d
         (Z.to_nat (Z.min (Z.max fromIndex 0) (len s - len d))).

(** [c.toLowerCase()] on Latin-1: A-Z and the accented capitals
    U+00C0-U+00DE (without the multiplication sign U+00D7) move up by
    32; everything else is unchanged. *)
Definition lowerChar (c : ascii) : ascii :=
  let n := nat_of_ascii c in
  if (((65 <=? n)%nat && (n <=? 90)%nat)
      || ((192 <=? n)%nat && (n <=? 222)%nat && negb (n =? 215)%nat))%bool
  then ascii_of_nat (n + 32) else c.

(** [s.toLowerCase()] *)
Definition toLowerCase (s : text) : text := map lowerChar s.

End Js.

(** ** TextChunking (services/llm/TextChunking.ts) *)

Module TextChunking.

(** [findLastOccurrence]: the delimiters are tried in order; a hit
    past the best position so far and not after [endPosition] moves
    the best position behind that delimiter. *)
Definition findLastOccurrence (s : text) (delimiters : list text)
    (startPosition endPosition : Z) : Z :=
  fold_left
    (fun lastPosition delimiter =>
       let position := Js.lastIndexOf s delimiter endPosition in
       if (lastPosition <? position) && (position <=? endPosition)
       then position + Js.len delimiter
       else lastPosition)
    delimiters startPosition.

Definition paragraphDelimiters : list text :=
  [ [LF; LF]; [CR; LF; CR; LF] ].

Definition sentenceDelimiters : list text :=
  [ lit ". "; lit "! "; lit "? ";
    ["."%char; LF]; ["!"%char; LF]; ["?"%char; LF] ].

(** Where the window starting at [currentPosition] is cut.  The tests
    [p > currentPosition + maxChunkSize / 2] and
    [p > currentPosition + maxChunkSize / 3] are written without the
    division. *)
Definition cutPosition (s : text) (maxChunkSize currentPosition : Z) : Z :=
  let endPosition := Z.min (currentPosition + maxChunkSize) (Js.len s) in
  let paragraphBreak :=
    findLastOccurrence s paragraphDelimiters currentPosition endPosition in
  if 2 * currentPosition + maxChunkSize <? 2 * paragraphBreak
  then paragraphBreak
  else
    let sentenceBreak :=
      findLastOccurrence s sentenceDelimiters currentPosition endPosition in
    if 3 * currentPosition + maxChunkSize <? 3 * sentenceBreak
    then sentenceBreak
    else endPosition.

(** The [while (currentPosition < text.length)] loop.  [fuel] bounds
    the number of iterations that are run; [None] means that the loop
    was still running when the fuel ran out. *)
Fixpoint splitLoop (fuel : nat) (s : text) (maxChunkSize overlapSize : Z)
    (currentPosition : Z) (chunks : list text) : option (list text) :=
  match fuel with
  | O => None
  | S fuel' =>
      if currentPosition <? Js.len s then
        let endPosition := cutPosition s maxChunkSize currentPosition in
        let chunk := Js.trim (Js.substring s currentPosition endPosition) in
        splitLoop fuel' s maxChunkSize overlapSize
          (Z.max currentPosition (endPosition - overlapSize))
          (chunks ++ [chunk])
      else Some chunks
  end.

(** [splitIntoChunks(text, maxChunkSize, overlapSize)] *)
Definition splitIntoChunks (fuel : nat) (s : text)
    (maxChunkSize overlapSize : Z) : option (list text) :=
  if Js.falsy s || (Js.len s <=? maxChunkSize) then Some [s]
  else splitLoop fuel s maxChunkSize overlapSize 0 [].

Definition defaultMaxChunkSize : Z := 1500.
Definition defaultOverlapSize : Z := 200.

End TextChunking.

(** *** Merging translated chunks *)

Module Merge.

(** ToIntegerOrInfinity on a finite number: truncation toward zero,
    as applied by [substring] to its arguments. *)
Definition toInteger (q : Q) : Z := Z.quot (Qnum q) (Zpos (Qden q)).

(** [calculateSimilarity(a, b)]: the share of positions, up to the
    shorter length, at which the lower-cased strings agree. *)
Fixpoint countMatches (a b : text) : Z :=
  match a, b with
  | x :: a', y :: b' =>
      (if Ascii.eqb x y then 1 else 0) + countMatches a' b'
  | _, _ => 0
  end.

Definition calculateSimilarity (a b : text) : Q :=
  if Js.falsy a || Js.falsy b then 0%Q
  else
    let strA := Js.toLowerCase a in
    let strB := Js.toLowerCase b in
    let minLength := Z.min (Js.len strA) (Js.len strB) in
    (inject_Z (countMatches strA strB) / inject_Z minLength)%Q.

(** The [for (overlapSize = ...; overlapSize >= 10; overlapSize -= 10)]
    loop of [findOverlapSize]; [None] when the fuel is used up. *)
Fixpoint findOverlapLoop (fuel : nat) (first second : text)
    (similarityThreshold overlapSize : Q) : option Q :=
  match fuel with
  | O => None
  | S fuel' =>
      if Qle_bool 10 overlapSize then
        let endOfFirst :=
          Js.substringFrom first
            (toInteger (inject_Z (Js.len first) - overlapSize)%Q) in
        let startOfSecond :=
          Js.substring second 0 (toInteger overlapSize) in
        let similarity := calculateSimilarity endOfFirst startOfSecond in
        if Qle_bool similarityThreshold similarity
        then Some overlapSize
        else findOverlapLoop fuel' first second similarityThreshold
               (overlapSize - 10)%Q
      else Some 0%Q
  end.

(** The candidates start at no more than 200 and drop by 10 down to
    10: twenty-one rounds always reach the end of the loop. *)
Definition overlapFuel : nat := 21.

(** [findOverlapSize(first, second, similarityThreshold)] *)
Definition findOverlapSize (first second : text)
    (similarityThreshold : Q) : option Q :=
  let maxOverlap :=
    (inject_Z (Z.min (Js.len first) (Js.len second)) / 3)%Q in
  findOverlapLoop overlapFuel first second similarityThreshold
    (Qmin 200 maxOverlap).

(** One round of the loop of [mergeChunks]:
    [result += currentChunk.substring(overlapSize)]. *)
Definition mergeStep (similarityThreshold : Q) (result : option text)
    (currentChunk : text) : option text :=
  match result with
  | None => None
  | Some r =>
      match findOverlapSize r currentChunk similarityThreshold with
      | None => None
      | Some overlapSize =>
          Some (r ++ Js.substringFrom currentChunk (toInteger overlapSize))
      end
  end.

(** [mergeChunks(chunks, overlapThreshold)] *)
Definition mergeChunks (chunks : list text) (overlapThreshold : Q)
    : option text :=
  match chunks with
  | [] => Some []
  | first :: rest => fold_left (mergeStep overlapThreshold) rest (Some first)
  end.

Definition defaultOverlapThreshold : Q := 1 # 2.

(** **** The merge as the design document words it *)

(** The candidate lengths [m, m - 10, ...] that are at least 10. *)
Fixpoint candidatesFrom (rounds : nat) (m : Z) : list Z :=
  match rounds with
  | O => []
  | S k => if 10 <=? m then m :: candidatesFrom k (m - 10) else []
  end.

Definition candidates (first second : text) : list Z :=
  candidatesFrom overlapFuel
    (Z.min 200 (Z.min (Js.len first) (Js.len second) / 3)).

(** The last [n] and the first [n] characters. *)
Definition trailing (s : text) (n : Z) : text :=
  drop (length s - Z.to_nat n)%nat s.
Definition leading (s : text) (n : Z) : text := take (Z.to_nat n) s.

(** Position-wise match ratio of two strings of length [n], with the
    comparison of characters given by [same]. *)
Fixpoint matchesBy (same : ascii -> ascii -> bool) (a b : text) : Z :=
  match a, b with
  | x :: a', y :: b' => (if same x y then 1 else 0) + matchesBy same a' b'
  | _, _ => 0
  end.

Definition matchRatio (same : ascii -> ascii -> bool)
    (first second : text) (n : Z) : Q :=
  (inject_Z (matchesBy same (trailing first n) (leading second n))
   / inject_Z n)%Q.

(** The first length of [l] whose ratio reaches the threshold, else 0. *)
Definition firstQualifying (same : ascii -> ascii -> bool)
    (first second : text) (t : Q) (l : list Z) : Z :=
  match List.filter (fun n => Qle_bool t (matchRatio same first second n)) l with
  | n :: _ => n
  | [] => 0
  end.

(** The largest candidate whose ratio reaches the threshold, else 0. *)
Definition detectedOverlap (same : ascii -> ascii -> bool)
    (first second : text) (t : Q) : Z :=
  firstQualifying same first second t (candidates first second).

Definition mergedBy (same : ascii -> ascii -> bool)
    (chunks : list text) (t : Q) : text :=
  match chunks with
  | [] => []
  | first :: rest =>
      fold_left
        (fun acc chunk =>
           acc ++ drop (Z.to_nat (detectedOverlap same acc chunk t)) chunk)
        rest first
  end.

(** Characters compared as they are, and up to letter case. *)
Definition sameChar (x y : ascii) : bool := Ascii.eqb x y.
Definition sameLetter (x y : ascii) : bool :=
  Ascii.eqb (Js.lowerChar x) (Js.lowerChar y).

(** One third of the shorter length is a whole number, or is cut off
    by the cap of 200. *)
Definition wholeThird (first second : text) : bool :=
  let m := Z.min (Js.len first) (Js.len second) in
  (m mod 3 =? 0) || (600 <=? m).

(** [wholeThird] at every round of the merge. *)
Fixpoint wholeThirds (t : Q) (acc : text) (rest : list text) : bool :=
  match rest with
  | [] => true
  | chunk :: rest' =>
      wholeThird acc chunk
      && wholeThirds t
           (acc ++ drop (Z.to_nat (detectedOverlap sameLetter acc chunk t)) chunk)
           rest'
  end.

End Merge.

(** ** RetryManager (utils/retry.ts) *)

Module Retry.

(** [s.includes(d)] *)
Fixpoint includes (s d : text) : bool :=
  Js.startsWith d s
  || match s with
     | [] => false
     | _ :: s' => includes s' d
     end.

(** The parts of a thrown value that the retry predicates inspect:
    [error.code], [error.message] and [error.response.status]. *)
Record Response := { status : Z }.

Record JsError := {
  code : option string;
  message : option string;
  response : option Response
}.

Definition codeIs (error : JsError) (c : string) : bool :=
  match code error with
  | Some c' => String.eqb c' c
  | None => false
  end.

Definition messageIncludes (error : JsError) (d : string) : bool :=
  match message error with
  | Some m => includes (lit m) (lit d)
  | None => false
  end.

Definition statusSatisfies (error : JsError) (p : Z -> bool) : bool :=
  match response error with
  | Some r => p (status r)
  | None => false
  end.

Record RetryOptions := {
  maxAttempts : Z;
  baseDelay : Z;
  maxDelay : Z;
  backoffFactor : Z;
  retryCondition : JsError -> bool
}.

(** [Partial<RetryOptions>] *)
Record PartialRetryOptions := {
  maxAttempts' : option Z;
  baseDelay' : option Z;
  maxDelay' : option Z;
  backoffFactor' : option Z;
  retryCondition' : option (JsError -> bool)
}.

Definition noOptions : PartialRetryOptions :=
  {| maxAttempts' := None; baseDelay' := None; maxDelay' := None;
     backoffFactor' := None; retryCondition' := None |}.

(** Retry on network errors, on 5xx and on 429. *)
Definition defaultRetryCondition (error : JsError) : bool :=
  if codeIs error "ECONNRESET" || codeIs error "ENOTFOUND"
     || codeIs error "ETIMEDOUT" then true
  else if messageIncludes error "ECONNRESET"
          || messageIncludes error "ETIMEDOUT"
          || messageIncludes error "ENOTFOUND" then true
  else if statusSatisfies error (fun st => 500 <=? st) then true
  else if statusSatisfies error (fun st => st =? 429) then true
  else false.

Definition DEFAULT_OPTIONS : RetryOptions :=
  {| maxAttempts := 3; baseDelay := 1000; maxDelay := 30000;
     backoffFactor := 2; retryCondition := defaultRetryCondition |}.

(** [{ ...this.DEFAULT_OPTIONS, ...options }] *)
Definition mergeOptions (options : PartialRetryOptions) : RetryOptions :=
  {| maxAttempts := default (maxAttempts DEFAULT_OPTIONS) (maxAttempts' options);
     baseDelay := default (baseDelay DEFAULT_OPTIONS) (baseDelay' options);
     maxDelay := default (maxDelay DEFAULT_OPTIONS) (maxDelay' options);
     backoffFactor :=
       default (backoffFactor DEFAULT_OPTIONS) (backoffFactor' options);
     retryCondition :=
       default (retryCondition DEFAULT_OPTIONS) (retryCondition' options) |}.

(** How a call ends: with a value, or by throwing.  [Thrown None] is
    [throw undefined], the value of [lastError] before any failure. *)
Inductive Outcome (T : Type) :=
| Returned (value : T)
| Thrown (error : option JsError).
Arguments Returned {T} value.
Arguments Thrown {T} error.

(** What a call of [executeWithRetry] did: its outcome, how often the
    operation was invoked, the delays slept, and the state in which
    the operation was left. *)
Record Run (T W : Type) := {
  outcome : Outcome T;
  invocations : nat;
  delays : list Z;
  final : W
}.
Arguments outcome {T W} r.
Arguments invocations {T W} r.
Arguments delays {T W} r.
Arguments final {T W} r.

Section ExecuteWithRetry.

(** The operation is any stateful, fallible computation: one
    invocation maps the state it finds to a failure or a value and
    the state it leaves. *)
Context {T W : Type}.
Variable operation : W -> (JsError + T) * W.
Variable config : RetryOptions.

(** [Math.min(baseDelay * Math.pow(backoffFactor, attempt - 1),
    maxDelay)].  The options are whole numbers here, and the code works
    in doubles: the two agree as long as the product is a whole number
    that a double holds exactly, which is so for the default options
    and the policies of the services.  The statements about arbitrary
    options assume it. *)
Definition delayFor (attempt : Z) : Z :=
  Z.min (baseDelay config * backoffFactor config ^ (attempt - 1))
        (maxDelay config).

(** The [for (attempt = 1; attempt <= maxAttempts; attempt++)] loop
    from round [attempt] on, [remaining] being the number of rounds
    for which [attempt <= maxAttempts] still holds. *)
Fixpoint attemptLoop (remaining : nat) (attempt : Z)
    (lastError : option JsError) (calls : nat) (slept : list Z) (st : W)
    : Run T W :=
  match remaining with
  | O =>
      {| outcome := Thrown lastError; invocations := calls;
         delays := slept; final := st |}
  | S remaining' =>
      match operation st with
      | (inr value, st') =>
          {| outcome := Returned value; invocations := S calls;
             delays := slept; final := st' |}
      | (inl error, st') =>
          if attempt =? maxAttempts config then
            {| outcome := Thrown (Some error); invocations := S calls;
               delays := slept; final := st' |}
          else if negb (retryCondition config error) then
            {| outcome := Thrown (Some error); invocations := S calls;
               delays := slept; final := st' |}
          else
            attemptLoop remaining' (attempt + 1) (Some error) (S calls)
              (slept ++ [delayFor attempt]) st'
      end
  end.

(** The state in which the operation is found at its invocation
    number [k] (from 0), and what that invocation gives. *)
Fixpoint stateBefore (k : nat) (st : W) : W :=
  match k with
  | O => st
  | S k' => stateBefore k' (snd (operation st))
  end.

Definition resultOf (k : nat) (st : W) : JsError + T :=
  fst (operation (stateBefore k st)).

End ExecuteWithRetry.

(** [RetryManager.executeWithRetry(operation, options)] *)
Definition executeWithRetry {T W : Type}
    (operation : W -> (JsError + T) * W) (options : PartialRetryOptions)
    (st : W) : Run T W :=
  let config := mergeOptions options in
  attemptLoop operation config (Z.to_nat (maxAttempts config)) 1 None 0 [] st.

End Retry.

(** ** Data model (types/index.ts) *)

Inductive TranslationMethod := SARVAM | LLM.

Inductive JobStatus := PENDING | PROCESSING | COMPLETED | FAILED.

Inductive ProcessingStage :=
| VALIDATING_URL | EXTRACTING_AUDIO | TRANSCRIBING | TRANSLATING
| STAGE_COMPLETED.

Global Instance TranslationMethod_eq_dec : EqDecision TranslationMethod.
Proof. solve_decision. Defined.
Global Instance JobStatus_eq_dec : EqDecision JobStatus.
Proof. solve_decision. Defined.
Global Instance ProcessingStage_eq_dec : EqDecision ProcessingStage.
Proof. solve_decision. Defined.

Module Metrics.
Record TranslationQualityMetrics := {
  fluency : Q;
  adequacy : Q;
  semanticSimilarity : Q;
  grammarScore : Q;
  overallAccuracy : Q;
  confidenceScore : Q
}.
End Metrics.

Record LLMTranslationMetadata := {
  provider : string;
  model : string;
  processingTime : option Z
}.

Record TranslationResult := {
  translatedText : text;
  sourceLanguageCode : string;
  targetLanguageCode : string;
  requestId : string;
  translationAccuracy : Q;
  confidenceScore : Q;
  qualityMetrics : Metrics.TranslationQualityMetrics;
  translationMethod : option TranslationMethod;
  llmMetadata : option LLMTranslationMetadata
}.

Record Language := {
  code : string;
  name : string;
  isSupported : bool
}.

(** The table of supported languages (native names left out). *)
Definition SUPPORTED_LANGUAGES : list Language :=
  map (fun cn => {| code := fst cn; name := snd cn; isSupported := true |})
    [ ("hi-IN", "Hindi"); ("kn-IN", "Kannada"); ("te-IN", "Telugu");
      ("bn-IN", "Bengali"); ("gu-IN", "Gujarati"); ("ml-IN", "Malayalam");
      ("mr-IN", "Marathi"); ("od-IN", "Odia"); ("pa-IN", "Punjabi");
      ("ta-IN", "Tamil"); ("as-IN", "Assamese"); ("brx-IN", "Bodo");
      ("doi-IN", "Dogri"); ("kok-IN", "Konkani"); ("ks-IN", "Kashmiri");
      ("mai-IN", "Maithili"); ("mni-IN", "Manipuri"); ("ne-IN", "Nepali");
      ("sa-IN", "Sanskrit"); ("sat-IN", "Santali"); ("sd-IN", "Sindhi");
      ("ur-IN", "Urdu"); ("en-IN", "English") ]%string.

(** ** Quality heuristics (services/TranslationService.ts) *)

Module Quality.

(** [a < b] on numbers *)
Definition lt (a b : Q) : bool := negb (Qle_bool b a).

(** [a === b] on strings *)
Fixpoint strictEq (a b : text) : bool :=
  match a, b with
  | [], [] => true
  | x :: a', y :: b' => Ascii.eqb x y && strictEq a' b'
  | _, _ => false
  end.

(** [s.split(/\s+/)]: the pieces between the maximal runs of white
    space; a run at either end leaves an empty piece there.  [word]
    is the piece being read, reversed, and [inRun] tells whether the
    previous character was white space. *)
Fixpoint splitWhitespaceFrom (s : text) (word : text) (inRun : bool)
    : list text :=
  match s with
  | [] => [rev word]
  | c :: s' =>
      if Js.isWhiteSpace c then
        if inRun then splitWhitespaceFrom s' word true
        else rev word :: splitWhitespaceFrom s' [] true
      else splitWhitespaceFrom s' (c :: word) false
  end.

Definition splitWhitespace (s : text) : list text :=
  splitWhitespaceFrom s [] false.

(** [calculateSemanticSimilarity(sourceText, translatedText)] *)
Definition calculateSemanticSimilarity (sourceText translatedText : text)
    : Q :=
  if Js.falsy sourceText || Js.falsy translatedText then 0%Q
  else
    let sourceWords := splitWhitespace (Js.toLowerCase sourceText) in
    let translatedWords := splitWhitespace (Js.toLowerCase translatedText) in
    let commonWords :=
      List.filter
        (fun word =>
           existsb
             (fun tWord =>
                (3 <? Js.len word)
                && (Retry.includes word tWord || Retry.includes tWord word))
             translatedWords)
        sourceWords in
    let overlapRatio :=
      (inject_Z (Z.of_nat (length commonWords))
       / inject_Z (Z.max (Z.of_nat (length sourceWords))
                         (Z.of_nat (length translatedWords))))%Q in
    let score := (75 + overlapRatio * 20)%Q in
    let score :=
      if strictEq (Js.toLowerCase sourceText) (Js.toLowerCase translatedText)
      then 30%Q else score in
    Qmax 0 (Qmin 100 score).

(** [isLowAccuracy(translationResult)], the same in
    [TranslationService] and in [EnhancedTranslationService]. *)
Definition isLowAccuracy (translationResult : TranslationResult) : bool :=
  lt (translationAccuracy translationResult) 70.

End Quality.

(** ** EnhancedTranslationService (services/EnhancedTranslationService.ts) *)

Module Router.

(** [new Error(message)] *)
Definition Error (m : string) : Retry.JsError :=
  {| Retry.code := None; Retry.message := Some m; Retry.response := None |}.

Record SarvamTranslateRequest := {
  input : text;
  source_language_code : string;
  target_language_code : string;
  request_model : string;
  mode : string;
  enable_preprocessing : bool;
  numerals_format : string
}.

Record SarvamTranslateResponse := {
  request_id : string;
  translated_text : text;
  response_source_language_code : string
}.

Section Service.

(** The world outside the service: the state of the network and of
    the providers.  [makeTranslationRequest] is the POST to the
    regional backend (a non-200 answer is a failure);
    [calculateQualityMetrics] is the evaluator, applied to a source
    text, its translation and the two language codes; the router
    passes its scores on and does not depend on how they are made. *)
Context {World LLMTranslationAdapterOptions : Type}.
Variable makeTranslationRequest :
  SarvamTranslateRequest -> World ->
  (Retry.JsError + SarvamTranslateResponse) * World.
Variable calculateQualityMetrics :
  text -> text -> string -> string -> Metrics.TranslationQualityMetrics.

(** State threaded through a call: the world, the method families
    whose translate function was entered (in order), and the delays
    slept. *)
Record St := {
  world : World;
  attempts : list TranslationMethod;
  slept : list Z
}.

Definition M (A : Type) : Type := St -> (Retry.JsError + A) * St.

Definition ret {A} (a : A) : M A := fun st => (inr a, st).
Definition throw {A} (e : Retry.JsError) : M A := fun st => (inl e, st).
Definition bind {A B} (m : M A) (k : A -> M B) : M B :=
  fun st =>
    match m st with
    | (inr a, st') => k a st'
    | (inl e, st') => (inl e, st')
    end.
(** [try { m } catch (error) { h error }] *)
Definition tryCatch {A} (m : M A) (h : Retry.JsError -> M A) : M A :=
  fun st =>
    match m st with
    | (inr a, st') => (inr a, st')
    | (inl e, st') => h e st'
    end.

Definition enter (method : TranslationMethod) : M unit :=
  fun st =>
    (inr tt, {| world := world st;
                attempts := attempts st ++ [method];
                slept := slept st |}).
Definition delay (ms : Z) : M unit :=
  fun st =>
    (inr tt, {| world := world st;
                attempts := attempts st;
                slept := slept st ++ [ms] |}).
Definition inWorld {A} (f : World -> (Retry.JsError + A) * World) : M A :=
  fun st =>
    let (r, w) := f (world st) in
    (r, {| world := w; attempts := attempts st; slept := slept st |}).

(** The LLM adapter, seen through its [translateText] method, for the
    calls of it that return: a value or an error.  A call that does
    not return (the adapter of the repository does not, on a text
    longer than its chunk size) has no outcome here. *)
Record LLMTranslationAdapter := {
  adapterTranslateText :
    text -> string -> string -> option LLMTranslationAdapterOptions ->
    World -> (Retry.JsError + TranslationResult) * World
}.

Record TranslationOptions := {
  optTranslationMethod : option TranslationMethod;
  llmOptions : option LLMTranslationAdapterOptions
}.

Record EnhancedTranslationService := {
  sarvamApiKey : string;
  llmAdapter : option LLMTranslationAdapter;
  defaultMethod : TranslationMethod
}.

Definition maxRetries : Z := 3.
Definition retryDelay : Z := 1000.

Variable this : EnhancedTranslationService.

Definition validateLanguageCode (languageCode : string) : option Language :=
  List.find
    (fun lang => String.eqb (code lang) languageCode && isSupported lang)
    SUPPORTED_LANGUAGES.

(** [translateWithLLM] *)
Definition translateWithLLM (t : text) (targetLanguage sourceLanguage : string)
    (options : option LLMTranslationAdapterOptions) : M TranslationResult :=
  bind (enter LLM) (fun _ =>
    match llmAdapter this with
    | None => throw (Error "LLM translation adapter is not initialized")
    | Some adapter =>
        inWorld (adapterTranslateText adapter t targetLanguage
                   sourceLanguage options)
    end).

(** The retry loop of [translateWithSarvam], from round [attempt]
    on; [remaining] counts the rounds with [attempt <= maxRetries]. *)
Fixpoint sarvamLoop (remaining : nat) (attempt : Z)
    (request : SarvamTranslateRequest) (t : text)
    (targetLanguage sourceLanguage : string)
    (lastError : option Retry.JsError) : M TranslationResult :=
  match remaining with
  | O =>
      let m :=
        match lastError with
        | Some e =>
            match Retry.message e with
            | Some m => if String.eqb m "" then "Unknown error"%string else m
            | None => "Unknown error"%string
            end
        | None => "Unknown error"%string
        end in
      throw (Error ("Sarvam translation failed after 3 attempts: " ++ m))
  | S remaining' =>
      tryCatch
        (bind (inWorld (makeTranslationRequest request)) (fun response =>
           let metrics :=
             calculateQualityMetrics t (translated_text response)
               sourceLanguage targetLanguage in
           ret {| translatedText := translated_text response;
                  sourceLanguageCode :=
                    response_source_language_code response;
                  targetLanguageCode := targetLanguage;
                  requestId := request_id response;
                  translationAccuracy := Metrics.overallAccuracy metrics;
                  confidenceScore := Metrics.confidenceScore metrics;
                  qualityMetrics := metrics;
                  translationMethod := Some SARVAM;
                  llmMetadata := None |}))
        (fun error =>
           bind (if attempt <? maxRetries
                 then delay (retryDelay * attempt) else ret tt)
             (fun _ =>
                sarvamLoop remaining' (attempt + 1) request t
                  targetLanguage sourceLanguage (Some error)))
  end.

(** [translateWithSarvam] *)
Definition translateWithSarvam (t : text)
    (targetLanguage sourceLanguage : string) : M TranslationResult :=
  bind (enter SARVAM) (fun _ =>
    if 2000 <? Js.len t then
      throw (Error "Input text exceeds maximum length of 2000 characters for Sarvam API")
    else
      match validateLanguageCode targetLanguage with
      | None =>
          throw (Error ("Unsupported target language for Sarvam API: "
                        ++ targetLanguage))
      | Some _ =>
          let request :=
            {| input := Js.trim t;
               source_language_code := sourceLanguage;
               target_language_code := targetLanguage;
               request_model := "sarvam-translate:v1";
               mode := "formal";
               enable_preprocessing := true;
               numerals_format := "international" |} in
          sarvamLoop (Z.to_nat maxRetries) 1 request t targetLanguage
            sourceLanguage None
      end).

(** [options?.translationMethod || this.defaultMethod] *)
Definition chosenMethod (options : option TranslationOptions)
    : TranslationMethod :=
  match options with
  | Some o => default (defaultMethod this) (optTranslationMethod o)
  | None => defaultMethod this
  end.

Definition chosenLlmOptions (options : option TranslationOptions)
    : option LLMTranslationAdapterOptions :=
  match options with
  | Some o => llmOptions o
  | None => None
  end.

(** [method === TranslationMethod.LLM && this.llmAdapter] *)
Definition llmSelected (method : TranslationMethod) : bool :=
  bool_decide (method = LLM) && bool_decide (is_Some (llmAdapter this)).

(** [translateText(text, targetLanguage, sourceLanguage, options)];
    [sourceLanguage] is [None] when the argument is left out. *)
Definition translateText (t : text) (targetLanguage : string)
    (sourceLanguage : option string) (options : option TranslationOptions)
    : M TranslationResult :=
  let sourceLanguage := default "auto"%string sourceLanguage in
  if Js.falsy t || (Js.len (Js.trim t) =? 0) then
    throw (Error "Input text cannot be empty")
  else
    let method := chosenMethod options in
    tryCatch
      (if llmSelected method
       then translateWithLLM t targetLanguage sourceLanguage
              (chosenLlmOptions options)
       else translateWithSarvam t targetLanguage sourceLanguage)
      (fun error =>
         if llmSelected method then
           translateWithSarvam t targetLanguage sourceLanguage
         else if bool_decide (is_Some (llmAdapter this)) then
           translateWithLLM t targetLanguage sourceLanguage
             (chosenLlmOptions options)
         else throw error).

End Service.

Arguments St World : clear implicits.

End Router.

(** ** JobManager (services/JobManager.ts) *)

Module JobManager.

(** The results attached to a finished job (the video metadata and
    the transcription record, which the job manager never reads, are
    left out). *)
Record ProcessingResults := {
  originalText : text;
  resultText : text;
  sourceLanguage : string;
  resultLanguage : string;
  translationResult : TranslationResult
}.

(** Dates are milliseconds since the epoch.  [videoUrl] and
    [targetLanguage] are [None] when [createJob] was not given them. *)
Record ProcessingJob := {
  id : string;
  videoUrl : option string;
  targetLanguage : option string;
  status : JobStatus;
  progress : Z;
  currentStage : ProcessingStage;
  results : option ProcessingResults;
  error : option string;
  createdAt : Z;
  updatedAt : Z
}.

(** [Partial<ProcessingJob>]: [None] for a property that is absent. *)
Record JobData := {
  id' : option string;
  videoUrl' : option string;
  targetLanguage' : option string;
  status' : option JobStatus;
  progress' : option Z;
  currentStage' : option ProcessingStage;
  results' : option ProcessingResults;
  error' : option string;
  createdAt' : option Z;
  updatedAt' : option Z
}.

Definition noData : JobData :=
  {| id' := None; videoUrl' := None; targetLanguage' := None;
     status' := None; progress' := None; currentStage' := None;
     results' := None; error' := None; createdAt' := None;
     updatedAt' := None |}.

(** [a ?? b] for an optional property: the later spread wins when it
    has the property. *)
Definition over {A} (later earlier : option A) : option A :=
  match later with
  | Some a => Some a
  | None => earlier
  end.

Record JobManager := {
  jobs : gmap string ProcessingJob;
  processingQueue : list string
}.

Definition maxConcurrentJobs : nat := 5.

(** [new JobManager()] *)
Definition empty : JobManager := {| jobs := ∅; processingQueue := [] |}.

(** [createJob(jobData)].  [uuid] is what [uuidv4()] returns and [now]
    what [new Date()] returns.  The defaults come first in the object
    literal and [...jobData] last, so every property that [jobData]
    has wins over its default. *)
Definition createJob (uuid : string) (now : Z) (jobData : JobData)
    (this : JobManager) : ProcessingJob * JobManager :=
  let job :=
    {| id := default uuid (id' jobData);
       videoUrl := videoUrl' jobData;
       targetLanguage := targetLanguage' jobData;
       status := default PENDING (status' jobData);
       progress := default 0 (progress' jobData);
       currentStage := default VALIDATING_URL (currentStage' jobData);
       results := results' jobData;
       error := error' jobData;
       createdAt := default now (createdAt' jobData);
       updatedAt := default now (updatedAt' jobData) |} in
  (job, {| jobs := <[id job := job]> (jobs this);
           processingQueue := processingQueue this ++ [id job] |}).

(** [getJob(jobId)] *)
Definition getJob (jobId : string) (this : JobManager)
    : option ProcessingJob :=
  jobs this !! jobId.

(** [{ ...job, ...updates, updatedAt: new Date() }] *)
Definition applyUpdates (now : Z) (job : ProcessingJob) (updates : JobData)
    : ProcessingJob :=
  {| id := default (id job) (id' updates);
     videoUrl := over (videoUrl' updates) (videoUrl job);
     targetLanguage := over (targetLanguage' updates) (targetLanguage job);
     status := default (status job) (status' updates);
     progress := default (progress job) (progress' updates);
     currentStage := default (currentStage job) (currentStage' updates);
     results := over (results' updates) (results job);
     error := over (error' updates) (error job);
     createdAt := default (createdAt job) (createdAt' updates);
     updatedAt := now |}.

(** [updateJob(jobId, updates)] *)
Definition updateJob (now : Z) (jobId : string) (updates : JobData)
    (this : JobManager) : option ProcessingJob * JobManager :=
  match jobs this !! jobId with
  | None => (None, this)
  | Some job =>
      let updatedJob := applyUpdates now job updates in
      (Some updatedJob,
       {| jobs := <[jobId := updatedJob]> (jobs this);
          processingQueue := processingQueue this |})
  end.

(** [queue.indexOf(x)] followed by [queue.splice(index, 1)] when the
    index is found: the first occurrence of [x] is taken out. *)
Fixpoint removeFirst (x : string) (queue : list string) : list string :=
  match queue with
  | [] => []
  | y :: queue' => if String.eqb y x then queue' else y :: removeFirst x queue'
  end.

Definition cancelled : JobData :=
  {| id' := None; videoUrl' := None; targetLanguage' := None;
     status' := Some FAILED; progress' := None; currentStage' := None;
     results' := None; error' := Some "Job cancelled by user"%string;
     createdAt' := None; updatedAt' := None |}.

(** [cancelJob(jobId)] *)
Definition cancelJob (now : Z) (jobId : string) (this : JobManager)
    : bool * JobManager :=
  match jobs this !! jobId with
  | None => (false, this)
  | Some job =>
      if bool_decide (status job = PENDING)
         || bool_decide (status job = PROCESSING) then
        let (_, this1) := updateJob now jobId cancelled this in
        (true, {| jobs := jobs this1;
                  processingQueue := removeFirst jobId (processingQueue this1) |})
      else (false, this)
  end.

(** [Array.from(this.jobs.values())] (the order plays no part in what
    is computed from it here). *)
Definition values (this : JobManager) : list ProcessingJob :=
  (map_to_list (jobs this)).*2.

(** The number of jobs whose status is [PROCESSING]. *)
Definition activeJobs (this : JobManager) : nat :=
  length (filter (fun job => status job = PROCESSING) (values this)).

Definition started : JobData :=
  {| id' := None; videoUrl' := None; targetLanguage' := None;
     status' := Some PROCESSING; progress' := Some 5;
     currentStage' := Some VALIDATING_URL;
     results' := None; error' := None;
     createdAt' := None; updatedAt' := None |}.

(** [processNextJob()].  Next to the new state it gives the id in the
    console line "Starting to process job ...", if that line is
    written. *)
Definition processNextJob (now : Z) (this : JobManager)
    : option string * JobManager :=
  if bool_decide (maxConcurrentJobs <= activeJobs this)%nat then (None, this)
  else
    match processingQueue this with
    | [] => (None, this)
    | jobId :: queue' =>
        let shifted := {| jobs := jobs this; processingQueue := queue' |} in
        if String.eqb jobId "" then (None, shifted)
        else
          match jobs shifted !! jobId with
          | None => (None, shifted)
          | Some job =>
              if bool_decide (status job = PENDING) then
                (Some jobId, snd (updateJob now jobId started shifted))
              else (None, shifted)
          end
    end.

(** [cleanupOldJobs()]: finished jobs last updated more than an hour
    ago are deleted. *)
Definition expired (now : Z) (job : ProcessingJob) : bool :=
  (bool_decide (status job = COMPLETED) || bool_decide (status job = FAILED))
  && (updatedAt job <? now - 3600000).

Definition cleanupOldJobs (now : Z) (this : JobManager) : JobManager :=
  {| jobs := filter (fun kv => expired now kv.2 = false) (jobs this);
     processingQueue := processingQueue this |}.

(** [shutdown()]: every pending or processing job is marked in place. *)
Definition shutdownJob (now : Z) (job : ProcessingJob) : ProcessingJob :=
  if bool_decide (status job = PENDING)
     || bool_decide (status job = PROCESSING) then
    {| id := id job; videoUrl := videoUrl job;
       targetLanguage := targetLanguage job;
       status := FAILED; progress := progress job;
       currentStage := currentStage job; results := results job;
       error := Some "Server shutdown"%string;
       createdAt := createdAt job; updatedAt := now |}
  else job.

Definition shutdown (now : Z) (this : JobManager) : JobManager :=
  {| jobs := shutdownJob now <$> jobs this;
     processingQueue := processingQueue this |}.

(** *** Sequences of operations *)

Inductive Op :=
| CreateJob (uuid : string) (now : Z) (jobData : JobData)
| ProcessNextJob (now : Z)
| CancelJob (now : Z) (jobId : string)
| CleanupOldJobs (now : Z)
| Shutdown (now : Z).

(** What an observer has seen: the ids pushed by [createJob], in
    order, and the ids of the jobs started by [processNextJob], in
    order. *)
Record Observed := {
  manager : JobManager;
  submitted : list string;
  admitted : list string
}.

Definition initial : Observed :=
  {| manager := empty; submitted := []; admitted := [] |}.

Definition step (o : Observed) (op : Op) : Observed :=
  match op with
  | CreateJob uuid now jobData =>
      let (job, m) := createJob uuid now jobData (manager o) in
      {| manager := m; submitted := submitted o ++ [id job];
         admitted := admitted o |}
  | ProcessNextJob now =>
      let (startedId, m) := processNextJob now (manager o) in
      {| manager := m; submitted := submitted o;
         admitted := admitted o ++ option_list startedId |}
  | CancelJob now jobId =>
      {| manager := snd (cancelJob now jobId (manager o));
         submitted := submitted o; admitted := admitted o |}
  | CleanupOldJobs now =>
      {| manager := cleanupOldJobs now (manager o);
         submitted := submitted o; admitted := admitted o |}
  | Shutdown now =>
      {| manager := shutdown now (manager o);
         submitted := submitted o; admitted := admitted o |}
  end.

Definition run (ops : list Op) : Observed := fold_left step ops initial.

(** The concurrency gate and the queue discipline, on what has been
    observed: no more than [maxConcurrentJobs] jobs are processing,
    and the jobs started so far, followed by the ids still queued,
    appear in that order among the submissions. *)
Definition gated (o : Observed) : Prop :=
  (activeJobs (manager o) <= maxConcurrentJobs)%nat
  /\ admitted o ++ processingQueue (manager o) `sublist_of` submitted o.

(** A [createJob] whose [jobData] does not itself say that the job is
    processing. *)
Definition createsIdle (op : Op) : bool :=
  match op with
  | CreateJob _ _ jobData =>
      negb (bool_decide (status' jobData = Some PROCESSING))
  | _ => true
  end.

End JobManager.

(** ** Sample inputs *)

Module Samples.

(** Two translated chunks of 30 characters each; the second starts
    with the last ten characters of the first in lower case. *)
Definition shouted : text := lit "ABCDEFGHIJKLMNOPQRSTHELLO WORL".
Definition spoken : text := lit "hello world, this is a test ok".

(** [n] times the two characters [c d]. *)
Definition alternating (n : nat) (c d : ascii) : text :=
  flat_map (fun _ => [c; d]) (seq 0 n).

(** Two chunks of 100 characters; the second continues the first, and
    repeats its last 33 characters. *)
Definition zig : text := alternating 50 "a" "b".
Definition zag : text := alternating 50 "b" "a".

Definition letters (n : nat) : text := repeat "a"%char n.

(** Operations for the retry engine, as in its test suite; the state
    is the number of invocations made so far. *)
Definition failure (m : string) : Retry.JsError :=
  {| Retry.code := None; Retry.message := Some m; Retry.response := None |}.

Definition flaky (n : nat) : (Retry.JsError + string) * nat :=
  match n with
  | 0%nat => (inl (failure "ECONNRESET"), 1%nat)
  | 1%nat => (inl (failure "ETIMEDOUT"), 2%nat)
  | _ => (inr "success"%string, S n)
  end.

Definition invalid (n : nat) : (Retry.JsError + string) * nat :=
  (inl (failure "Validation error"), S n).

Definition unreachable (n : nat) : (Retry.JsError + string) * nat :=
  (inl (failure "ECONNRESET"), S n).

Definition rejectedSecond (n : nat) : (Retry.JsError + string) * nat :=
  match n with
  | 0%nat => (inl (failure "ETIMEDOUT"), 1%nat)
  | _ => (inl (failure "Validation error"), S n)
  end.


(** A regional backend that always answers, an evaluator that gives
    80 throughout, and a service set up without an LLM adapter. *)
Definition answering (request : Router.SarvamTranslateRequest) (w : unit)
    : (Retry.JsError + Router.SarvamTranslateResponse) * unit :=
  (inr {| Router.request_id := "req-1";
          Router.translated_text := lit "namaste duniya";
          Router.response_source_language_code := "en-IN" |}, w).

Definition eighty (_ _ : text) (_ _ : string)
    : Metrics.TranslationQualityMetrics :=
  {| Metrics.fluency := 80; Metrics.adequacy := 80;
     Metrics.semanticSimilarity := 80; Metrics.grammarScore := 80;
     Metrics.overallAccuracy := 80; Metrics.confidenceScore := 90 |}.

(** What the router makes of that answer. *)
Definition sarvamAnswer : TranslationResult :=
  {| translatedText := lit "namaste duniya";
     sourceLanguageCode := "en-IN"; targetLanguageCode := "hi-IN";
     requestId := "req-1"; translationAccuracy := 80;
     confidenceScore := 90; qualityMetrics := eighty [] [] "" "";
     translationMethod := Some SARVAM; llmMetadata := None |}.

Definition sarvamOnly : @Router.EnhancedTranslationService unit unit :=
  {| Router.sarvamApiKey := "key"; Router.llmAdapter := None;
     Router.defaultMethod := LLM |}.

Definition preferLLM : @Router.TranslationOptions unit :=
  {| Router.optTranslationMethod := Some LLM; Router.llmOptions := None |}.

Definition preferSarvam : @Router.TranslationOptions unit :=
  {| Router.optTranslationMethod := Some SARVAM; Router.llmOptions := None |}.

Definition fresh : Router.St unit :=
  {| Router.world := tt; Router.attempts := []; Router.slept := [] |}.

(** A regional backend that is down, and an LLM adapter that answers
    or is down as well. *)
Definition down (request : Router.SarvamTranslateRequest) (w : unit)
    : (Retry.JsError + Router.SarvamTranslateResponse) * unit :=
  (inl (failure "ECONNRESET"), w).

Definition llmAnswer : TranslationResult :=
  {| translatedText := lit "namaste duniya";
     sourceLanguageCode := "auto"; targetLanguageCode := "hi-IN";
     requestId := "llm-1"; translationAccuracy := 80;
     confidenceScore := 90; qualityMetrics := eighty [] [] "" "";
     translationMethod := None; llmMetadata := None |}.

Definition llmUp : @Router.LLMTranslationAdapter unit unit :=
  {| Router.adapterTranslateText := fun _ _ _ _ w => (inr llmAnswer, w) |}.

Definition llmDown : @Router.LLMTranslationAdapter unit unit :=
  {| Router.adapterTranslateText :=
       fun _ _ _ _ w => (inl (failure "LLM translation failed: timeout"), w) |}.

Definition withLLM (adapter : @Router.LLMTranslationAdapter unit unit)
    : @Router.EnhancedTranslationService unit unit :=
  {| Router.sarvamApiKey := "key"; Router.llmAdapter := Some adapter;
     Router.defaultMethod := LLM |}.


(** Submissions to the job manager: by id alone, and by id with the
    status set to processing by the caller. *)
Definition named (i : string) : JobManager.JobData :=
  {| JobManager.id' := Some i; JobManager.videoUrl' := None;
     JobManager.targetLanguage' := None; JobManager.status' := None;
     JobManager.progress' := None; JobManager.currentStage' := None;
     JobManager.results' := None; JobManager.error' := None;
     JobManager.createdAt' := None; JobManager.updatedAt' := None |}.

Definition namedProcessing (i : string) : JobManager.JobData :=
  {| JobManager.id' := Some i; JobManager.videoUrl' := None;
     JobManager.targetLanguage' := None;
     JobManager.status' := Some PROCESSING;
     JobManager.progress' := None; JobManager.currentStage' := None;
     JobManager.results' := None; JobManager.error' := None;
     JobManager.createdAt' := None; JobManager.updatedAt' := None |}.

(** Six submissions that say they are processing already. *)
Definition sixProcessing : list JobManager.Op :=
  map (fun i => JobManager.CreateJob "uuid" 0 (namedProcessing i))
    ["a"; "b"; "c"; "d"; "e"; "f"]%string.

(** Seven submissions, seven rounds of the processing loop, one
    cancellation and one more round. *)
Definition burst : list JobManager.Op :=
  map (fun i => JobManager.CreateJob "uuid" 0 (named i))
    ["a"; "b"; "c"; "d"; "e"; "f"; "g"]%string
  ++ repeat (JobManager.ProcessNextJob 5) 7
  ++ [JobManager.CancelJob 6 "b"; JobManager.ProcessNextJob 7].

(** The manager after the id "x" has been submitted twice. *)
Definition submittedTwice : JobManager.JobManager :=
  JobManager.manager
    (JobManager.run [JobManager.CreateJob "uuid" 0 (named "x");
                     JobManager.CreateJob "uuid" 1 (named "x")]).

(** The manager after "x" has been submitted once. *)
Definition submittedOnce : JobManager.JobManager :=
  JobManager.manager
    (JobManager.run [JobManager.CreateJob "uuid" 0 (named "x")]).

Definition pendingX : JobManager.ProcessingJob :=
  {| JobManager.id := "x"; JobManager.videoUrl := None;
     JobManager.targetLanguage := None; JobManager.status := PENDING;
     JobManager.progress := 0; JobManager.currentStage := VALIDATING_URL;
     JobManager.results := None; JobManager.error := None;
     JobManager.createdAt := 0; JobManager.updatedAt := 0 |}.


(** A result whose own accuracy is 65, as in the test suite. *)
Definition sixtyFive : TranslationResult :=
  {| translatedText := lit "test";
     sourceLanguageCode := "en-IN"; targetLanguageCode := "hi-IN";
     requestId := "test"; translationAccuracy := 65;
     confidenceScore := 65;
     qualityMetrics :=
       {| Metrics.fluency := 65; Metrics.adequacy := 65;
          Metrics.semanticSimilarity := 65; Metrics.grammarScore := 65;
          Metrics.overallAccuracy := 65; Metrics.confidenceScore := 65 |};
     translationMethod := None; llmMetadata := None |}.

(** A result put together by hand, as the test suite does, whose own
    accuracy is 75 while its quality metrics say 65. *)
Definition mismatched : TranslationResult :=
  {| translatedText := lit "test";
     sourceLanguageCode := "en-IN"; targetLanguageCode := "hi-IN";
     requestId := "test"; translationAccuracy := 75;
     confidenceScore := 85;
     qualityMetrics :=
       {| Metrics.fluency := 65; Metrics.adequacy := 65;
          Metrics.semanticSimilarity := 65; Metrics.grammarScore := 65;
          Metrics.overallAccuracy := 65; Metrics.confidenceScore := 75 |};
     translationMethod := None; llmMetadata := None |}.

End Samples.

(** ** LLMTranslationAdapter: how the text is chunked
    (services/llm/LLMTranslationAdapter.ts) *)

Module Adapter.

Record LLMTranslationAdapterOptions := {
  provider : option string;
  model : option string;
  maxTokens : option Z;
  temperature : option Q;
  contextPrompt : option string;
  domainHint : option string;
  maxChunkSize : option Z;
  chunkOverlap : option Z
}.

(** [n || d] for an optional number: an absent property and 0 are
    falsy and give [d]. *)
Definition orNumber (n : option Z) (d : Z) : Z :=
  match n with
  | Some v => if v =? 0 then d else v
  | None => d
  end.

(** [options?.maxChunkSize || 1500] and [options?.chunkOverlap || 200] *)
Definition effectiveMaxChunkSize (options : option LLMTranslationAdapterOptions)
  : Z :=
  orNumber (options ≫= maxChunkSize) 1500.

Definition effectiveOverlap (options : option LLMTranslationAdapterOptions)
  : Z :=
  orNumber (options ≫= chunkOverlap) 200.

(** The chunks that [translateText] of the adapter works on:
    [TextChunking.splitIntoChunks(text, maxChunkSize,
    options?.chunkOverlap || 200)]. *)
Definition chunksOf (fuel : nat) (t : text)
  (options : option LLMTranslationAdapterOptions) : option (list text) :=
  TextChunking.splitIntoChunks fuel t (effectiveMaxChunkSize options)
  (effectiveOverlap options).

End Adapter.

(** ** More sample inputs *)

Module MoreSamples.

Definition overlapOff : Adapter.LLMTranslationAdapterOptions :=
  {| Adapter.provider := None; Adapter.model := None;
  Adapter.maxTokens := None; Adapter.temperature := None;
  Adapter.contextPrompt := None; Adapter.domainHint := None;
  Adapter.maxChunkSize := Some 100; Adapter.chunkOverlap := Some 0 |}.

(** Forty characters, a full stop and a space, and forty more. *)
Definition twoSentences : text :=
  repeat "a"%char 40 ++ lit ". " ++ repeat "b"%char 40.


(** Its chunks for a chunk size of 40 and no overlap: the first keeps
    the full stop and has 41 characters. *)
Definition twoSentencesChunks : list text :=
  [ repeat "a"%char 40 ++ lit "."; repeat "b"%char 40 ].

End MoreSamples.

(** ** More sample inputs for the router *)

Module RouterSamples.

(** 2001 letters: one more than the regional backend accepts. *)
Definition longText : text := repeat "a"%char 2001.

(** Three spaces. *)
Definition blank : text := lit "   ".

Definition tooLong : Retry.JsError :=
  Router.Error
  "Input text exceeds maximum length of 2000 characters for Sarvam API".

(** A regional backend that answers with an empty translation, and
    one that fails once and answers then; the world counts the
    requests. *)
Definition silent (request : Router.SarvamTranslateRequest) (w : nat)
  : (Retry.JsError + Router.SarvamTranslateResponse) * nat :=
  (inr {| Router.request_id := "req-1";
          Router.translated_text := [];
          Router.response_source_language_code := "en-IN" |}, S w).

Definition recovering (request : Router.SarvamTranslateRequest) (w : nat)
  : (Retry.JsError + Router.SarvamTranslateResponse) * nat :=
  match w with
  | O => (inl (Samples.failure "ETIMEDOUT"), 1%nat)
  | _ =>
    (inr {| Router.request_id := "req-2";
            Router.translated_text := lit "namaste";
            Router.response_source_language_code := "en-IN" |}, S w)
  end.

Definition counting : Router.St nat :=
  {| Router.world := O; Router.attempts := []; Router.slept := [] |}.

End RouterSamples.

(** ** The retry policies of the services (utils/retry.ts) *)

Module RetryConfigs.

Definition networkCode (error : Retry.JsError) : bool :=
  Retry.codeIs error "ECONNRESET" || Retry.codeIs error "ENOTFOUND"
  || Retry.codeIs error "ETIMEDOUT".

(** Retry on network errors, but not on a private or missing video. *)
Definition youtubeRetryCondition (error : Retry.JsError) : bool :=
  if Retry.messageIncludes error "private"
  || Retry.messageIncludes error "not found" then false
  else networkCode error.

Definition YOUTUBE_RETRY_CONFIG : Retry.PartialRetryOptions :=
  {| Retry.maxAttempts' := Some 2; Retry.baseDelay' := Some 2000;
  Retry.maxDelay' := None; Retry.backoffFactor' := None;
  Retry.retryCondition' := Some youtubeRetryCondition |}.

(** Retry on anything but an invalid or missing audio track. *)
Definition transcriptionRetryCondition (error : Retry.JsError) : bool :=
  if Retry.messageIncludes error "Invalid audio"
  || Retry.messageIncludes error "No audio" then false
  else true.

Definition TRANSCRIPTION_RETRY_CONFIG : Retry.PartialRetryOptions :=
  {| Retry.maxAttempts' := Some 3; Retry.baseDelay' := Some 1500;
  Retry.maxDelay' := None; Retry.backoffFactor' := None;
  Retry.retryCondition' := Some transcriptionRetryCondition |}.

(** Retry on rate limits and server errors, not on authentication or
    validation errors. *)
Definition translationRetryCondition (error : Retry.JsError) : bool :=
  match Retry.response error with
  | Some r =>
  let status := Retry.status r in
  if (status =? 401) || (status =? 403) then false
  else if (status =? 400) || (status =? 422) then false
  else if (status =? 429) || (500 <=? status) then true
  else networkCode error
  | None => networkCode error
  end.

Definition TRANSLATION_RETRY_CONFIG : Retry.PartialRetryOptions :=
  {| Retry.maxAttempts' := Some 3; Retry.baseDelay' := Some 1000;
  Retry.maxDelay' := Some 10000; Retry.backoffFactor' := None;
  Retry.retryCondition' := Some translationRetryCondition |}.

(** An operation that never succeeds, with an error every policy
    retries; the state counts the invocations. *)
Definition resetting (n : nat) : (Retry.JsError + string) * nat :=
  (inl {| Retry.code := Some "ECONNRESET"%string; Retry.message := None;
  Retry.response := None |}, S n).

(** Options that allow no attempt at all. *)
Definition noAttempts : Retry.PartialRetryOptions :=
  {| Retry.maxAttempts' := Some 0; Retry.baseDelay' := None;
  Retry.maxDelay' := None; Retry.backoffFactor' := None;
  Retry.retryCondition' := None |}.

(** The options for which the arithmetic of the engine, which the
    code does in doubles, is the arithmetic of whole numbers, and for
    which a timer sleeps as long as it is told: the number of attempts
    and the delays before the cap are whole numbers of at most 2^53,
    the base delay and the factor are at least 1, and the cap is at
    most 2^31 - 1 ms, the longest delay that [setTimeout] takes. *)
Definition withinDoubles (config : Retry.RetryOptions) : Prop :=
  Retry.maxAttempts config <= 2 ^ 53
  /\ 1 <= Retry.baseDelay config
  /\ 1 <= Retry.backoffFactor config
  /\ Retry.baseDelay config
     * Retry.backoffFactor config ^ (Retry.maxAttempts config - 1)
     <= 2 ^ 53
  /\ 0 <= Retry.maxDelay config <= 2 ^ 31 - 1.

End RetryConfigs.

(** ** Job statistics (services/JobManager.ts) *)

Module JobStats.

(** [jobs.filter(j => j.status === st).length] *)
Definition withStatus (st : JobStatus) (this : JobManager.JobManager) : nat :=
  length (filter (fun job => JobManager.status job = st)
    (JobManager.values this)).

Record Stats := {
  total : nat;
  pending : nat;
  processing : nat;
  completed : nat;
  failed : nat;
  queueLength : nat
}.

(** [getJobStats()] *)
Definition getJobStats (this : JobManager.JobManager) : Stats :=
  {| total := length (JobManager.values this);
  pending := withStatus PENDING this;
  processing := withStatus PROCESSING this;
  completed := withStatus COMPLETED this;
  failed := withStatus FAILED this;
  queueLength := length (JobManager.processingQueue this) |}.

(** A submission whose id is the empty string. *)
Definition unnamed : JobManager.JobData :=
  {| JobManager.id' := Some ""%string; JobManager.videoUrl' := None;
  JobManager.targetLanguage' := None; JobManager.status' := None;
  JobManager.progress' := None; JobManager.currentStage' := None;
  JobManager.results' := None; JobManager.error' := None;
  JobManager.createdAt' := None; JobManager.updatedAt' := None |}.

End JobStats.

(** ** YouTube URLs (utils/youtube.ts) *)

Module YouTubeUrlValidator.

(** What a regular expression leaves in [match[1]] and [match[2]];
    [None] is [undefined], for a group that took no part or does not
    exist. *)
Record Match := {
  group1 : option text;
  group2 : option text
}.

(** A pattern is matched at the start of the text and with
    backtracking: a matcher is given what is still to be read and the
    rest of the pattern as a continuation. *)
Section Matchers.

Context {A : Type}.

(** A literal: the text behind it if it is there. *)
Fixpoint literal (d s : text) : option text :=
  match d, s with
  | [], _ => Some s
  | c :: d', x :: s' => if Ascii.eqb c x then literal d' s' else None
  | _ :: _, [] => None
  end.

Definition lit_then (d : string) (k : text -> option A) (s : text)
  : option A :=
  match literal (lit d) s with
  | Some rest => k rest
  | None => None
  end.

(** [(d)?]: first with [d], then without.  The continuation is told
    whether the group took part. *)
Definition optional (d : string) (k : bool -> text -> option A) (s : text)
  : option A :=
  match literal (lit d) s with
  | Some rest =>
  match k true rest with
  | Some r => Some r
  | None => k false s
  end
  | None => k false s
  end.

(** [.] matches everything but a line terminator (LF and CR within
    Latin-1). *)
Definition isLineTerminator (c : ascii) : bool :=
  Ascii.eqb c LF || Ascii.eqb c CR.

(** [.*]: the longest run first. *)
Fixpoint dotStar (k : text -> option A) (s : text) : option A :=
  match s with
  | [] => k []
  | c :: s' =>
  if isLineTerminator c then k s
  else match dotStar k s' with
  | Some r => Some r
  | None => k s
  end
  end.

End Matchers.

(** [[a-zA-Z0-9_-]] *)
Definition idChar (c : ascii) : bool :=
  let n := nat_of_ascii c in
  (((97 <=? n)%nat && (n <=? 122)%nat) || ((65 <=? n)%nat && (n <=? 90)%nat)
  || ((48 <=? n)%nat && (n <=? 57)%nat) || (n =? 95)%nat || (n =? 45)%nat)%bool.

(** [[a-zA-Z0-9_-]{n}]: the characters read and the text behind. *)
Fixpoint idChars (n : nat) (s : text) : option (text * text) :=
  match n with
  | O => Some ([], s)
  | S n' =>
  match s with
  | c :: s' =>
  if idChar c then
  match idChars n' s' with
  | Some (read, rest) => Some (c :: read, rest)
  | None => None
  end
  else None
  | [] => None
  end
  end.

(** [([a-zA-Z0-9_-]{11})] at the end of a pattern. *)
Definition videoIdGroup (s : text) : option text :=
  match idChars 11 s with
  | Some (read, _) => Some read
  | None => None
  end.

(** [^https?:\/\/(www\.)?youtube\.com<path>([a-zA-Z0-9_-]{11})] *)
Definition onYoutubeCom (path : string) (url : text) : option Match :=
  lit_then "http" (optional "s" (fun _ =>
  lit_then "://" (optional "www." (fun www =>
  lit_then "youtube.com" (lit_then path (fun rest =>
  match videoIdGroup rest with
  | Some videoId =>
  Some {| group1 := if www then Some (lit "www.") else None;
        group2 := Some videoId |}
  | None => None
  end)))))) url.

(** [^https?:\/\/youtu\.be\/([a-zA-Z0-9_-]{11})] *)
Definition onYoutuBe (url : text) : option Match :=
  lit_then "http" (optional "s" (fun _ =>
  lit_then "://" (lit_then "youtu.be/" (fun rest =>
  match videoIdGroup rest with
  | Some videoId => Some {| group1 := Some videoId; group2 := None |}
  | None => None
  end)))) url.

(** [^https?:\/\/(www\.)?youtube\.com\/watch\?.*v=([a-zA-Z0-9_-]{11})] *)
Definition onWatchQuery (url : text) : option Match :=
  lit_then "http" (optional "s" (fun _ =>
  lit_then "://" (optional "www." (fun www =>
  lit_then "youtube.com/watch?" (dotStar (lit_then "v=" (fun rest =>
  match videoIdGroup rest with
  | Some videoId =>
  Some {| group1 := if www then Some (lit "www.") else None;
        group2 := Some videoId |}
  | None => None
  end))))))) url.

Definition YOUTUBE_URL_PATTERNS : list (text -> option Match) :=
  [ onYoutubeCom "/watch?v="; onYoutubeCom "/embed/"; onYoutubeCom "/v/";
  onYoutuBe; onWatchQuery ].

(** [isValidVideoId(videoId)]: [/^[a-zA-Z0-9_-]{11}$/] *)
Definition isValidVideoId (videoId : text) : bool :=
  match idChars 11 videoId with
  | Some (_, []) => true
  | _ => false
  end.

(** [validateYouTubeUrl(url)] *)
Definition validateYouTubeUrl (url : text) : bool :=
  if Js.falsy url then false
  else
  let cleanUrl := Js.trim url in
  existsb (fun pattern => bool_decide (is_Some (pattern cleanUrl)))
  YOUTUBE_URL_PATTERNS.

(** [a || b] on strings that may be undefined. *)
Definition orElse (a b : option text) : option text :=
  match a with
  | Some (_ :: _) => a
  | _ => b
  end.

(** The loop over the patterns in [extractVideoId]. *)
Fixpoint firstVideoId (patterns : list (text -> option Match))
  (cleanUrl : text) : option text :=
  match patterns with
  | [] => None
  | pattern :: patterns' =>
  match pattern cleanUrl with
  | Some m =>
  match orElse (group2 m) (group1 m) with
  | Some (c :: videoId) =>
    if isValidVideoId (c :: videoId) then Some (c :: videoId)
    else firstVideoId patterns' cleanUrl
  | _ => firstVideoId patterns' cleanUrl
  end
  | None => firstVideoId patterns' cleanUrl
  end
  end.

(** [extractVideoId(url)] *)
Definition extractVideoId (url : text) : option text :=
  if Js.falsy url then None
  else firstVideoId YOUTUBE_URL_PATTERNS (Js.trim url).

(** [normalizeUrl(url)] *)
Definition normalizeUrl (url : text) : option text :=
  match extractVideoId url with
  | Some (c :: videoId) =>
  Some (lit "https://www.youtube.com/watch?v=" ++ c :: videoId)
  | _ => None
  end.

(** The forms of URL that are recognised, up to the video id. *)
Definition forms : list string :=
  [ "https://www.youtube.com/watch?v="; "http://www.youtube.com/watch?v=";
  "https://youtube.com/watch?v="; "http://youtube.com/watch?v=";
  "https://www.youtube.com/embed/"; "http://www.youtube.com/embed/";
  "https://youtube.com/embed/"; "http://youtube.com/embed/";
  "https://www.youtube.com/v/"; "http://www.youtube.com/v/";
  "https://youtube.com/v/"; "http://youtube.com/v/";
  "https://youtu.be/"; "http://youtu.be/" ]%string.

(** The hosts of the recognised forms, with the scheme. *)
Definition hosts : list string :=
  [ "https://www.youtube.com/"; "http://www.youtube.com/";
  "https://youtube.com/"; "http://youtube.com/";
  "https://youtu.be/"; "http://youtu.be/" ]%string.

(** What a pattern that matches has found: a valid id, which is what
    [match[2] || match[1]] gives, behind one of the hosts. *)
Definition found (cleanUrl : text) (m : Match) : Prop :=
  (exists videoId,
  orElse (group2 m) (group1 m) = Some videoId
  /\ isValidVideoId videoId = true)
  /\ exists host rest, In host hosts /\ cleanUrl = lit host ++ rest.

(** A watch URL up to its query, with or without [s] and [www.]. *)
Definition watchUrl (secure www : bool) : text :=
  lit "http" ++ (if secure then lit "s" else []) ++ lit "://"
  ++ (if www then lit "www." else []) ++ lit "youtube.com/watch?".

Definition rickroll : text := lit "dQw4w9WgXcQ".

End YouTubeUrlValidator.

(** ** The heuristic scores of the quality evaluator
    (services/EnhancedTranslationService.ts) *)

Module Evaluator.

(** [Math.max(0, Math.min(100, score))] *)
Definition clamp (score : Q) : Q := Qmax 0 (Qmin 100 score).

(** [a <= b] and [a > b] on numbers *)
Definition le (a b : Q) : bool := Qle_bool a b.
Definition gt (a b : Q) : bool := Quality.lt b a.

(** The number of elements of an array, as a number. *)
Definition count {A} (l : list A) : Q := inject_Z (Z.of_nat (length l)).

(** [[.,!?;:]] and [[.!?]] *)
Definition isPunctuation (c : ascii) : bool :=
  bool_decide (c ∈ [".";",";"!";"?";";";":"]%char).

Definition isSentenceEnd (c : ascii) : bool :=
  bool_decide (c ∈ [".";"!";"?"]%char).

(** [s.split(/[.!?]+/)]: the pieces between the maximal runs of
    sentence ends; a run at either end leaves an empty piece there. *)
Fixpoint splitSentencesFrom (s : text) (piece : text) (inRun : bool)
  : list text :=
  match s with
  | [] => [rev piece]
  | c :: s' =>
  if isSentenceEnd c then
  if inRun then splitSentencesFrom s' piece true
  else rev piece :: splitSentencesFrom s' [] true
  else splitSentencesFrom s' (c :: piece) false
  end.

(** [text.split(/[.!?]+/).filter(s => s.trim().length > 0)] *)
Definition sentencesOf (t : text) : list text :=
  List.filter (fun s => 0 <? Js.len (Js.trim s)) (splitSentencesFrom t [] false).

(** [!text || text.trim().length === 0] *)
Definition blank (t : text) : bool :=
  Js.falsy t || (Js.len (Js.trim t) =? 0).

(** [calculateFluency(text)] *)
Definition calculateFluency (t : text) : Q :=
  if blank t then 0%Q
  else
  let words := Quality.splitWhitespace (Js.trim t) in
  let totalLength :=
  fold_left (fun sum word => sum + Js.len word) words 0 in
  let avgWordLength := (inject_Z totalLength / count words)%Q in
  let score := 80%Q in
  let score :=
  if Quality.lt avgWordLength 3 || gt avgWordLength 12
  then (score - 10)%Q else score in
  let punctuationRatio :=
  (count (List.filter isPunctuation t) / count words)%Q in
  let score :=
  if gt punctuationRatio (3 # 10) then (score - 15)%Q else score in
  let sentences := sentencesOf t in
  let score :=
  if (0 <? length sentences)%nat then
  let avgSentenceLength := (count words / count sentences)%Q in
  if le 5 avgSentenceLength && le avgSentenceLength 20
  then (score + 10)%Q else score
  else score in
  clamp score.

(** [calculateAdequacy(sourceText, translatedText)] *)
Definition calculateAdequacy (sourceText translatedText : text) : Q :=
  if Js.falsy sourceText || Js.falsy translatedText then 0%Q
  else
  let sourceWords := Quality.splitWhitespace (Js.trim sourceText) in
  let translatedWords := Quality.splitWhitespace (Js.trim translatedText) in
  let lengthRatio := (count translatedWords / count sourceWords)%Q in
  let score := 75%Q in
  let score :=
  if le (7 # 10) lengthRatio && le lengthRatio (3 # 2)
  then (score + 15)%Q
  else if Quality.lt lengthRatio (1 # 2) || gt lengthRatio 2
   then (score - 20)%Q else score in
  let score :=
  if Quality.lt (count translatedWords) (count sourceWords * (3 # 10))
  then (score - 30)%Q else score in
  clamp score.

(** [/^[A-ZÀ-ÿ...]/]: within Latin-1 the class holds A-Z and
    U+00C0-U+00FF (the Indic blocks lie outside). *)
Definition startsCapital (s : text) : bool :=
  match s with
  | c :: _ =>
  let n := nat_of_ascii c in
  (((65 <=? n)%nat && (n <=? 90)%nat) || (192 <=? n)%nat)%bool
  | [] => false
  end.

(** [calculateGrammarScore(text)] *)
Definition calculateGrammarScore (t : text) : Q :=
  if blank t then 0%Q
  else
  let score := 80%Q in
  let sentences := sentencesOf t in
  let score :=
  if (length sentences =? 0)%nat then (score - 30)%Q
  else
  let properCapitalization :=
  List.filter (fun s => startsCapital (Js.trim s)) sentences in
  if gt (count properCapitalization / count sentences) (7 # 10)
  then (score + 10)%Q else score in
  let words := Quality.splitWhitespace t in
  let uniqueWords := remove_dups (map Js.toLowerCase words) in
  let repetitionRatio := (1 - count uniqueWords / count words)%Q in
  let score :=
  if gt repetitionRatio (1 # 2) then (score - 20)%Q else score in
  clamp score.

End Evaluator.

(** * Properties *)

(** ** Splitting *)

Section SplittingFacts.

Import TextChunking.

Lemma lastIndexFrom_le (s d : text) (i : nat) :
  Js.lastIndexFrom s d i <= Z.of_nat i.
Proof.
  induction i as [|i IH]; simpl.
  - destruct (Js.startsWith d (drop 0 s)); lia.
  - destruct (Js.startsWith d (drop (S i) s)); lia.
Qed.

(** A hit of [lastIndexOf] leaves room for the whole delimiter. *)
Lemma lastIndexOf_room (s d : text) (fromIndex : Z) :
  Js.lastIndexOf s d fromIndex = -1
  \/ Js.lastIndexOf s d fromIndex + Js.len d <= Js.len s.
Proof.
  unfold Js.lastIndexOf.
  destruct (Js.len s <? Js.len d) eqn:Hlen; [now left | right].
  apply Z.ltb_ge in Hlen.
  pose proof (lastIndexFrom_le s d
    (Z.to_nat (Z.min (Z.max fromIndex 0) (Js.len s - Js.len d)))) as H.
  rewrite Z2Nat.id in H by lia. lia.
Qed.

Lemma findLastOccurrence_range (s : text) (delimiters : list text)
    (startPosition endPosition : Z) :
  0 <= startPosition <= Js.len s ->
  startPosition <= findLastOccurrence s delimiters startPosition endPosition
    <= Js.len s.
Proof.
  unfold findLastOccurrence.
  revert startPosition.
  induction delimiters as [|d ds IH]; intros p Hp; simpl; [lia|].
  set (position := Js.lastIndexOf s d endPosition).
  assert (Hd : 0 <= Js.len d) by (unfold Js.len; lia).
  destruct ((p <? position) && (position <=? endPosition)) eqn:Hhit.
  - apply andb_true_iff in Hhit as [Hlt _]. apply Z.ltb_lt in Hlt.
    destruct (lastIndexOf_room s d endPosition) as [Hnone | Hroom];
      fold position in Hnone || fold position in Hroom; [lia|].
    specialize (IH (position + Js.len d)). lia.
  - specialize (IH p). lia.
Qed.

Lemma cutPosition_le (s : text) (maxChunkSize currentPosition : Z) :
  0 <= currentPosition <= Js.len s ->
  cutPosition s maxChunkSize currentPosition <= Js.len s.
Proof.
  intros Hcur. unfold cutPosition.
  set (endPosition := Z.min (currentPosition + maxChunkSize) (Js.len s)).
  pose proof (findLastOccurrence_range s paragraphDelimiters
                currentPosition endPosition Hcur) as Hpar.
  pose proof (findLastOccurrence_range s sentenceDelimiters
                currentPosition endPosition Hcur) as Hsen.
  repeat case_match; lia.
Qed.

(** With a positive overlap the next window never starts at the end
    of the text, so the loop is still running after any number of
    rounds. *)
Lemma splitLoop_runs_on (s : text) (maxChunkSize overlapSize : Z) :
  0 < overlapSize ->
  forall (fuel : nat) (currentPosition : Z) (chunks : list text),
    0 <= currentPosition < Js.len s ->
    splitLoop fuel s maxChunkSize overlapSize currentPosition chunks = None.
Proof.
  intros Hov. induction fuel as [|fuel IH]; intros cur chunks Hcur; simpl.
  - reflexivity.
  - destruct (cur <? Js.len s) eqn:Hlt; [|apply Z.ltb_ge in Hlt; lia].
    apply IH.
    pose proof (cutPosition_le s maxChunkSize cur ltac:(lia)). lia.
Qed.

(** With no overlap the loop ends: 5000 characters come back as chunks
    of 1500, 1500, 1500 and 500. *)
Example splitIntoChunks_without_overlap :
  option_map (map (@length ascii))
    (splitIntoChunks 5 (Samples.letters 5000) 1500 0)
  = Some [1500; 1500; 1500; 500]%nat.
Proof. vm_compute. reflexivity. Qed.

(** C10. A text no longer than [maxChunkSize] comes back as the one
    chunk of the result, unchanged. *)
Theorem splitIntoChunks_short_text (fuel : nat) (s : text)
    (maxChunkSize overlapSize : Z) :
  Js.len s <= maxChunkSize ->
  splitIntoChunks fuel s maxChunkSize overlapSize = Some [s].
Proof.
  intros Hlen. unfold splitIntoChunks.
  apply Z.leb_le in Hlen. rewrite Hlen, orb_true_r. reflexivity.
Qed.

Lemma splitIntoChunks_short_text_witness :
  Js.len (lit "Hello world") <= 1500
  /\ splitIntoChunks 0 (lit "Hello world") 1500 200
     = Some [lit "Hello world"].
Proof.
  split.
  - vm_compute. discriminate.
  - apply (splitIntoChunks_short_text 0 (lit "Hello world") 1500 200).
    vm_compute. discriminate.
Defined.

(** C1. On a text longer than the default chunk size the call with
    the default sizes has not returned after any number of rounds of
    its loop: the code does not terminate there, and so yields no
    list of chunks, whereas the design document promises one. *)
Theorem splitIntoChunks_long_text_never_returns (fuel : nat) (s : text) :
  defaultMaxChunkSize < Js.len s ->
  splitIntoChunks fuel s defaultMaxChunkSize defaultOverlapSize = None.
Proof.
  unfold defaultMaxChunkSize, defaultOverlapSize. intros Hlen.
  unfold splitIntoChunks.
  destruct s as [|c s]; [unfold Js.len in Hlen; simpl in Hlen; lia|].
  cbn [Js.falsy orb].
  destruct (Js.len (c :: s) <=? 1500) eqn:Hle; [apply Z.leb_le in Hle; lia|].
  apply splitLoop_runs_on; lia.
Qed.

Lemma splitIntoChunks_long_text_never_returns_witness :
  defaultMaxChunkSize < Js.len (Samples.letters 5000)
  /\ forall fuel,
       splitIntoChunks fuel (Samples.letters 5000)
         defaultMaxChunkSize defaultOverlapSize = None.
Proof.
  split.
  - vm_compute. reflexivity.
  - intros fuel.
    apply (splitIntoChunks_long_text_never_returns fuel (Samples.letters 5000)).
    vm_compute. reflexivity.
Defined.

End SplittingFacts.

(** ** Merging *)

Section MergingFacts.

Import Merge.

Lemma toInteger_whole (q : Q) (m : Z) :
  (q == inject_Z m)%Q -> toInteger q = m.
Proof.
  unfold Qeq, toInteger. simpl. intros H.
  rewrite Z.mul_1_r in H. rewrite H. apply Z.quot_mul. discriminate.
Qed.

Lemma Qle_bool_whole (q : Q) (k m : Z) :
  (q == inject_Z m)%Q -> Qle_bool (inject_Z k) q = (k <=? m).
Proof.
  intros H. apply eq_true_iff_eq.
  rewrite Qle_bool_iff, H, <- Zle_Qle. symmetry. apply Z.leb_le.
Qed.

Lemma substringFrom_drop (s : text) (n : Z) :
  0 <= n -> Js.substringFrom s n = drop (Z.to_nat n) s.
Proof.
  intros Hn. unfold Js.substringFrom, Js.substring, Js.len.
  pose proof (Nat2Z.id (length s)) as HL.
  pose proof (Nat2Z.is_nonneg (length s)) as H0.
  generalize dependent (Z.of_nat (length s)). intros L HL H0.
  replace (Z.max (Z.min (Z.max n 0) L) (Z.min (Z.max L 0) L)) with L by lia.
  destruct (Z_le_gt_dec n L) as [Hle | Hgt].
  - replace (Z.min (Z.min (Z.max n 0) L) (Z.min (Z.max L 0) L)) with n by lia.
    rewrite take_ge; [reflexivity|]. rewrite length_drop. lia.
  - replace (Z.min (Z.min (Z.max n 0) L) (Z.min (Z.max L 0) L)) with L by lia.
    rewrite HL, drop_all, take_nil.
    symmetry. apply drop_ge. lia.
Qed.

Lemma substring_take (s : text) (n : Z) :
  0 <= n -> Js.substring s 0 n = take (Z.to_nat n) s.
Proof.
  intros Hn. unfold Js.substring, Js.len.
  pose proof (Nat2Z.id (length s)) as HL.
  pose proof (Nat2Z.is_nonneg (length s)) as H0.
  generalize dependent (Z.of_nat (length s)). intros L HL H0.
  replace (Z.min (Z.min (Z.max 0 0) L) (Z.min (Z.max n 0) L)) with 0 by lia.
  replace (Z.max (Z.min (Z.max 0 0) L) (Z.min (Z.max n 0) L) - 0)
    with (Z.min n L) by lia.
  change (drop (Z.to_nat 0) s) with s.
  destruct (Z_le_gt_dec n L) as [Hle | Hgt].
  - f_equal. lia.
  - rewrite !take_ge by lia. reflexivity.
Qed.

Lemma countMatches_lower (a b : text) :
  countMatches (Js.toLowerCase a) (Js.toLowerCase b)
  = matchesBy sameLetter a b.
Proof.
  revert b. induction a as [|x a IH]; intros [|y b]; simpl; try reflexivity.
  unfold sameLetter at 1. now rewrite IH.
Qed.

(** On a whole candidate [m] within both strings the similarity that
    the code computes is the ratio over the last and the first [m]
    characters, letters compared up to case. *)
Lemma similarity_whole (first second : text) (o : Q) (m : Z) :
  (o == inject_Z m)%Q ->
  10 <= m -> m <= Js.len first -> m <= Js.len second ->
  calculateSimilarity
    (Js.substringFrom first (toInteger (inject_Z (Js.len first) - o)%Q))
    (Js.substring second 0 (toInteger o))
  = matchRatio sameLetter first second m.
Proof.
  intros Ho Hm H1 H2.
  assert (Hd : toInteger (inject_Z (Js.len first) - o)%Q = Js.len first - m).
  { apply toInteger_whole. rewrite Ho. unfold Zminus.
    rewrite inject_Z_plus, inject_Z_opp. reflexivity. }
  rewrite Hd, (toInteger_whole _ _ Ho).
  rewrite substringFrom_drop, substring_take by lia.
  unfold Js.len in *.
  replace (Z.to_nat (Z.of_nat (length first) - m))
    with (length first - Z.to_nat m)%nat by lia.
  fold (trailing first m). fold (leading second m).
  assert (Ht : length (trailing first m) = Z.to_nat m).
  { unfold trailing. rewrite length_drop. lia. }
  assert (Hl : length (leading second m) = Z.to_nat m).
  { unfold leading. rewrite length_take. lia. }
  unfold calculateSimilarity.
  destruct (trailing first m) as [|x a] eqn:Ea; [simpl in Ht; lia|].
  destruct (leading second m) as [|y b] eqn:Eb; [simpl in Hl; lia|].
  cbn [Js.falsy orb].
  rewrite countMatches_lower.
  unfold matchRatio. rewrite Ea, Eb.
  unfold Js.len, Js.toLowerCase. rewrite !length_map, Ht, Hl.
  replace (Z.min (Z.of_nat (Z.to_nat m)) (Z.of_nat (Z.to_nat m))) with m by lia.
  reflexivity.
Qed.

Lemma findOverlapLoop_whole (first second : text) (t : Q) :
  forall (fuel : nat) (o : Q) (m : Z),
    (o == inject_Z m)%Q ->
    0 <= m < 10 * Z.of_nat fuel ->
    m <= Js.len first -> m <= Js.len second ->
    exists q,
      findOverlapLoop fuel first second t o = Some q
      /\ toInteger q
         = firstQualifying sameLetter first second t (candidatesFrom fuel m).
Proof.
  induction fuel as [|fuel IH]; intros o m Ho Hm H1 H2; [lia|].
  simpl findOverlapLoop. simpl candidatesFrom.
  change 10%Q with (inject_Z 10).
  rewrite (Qle_bool_whole o 10 m Ho).
  destruct (10 <=? m) eqn:H10.
  - apply Z.leb_le in H10.
    rewrite (similarity_whole first second o m Ho H10 H1 H2).
    unfold firstQualifying. simpl List.filter.
    destruct (Qle_bool t (matchRatio sameLetter first second m)).
    + exists o. split; [reflexivity | now apply toInteger_whole].
    + apply IH; try lia.
      rewrite Ho. unfold Zminus. rewrite inject_Z_plus, inject_Z_opp.
      reflexivity.
  - exists 0%Q. split; reflexivity.
Qed.

Lemma startingOverlap_whole (first second : text) :
  wholeThird first second = true ->
  (Qmin 200 (inject_Z (Z.min (Js.len first) (Js.len second)) / 3)
   == inject_Z (Z.min 200 (Z.min (Js.len first) (Js.len second) / 3)))%Q.
Proof.
  unfold wholeThird.
  set (n := Z.min (Js.len first) (Js.len second)).
  intros Hw. apply orb_true_iff in Hw.
  assert (Hthird : forall k, (inject_Z (3 * k) / 3 == inject_Z k)%Q).
  { intros k. rewrite inject_Z_mult. field. }
  destruct (Z_le_gt_dec 600 n) as [Hbig | Hsmall].
  - rewrite Z.min_l by (apply Z.div_le_lower_bound; lia).
    apply Q.min_l.
    apply Qle_shift_div_l; [reflexivity|].
    change (inject_Z 600 <= inject_Z n)%Q. rewrite <- Zle_Qle. exact Hbig.
  - destruct Hw as [Hmod | Hbig]; [|apply Z.leb_le in Hbig; lia].
    apply Z.eqb_eq in Hmod.
    assert (Hn : n = 3 * (n / 3)) by (rewrite (Z.div_mod n 3) at 1; lia).
    rewrite Hn at 1. rewrite Hthird.
    rewrite Z.min_r by lia.
    apply Q.min_r. change (inject_Z (n / 3) <= inject_Z 200)%Q.
    rewrite <- Zle_Qle. lia.
Qed.

Lemma findOverlapSize_whole (first second : text) (t : Q) :
  wholeThird first second = true ->
  exists q,
    findOverlapSize first second t = Some q
    /\ toInteger q = detectedOverlap sameLetter first second t.
Proof.
  intros Hw. unfold findOverlapSize, detectedOverlap, candidates.
  pose proof (startingOverlap_whole first second Hw) as Hstart.
  assert (Hlen : 0 <= Z.min (Js.len first) (Js.len second))
    by (unfold Js.len; lia).
  assert (Hdiv : 0 <= Z.min (Js.len first) (Js.len second) / 3
                 <= Z.min (Js.len first) (Js.len second)).
  { split; [apply Z.div_pos; lia|].
    apply Z.div_le_upper_bound; lia. }
  apply (findOverlapLoop_whole first second t overlapFuel _ _ Hstart);
    unfold overlapFuel; lia.
Qed.

Lemma mergeSteps_whole (t : Q) (rest : list text) :
  forall acc : text,
    wholeThirds t acc rest = true ->
    fold_left (mergeStep t) rest (Some acc)
    = Some (fold_left
              (fun acc chunk =>
                 acc ++ drop (Z.to_nat (detectedOverlap sameLetter acc chunk t))
                          chunk)
              rest acc).
Proof.
  induction rest as [|chunk rest IH]; intros acc Hw; simpl; [reflexivity|].
  simpl in Hw. apply andb_true_iff in Hw as [Hhere Hrest].
  destruct (findOverlapSize_whole acc chunk t Hhere) as (q & Hq & Hint).
  rewrite Hq, Hint.
  rewrite substringFrom_drop.
  - now apply IH.
  - unfold detectedOverlap, firstQualifying.
    destruct (List.filter _ _) as [|n l] eqn:Ef; [lia|].
    assert (Hin : In n (candidates acc chunk)).
    { eapply proj1. apply filter_In. rewrite Ef. now left. }
    clear -Hin. unfold candidates in Hin.
    revert Hin. generalize (Z.min 200 (Z.min (Js.len acc) (Js.len chunk) / 3)).
    induction overlapFuel as [|k IHk]; intros m; simpl; [tauto|].
    destruct (10 <=? m) eqn:H10; simpl; [|tauto].
    apply Z.leb_le in H10. intros [<- | Hin]; [lia | eauto].
Qed.

(** The loop of [findOverlapSize] always comes to an end within its
    twenty-one rounds, whatever the strings and the threshold. *)
Lemma findOverlapLoop_total (first second : text) (t : Q) :
  forall (fuel : nat) (o : Q),
    (o < inject_Z (10 * (Z.of_nat fuel + 1)))%Q ->
    exists q, findOverlapLoop (S fuel) first second t o = Some q.
Proof.
  induction fuel as [|fuel IH]; intros o Ho.
  - simpl. destruct (Qle_bool 10 o) eqn:H10; [|eauto].
    apply Qle_bool_iff in H10. exfalso.
    apply (Qlt_not_le _ _ Ho). exact H10.
  - cbn [findOverlapLoop].
    destruct (Qle_bool 10 o) eqn:H10; [|eauto].
    destruct (Qle_bool t _); [eauto|].
    apply IH.
    replace (10 * (Z.of_nat (S fuel) + 1)) with (10 * (Z.of_nat fuel + 1) + 10)
      in Ho by lia.
    rewrite inject_Z_plus in Ho.
    apply Qplus_lt_l with (z := 10%Q).
    unfold Qminus. rewrite <- Qplus_assoc, (Qplus_comm (- 10) 10), Qplus_opp_r,
      Qplus_0_r.
    exact Ho.
Qed.

Lemma findOverlapSize_total (first second : text) (t : Q) :
  exists q, findOverlapSize first second t = Some q.
Proof.
  unfold findOverlapSize, overlapFuel.
  apply findOverlapLoop_total.
  eapply Qle_lt_trans; [apply Q.le_min_l|]. reflexivity.
Qed.

Lemma mergeChunks_total (chunks : list text) (t : Q) :
  exists merged, mergeChunks chunks t = Some merged.
Proof.
  destruct chunks as [|first rest]; simpl; [eauto|].
  revert first. induction rest as [|chunk rest IH]; intros acc; simpl; [eauto|].
  destruct (findOverlapSize_total acc chunk t) as [q Hq]. rewrite Hq.
  apply IH.
Qed.
(** C2, as it holds.  Where one third of the shorter length is whole
    at every round (or cut off by the cap of 200), the merge is the
    first chunk extended by each later chunk without its detected
    overlap; the detected overlap is the largest candidate among
    [m, m - 10, ..., >= 10], [m] the smaller of 200 and that third,
    whose position-wise ratio of matching characters, letters
    compared without regard to case, reaches the threshold, and 0
    if there is none. *)
Theorem mergeChunks_removes_detected_overlap (chunks : list text) (t : Q) :
  match chunks with
  | [] => True
  | first :: rest => wholeThirds t first rest = true
  end ->
  mergeChunks chunks t = Some (mergedBy sameLetter chunks t).
Proof.
  destruct chunks as [|first rest]; intros Hw; simpl; [reflexivity|].
  now apply mergeSteps_whole.
Qed.

Lemma mergeChunks_removes_detected_overlap_witness :
  wholeThirds (1 # 2) Samples.shouted [Samples.spoken] = true
  /\ mergeChunks [Samples.shouted; Samples.spoken] (1 # 2)
     = Some (mergedBy sameLetter [Samples.shouted; Samples.spoken] (1 # 2)).
Proof.
  split.
  - vm_compute. reflexivity.
  - apply (mergeChunks_removes_detected_overlap
             [Samples.shouted; Samples.spoken] (1 # 2)).
    vm_compute. reflexivity.
Defined.

(** C2, as worded, fails twice over.  With characters compared as
    they are, the ten characters "HELLO WORL" and "hello worl" agree
    in one position only and the whole second chunk would be
    appended, whereas the code compares them in lower case, finds an
    overlap of ten and drops it.  And when a third of the shorter
    length is not whole (100 / 3 here), the code compares the last 34
    characters of the accumulator with the first 33 of the chunk, one
    position off: the 33 repeated characters go undetected and the
    second chunk is appended in full. *)
Lemma mergeChunks_departs_from_wording :
  mergeChunks [Samples.shouted; Samples.spoken] defaultOverlapThreshold
  <> Some (mergedBy sameChar [Samples.shouted; Samples.spoken]
             defaultOverlapThreshold)
  /\ mergeChunks [Samples.zig; Samples.zag] defaultOverlapThreshold
     <> Some (mergedBy sameChar [Samples.zig; Samples.zag]
                defaultOverlapThreshold).
Proof. split; vm_compute; discriminate. Qed.

(** The second departure in figures: the wording detects an overlap
    of 33, the code none. *)
Example mergeChunks_fractional_third :
  detectedOverlap sameLetter Samples.zig Samples.zag defaultOverlapThreshold
  = 33
  /\ findOverlapSize Samples.zig Samples.zag defaultOverlapThreshold
     = Some 0%Q
  /\ mergeChunks [Samples.zig; Samples.zag] defaultOverlapThreshold
     = Some (Samples.zig ++ Samples.zag).
Proof. vm_compute. repeat split. Qed.

End MergingFacts.

(** ** Retrying *)

Section RetryFacts.

Import Retry.

Context {T W : Type}.
Variable operation : W -> (JsError + T) * W.

Lemma mergeOptions_none : mergeOptions noOptions = DEFAULT_OPTIONS.
Proof. reflexivity. Qed.

(** Whatever the options: a value that is thrown is the failure of
    the last invocation made, the invocations before it failed with
    errors accepted by the retry predicate, and the loop stopped
    either at the last allowed attempt or on an error that the
    predicate rejects. *)
Lemma attemptLoop_rethrows_last (config : RetryOptions) :
  forall (remaining : nat) (attempt : Z) (lastError : option JsError)
         (calls : nat) (slept : list Z) (st : W) (e : JsError),
    attempt + Z.of_nat remaining = maxAttempts config + 1 ->
    let r := attemptLoop operation config remaining attempt lastError
               calls slept st in
    outcome r = Thrown (Some e) ->
    (remaining = O /\ lastError = Some e)
    \/ (exists n : nat,
          invocations r = (calls + S n)%nat
          /\ resultOf operation n st = inl e
          /\ (forall k, (k < n)%nat ->
                exists e', resultOf operation k st = inl e'
                           /\ retryCondition config e' = true)
          /\ (attempt + Z.of_nat n = maxAttempts config
              \/ retryCondition config e = false)).
Proof.
  induction remaining as [|remaining IH];
    intros attempt lastError calls slept st e Hrem r Hout; subst r.
  - left. simpl in Hout. split; [reflexivity | congruence].
  - right. simpl in Hout |- *.
    destruct (operation st) as [[error | value] st'] eqn:Hop;
      [|discriminate].
    destruct (attempt =? maxAttempts config) eqn:Hlast.
    + simpl in Hout |- *. injection Hout as <-.
      exists O. unfold resultOf. simpl. rewrite Hop.
      repeat split; [lia | intros; lia |].
      left. apply Z.eqb_eq in Hlast. lia.
    + destruct (retryCondition config error) eqn:Hretry; simpl in Hout |- *.
      * apply Z.eqb_neq in Hlast.
        destruct (IH (attempt + 1) (Some error) (S calls)
                    (slept ++ [delayFor config attempt]) st' e
                    ltac:(lia) Hout)
          as [[-> _] | (n & Hinv & Hres & Hbefore & Hstop)]; [lia|].
        exists (S n). repeat split.
        -- rewrite Hinv. lia.
        -- unfold resultOf in *. simpl. now rewrite Hop.
        -- intros [|k] Hk.
           ++ exists error. unfold resultOf. simpl. now rewrite Hop.
           ++ destruct (Hbefore k ltac:(lia)) as (e' & He' & Hr').
              exists e'. unfold resultOf in *. simpl. now rewrite Hop.
        -- destruct Hstop as [Hstop | Hstop]; [left; lia | now right].
      * injection Hout as <-.
        exists O. unfold resultOf. simpl. rewrite Hop.
        repeat split; [lia | intros; lia | now right].
Qed.

(** C3. With the default options: an operation that fails twice with
    errors the default predicate accepts and then succeeds gives its
    value after exactly three invocations; an operation whose first
    failure the predicate rejects is invoked exactly once; and when
    the predicate rejects a failure, or the third attempt fails, that
    last failure is what is thrown.  The state in which the operation
    is left is the one after that many invocations. *)
Theorem executeWithRetry_default (st0 : W) :
  let r := executeWithRetry operation noOptions st0 in
  (forall e1 st1 e2 st2 v st3,
      operation st0 = (inl e1, st1) -> defaultRetryCondition e1 = true ->
      operation st1 = (inl e2, st2) -> defaultRetryCondition e2 = true ->
      operation st2 = (inr v, st3) ->
      outcome r = Returned v /\ invocations r = 3%nat /\ final r = st3)
  /\ (forall e1 st1,
        operation st0 = (inl e1, st1) -> defaultRetryCondition e1 = false ->
        outcome r = Thrown (Some e1) /\ invocations r = 1%nat
        /\ final r = st1)
  /\ (forall e1 st1 e2 st2,
        operation st0 = (inl e1, st1) -> defaultRetryCondition e1 = true ->
        operation st1 = (inl e2, st2) -> defaultRetryCondition e2 = false ->
        outcome r = Thrown (Some e2) /\ invocations r = 2%nat
        /\ final r = st2)
  /\ (forall e1 st1 e2 st2 e3 st3,
        operation st0 = (inl e1, st1) -> defaultRetryCondition e1 = true ->
        operation st1 = (inl e2, st2) -> defaultRetryCondition e2 = true ->
        operation st2 = (inl e3, st3) ->
        outcome r = Thrown (Some e3) /\ invocations r = 3%nat
        /\ final r = st3).
Proof.
  unfold executeWithRetry. rewrite mergeOptions_none.
  change (Z.to_nat (maxAttempts DEFAULT_OPTIONS)) with 3%nat.
  cbv zeta.
  split; [|split; [|split]]; intros; simpl;
    repeat match goal with
           | H : operation _ = _ |- _ => rewrite H; clear H; simpl
           | H : defaultRetryCondition _ = _ |- _ => rewrite H; clear H; simpl
           end; repeat split.
Qed.

End RetryFacts.

Lemma executeWithRetry_default_witness :
  (Retry.outcome (Retry.executeWithRetry Samples.flaky Retry.noOptions 0%nat)
   = Retry.Returned "success"%string
   /\ Retry.invocations
        (Retry.executeWithRetry Samples.flaky Retry.noOptions 0%nat) = 3%nat
   /\ Retry.final
        (Retry.executeWithRetry Samples.flaky Retry.noOptions 0%nat) = 3%nat)
  /\ (Retry.outcome (Retry.executeWithRetry Samples.invalid Retry.noOptions 0%nat)
      = Retry.Thrown (Some (Samples.failure "Validation error"))
      /\ Retry.invocations
           (Retry.executeWithRetry Samples.invalid Retry.noOptions 0%nat) = 1%nat
      /\ Retry.final
           (Retry.executeWithRetry Samples.invalid Retry.noOptions 0%nat) = 1%nat)
  /\ (Retry.outcome
        (Retry.executeWithRetry Samples.rejectedSecond Retry.noOptions 0%nat)
      = Retry.Thrown (Some (Samples.failure "Validation error"))
      /\ Retry.invocations
           (Retry.executeWithRetry Samples.rejectedSecond Retry.noOptions 0%nat)
         = 2%nat
      /\ Retry.final
           (Retry.executeWithRetry Samples.rejectedSecond Retry.noOptions 0%nat)
         = 2%nat)
  /\ (Retry.outcome
        (Retry.executeWithRetry Samples.unreachable Retry.noOptions 0%nat)
      = Retry.Thrown (Some (Samples.failure "ECONNRESET"))
      /\ Retry.invocations
           (Retry.executeWithRetry Samples.unreachable Retry.noOptions 0%nat)
         = 3%nat
      /\ Retry.final
           (Retry.executeWithRetry Samples.unreachable Retry.noOptions 0%nat)
         = 3%nat).
Proof.
  split; [|split; [|split]].
  - apply (proj1 (executeWithRetry_default Samples.flaky 0%nat)
             (Samples.failure "ECONNRESET") 1%nat
             (Samples.failure "ETIMEDOUT") 2%nat "success"%string 3%nat);
      reflexivity.
  - apply (proj1 (proj2 (executeWithRetry_default Samples.invalid 0%nat))
             (Samples.failure "Validation error") 1%nat);
      reflexivity.
  - apply (proj1 (proj2 (proj2
             (executeWithRetry_default Samples.rejectedSecond 0%nat)))
             (Samples.failure "ETIMEDOUT") 1%nat
             (Samples.failure "Validation error") 2%nat);
      reflexivity.
  - apply (proj2 (proj2 (proj2
             (executeWithRetry_default Samples.unreachable 0%nat)))
             (Samples.failure "ECONNRESET") 1%nat
             (Samples.failure "ECONNRESET") 2%nat
             (Samples.failure "ECONNRESET") 3%nat);
      reflexivity.
Defined.

(** ** Routing between the method families *)

Section RouterFacts.

Import Router.

Context {World LLMTranslationAdapterOptions : Type}.
Variable makeTranslationRequest :
  SarvamTranslateRequest -> World ->
  (Retry.JsError + SarvamTranslateResponse) * World.
Variable calculateQualityMetrics :
  text -> text -> string -> string -> Metrics.TranslationQualityMetrics.
Variable this :
  @EnhancedTranslationService World LLMTranslationAdapterOptions.

Local Abbreviation withSarvam :=
  (translateWithSarvam makeTranslationRequest calculateQualityMetrics).
Local Abbreviation translate :=
  (translateText makeTranslationRequest calculateQualityMetrics this).

Lemma sarvamLoop_attempts (remaining : nat) :
  forall attempt request t targetLanguage sourceLanguage lastError
         (st : St World),
    attempts
      (snd (sarvamLoop makeTranslationRequest calculateQualityMetrics
              remaining attempt request t targetLanguage sourceLanguage
              lastError st))
    = attempts st.
Proof.
  induction remaining as [|remaining IH]; intros; simpl; [reflexivity|].
  unfold tryCatch, bind, inWorld, ret.
  destruct (makeTranslationRequest request (world st)) as [[e | response] w];
    simpl; [|reflexivity].
  destruct (attempt <? maxRetries); simpl; now rewrite IH.
Qed.

(** Each translate function is entered once per call. *)
Lemma translateWithSarvam_attempts t targetLanguage sourceLanguage
    (st : St World) :
  attempts (snd (withSarvam t targetLanguage sourceLanguage st))
  = attempts st ++ [SARVAM].
Proof.
  unfold translateWithSarvam, bind, enter, throw. cbv beta iota.
  destruct (2000 <? Js.len t); [reflexivity|].
  destruct (validateLanguageCode targetLanguage); [|reflexivity].
  now rewrite sarvamLoop_attempts.
Qed.

Lemma translateWithLLM_attempts t targetLanguage sourceLanguage options
    (st : St World) :
  attempts (snd (translateWithLLM this t targetLanguage sourceLanguage
                   options st))
  = attempts st ++ [LLM].
Proof.
  unfold translateWithLLM, bind, enter, throw, inWorld. simpl.
  destruct (llmAdapter this) as [adapter|]; [|reflexivity].
  now destruct (adapterTranslateText adapter _ _ _ _ _).
Qed.

(** No call enters more than two translate functions: the preferred
    one and, on its failure, at most one other. *)
Lemma translateText_at_most_two_attempts (t : text) (targetLanguage : string)
    (sourceLanguage : option string) (options : option TranslationOptions)
    (st : St World) :
  exists entered,
    attempts (snd (translateText makeTranslationRequest calculateQualityMetrics
                     this t targetLanguage sourceLanguage options st))
    = attempts st ++ entered
    /\ (length entered <= 2)%nat.
Proof.
  unfold translateText.
  destruct (Js.falsy t || (Js.len (Js.trim t) =? 0)).
  { exists []. unfold throw. cbn [snd]. rewrite app_nil_r. split; [done | simpl; lia]. }
  unfold tryCatch.
  set (source := default "auto"%string sourceLanguage).
  set (llmOpts := chosenLlmOptions options).
  pose proof (translateWithSarvam_attempts t targetLanguage source) as Hs.
  pose proof (translateWithLLM_attempts t targetLanguage source llmOpts)
    as Hl.
  destruct (llmSelected this (chosenMethod this options)).
  - pose proof (Hl st) as H1.
    destruct (translateWithLLM this t targetLanguage source llmOpts st)
      as [[e | r] st1]; cbn [snd] in *.
    + exists [LLM; SARVAM]. rewrite Hs, H1, <- app_assoc.
      split; [done | simpl; lia].
    + exists [LLM]. split; [done | simpl; lia].
  - pose proof (Hs st) as H1.
    destruct (translateWithSarvam makeTranslationRequest
                calculateQualityMetrics t targetLanguage source st)
      as [[e | r] st1]; cbn [snd] in *.
    + destruct (bool_decide (is_Some (llmAdapter this))).
      * exists [SARVAM; LLM]. rewrite Hl, H1, <- app_assoc.
        split; [done | simpl; lia].
      * exists [SARVAM]. unfold throw. cbn [snd]. split; [done | simpl; lia].
    + exists [SARVAM]. split; [done | simpl; lia].
Qed.
(** C4. When the attempt with the preferred method fails, one attempt
    is made with the other family and its outcome, value or error, is
    the outcome of the call: LLM first and Sarvam second when LLM is
    preferred and an adapter is set up; Sarvam first and LLM second
    when Sarvam is preferred and an adapter is set up; and Sarvam
    alone, its error thrown again, when no adapter is set up.  In no
    case are more than two attempts made. *)
Theorem translateText_falls_back_once (t : text) (targetLanguage : string)
    (sourceLanguage : option string) (options : option TranslationOptions)
    (st : St World) :
  (Js.falsy t || (Js.len (Js.trim t) =? 0)) = false ->
  let source := default "auto"%string sourceLanguage in
  let llmOpts := chosenLlmOptions options in
  (forall e st1,
      chosenMethod this options = LLM -> is_Some (llmAdapter this) ->
      translateWithLLM this t targetLanguage source llmOpts st = (inl e, st1) ->
      translate t targetLanguage sourceLanguage options st
      = withSarvam t targetLanguage source st1
      /\ attempts (snd (translate t targetLanguage sourceLanguage options st))
         = attempts st ++ [LLM; SARVAM])
  /\ (forall e st1,
        chosenMethod this options = SARVAM -> is_Some (llmAdapter this) ->
        withSarvam t targetLanguage source st = (inl e, st1) ->
        translate t targetLanguage sourceLanguage options st
        = translateWithLLM this t targetLanguage source llmOpts st1
        /\ attempts (snd (translate t targetLanguage sourceLanguage options st))
           = attempts st ++ [SARVAM; LLM])
  /\ (forall e st1,
        chosenMethod this options = SARVAM -> llmAdapter this = None ->
        withSarvam t targetLanguage source st = (inl e, st1) ->
        translate t targetLanguage sourceLanguage options st = (inl e, st1)
        /\ attempts st1 = attempts st ++ [SARVAM])
  /\ (exists entered,
        attempts (snd (translate t targetLanguage sourceLanguage options st))
        = attempts st ++ entered
        /\ (length entered <= 2)%nat).
Proof.
  intros Hnonempty source llmOpts.
  split; [|split; [|split]];
    [| | |apply translateText_at_most_two_attempts];
    unfold translateText; rewrite Hnonempty; fold source; fold llmOpts;
    unfold llmSelected, tryCatch;
    intros e st1 Hmethod Hadapter Hfail; rewrite Hmethod.
  - rewrite !bool_decide_eq_true_2 by done. cbn [andb]. rewrite Hfail.
    split; [reflexivity|].
    rewrite translateWithSarvam_attempts.
    pose proof (translateWithLLM_attempts t targetLanguage source llmOpts st)
      as Hllm.
    rewrite Hfail in Hllm. cbn [snd] in Hllm. rewrite Hllm.
    now rewrite <- app_assoc.
  - rewrite (bool_decide_eq_false_2 (SARVAM = LLM)) by done.
    rewrite bool_decide_eq_true_2 by done. cbn [andb]. rewrite Hfail.
    split; [reflexivity|].
    rewrite translateWithLLM_attempts.
    pose proof (translateWithSarvam_attempts t targetLanguage source st)
      as Hsarvam.
    rewrite Hfail in Hsarvam. cbn [snd] in Hsarvam. rewrite Hsarvam.
    now rewrite <- app_assoc.
  - rewrite (bool_decide_eq_false_2 (SARVAM = LLM)) by done.
    rewrite Hadapter.
    rewrite (bool_decide_eq_false_2 (is_Some None))
      by (intros [? ?]; discriminate).
    cbn [andb]. rewrite Hfail.
    split; [reflexivity|].
    pose proof (translateWithSarvam_attempts t targetLanguage source st)
      as Hsarvam.
    now rewrite Hfail in Hsarvam.
Qed.

(** C5, as it holds.  When LLM is the preferred method and no adapter
    is set up, the call is the Sarvam translation of the same text:
    its result is returned, or its error thrown again, and the LLM
    family is not entered. *)
Theorem translateText_without_adapter_uses_sarvam (t : text)
    (targetLanguage : string) (sourceLanguage : option string)
    (options : option TranslationOptions) (st : St World) :
  (Js.falsy t || (Js.len (Js.trim t) =? 0)) = false ->
  chosenMethod this options = LLM ->
  llmAdapter this = None ->
  translate t targetLanguage sourceLanguage options st
  = withSarvam t targetLanguage (default "auto"%string sourceLanguage) st
  /\ attempts (snd (translate t targetLanguage sourceLanguage options st))
     = attempts st ++ [SARVAM].
Proof.
  intros Hnonempty Hmethod Hadapter.
  assert (Heq : translate t targetLanguage sourceLanguage options st
                = withSarvam t targetLanguage
                    (default "auto"%string sourceLanguage) st).
  { unfold translateText. rewrite Hnonempty.
    unfold llmSelected, tryCatch. rewrite Hmethod, Hadapter.
    rewrite (bool_decide_eq_false_2 (is_Some None))
      by (intros [? ?]; discriminate).
    rewrite andb_false_r.
    now destruct (withSarvam _ _ _ st) as [[e | r] st1]. }
  split; [exact Heq|].
  rewrite Heq. apply translateWithSarvam_attempts.
Qed.

End RouterFacts.

Lemma translateText_falls_back_once_witness :
  Router.translateText Samples.down Samples.eighty
    (Samples.withLLM Samples.llmDown) (lit "Hello world") "hi-IN" None
    (Some Samples.preferLLM) Samples.fresh
  = Router.translateWithSarvam Samples.down Samples.eighty
      (lit "Hello world") "hi-IN" "auto"
      {| Router.world := tt; Router.attempts := [LLM]; Router.slept := [] |}
  /\ Router.attempts
       (snd (Router.translateText Samples.down Samples.eighty
               (Samples.withLLM Samples.llmDown) (lit "Hello world") "hi-IN"
               None (Some Samples.preferLLM) Samples.fresh))
     = [LLM; SARVAM].
Proof.
  apply (proj1 (translateText_falls_back_once Samples.down Samples.eighty
                  (Samples.withLLM Samples.llmDown) (lit "Hello world")
                  "hi-IN" None (Some Samples.preferLLM) Samples.fresh
                  eq_refl)
           (Samples.failure "LLM translation failed: timeout")).
  - reflexivity.
  - eexists. reflexivity.
  - reflexivity.
Defined.

Lemma translateText_without_adapter_uses_sarvam_witness :
  Router.translateText Samples.answering Samples.eighty Samples.sarvamOnly
    (lit "Hello world") "hi-IN" None (Some Samples.preferLLM) Samples.fresh
  = Router.translateWithSarvam Samples.answering Samples.eighty
      (lit "Hello world") "hi-IN" "auto" Samples.fresh
  /\ Router.attempts
       (snd (Router.translateText Samples.answering Samples.eighty
               Samples.sarvamOnly (lit "Hello world") "hi-IN" None
               (Some Samples.preferLLM) Samples.fresh))
     = [SARVAM].
Proof.
  apply (translateText_without_adapter_uses_sarvam Samples.answering
           Samples.eighty Samples.sarvamOnly (lit "Hello world") "hi-IN" None
           (Some Samples.preferLLM) Samples.fresh);
    reflexivity.
Defined.

(** C5, as worded, fails: with LLM preferred and no adapter set up, a
    request that the regional backend can serve is translated by it,
    and no error is raised. *)
Lemma translateText_without_adapter_translates :
  Router.translateText Samples.answering Samples.eighty Samples.sarvamOnly
    (lit "Hello world") "hi-IN" None (Some Samples.preferLLM) Samples.fresh
  = (inr Samples.sarvamAnswer,
     {| Router.world := tt; Router.attempts := [SARVAM]; Router.slept := [] |}).
Proof. vm_compute. reflexivity. Qed.

(** ** The job manager *)

Section JobManagerFacts.

Import JobManager.

Local Abbreviation processing := (fun job : ProcessingJob => status job = PROCESSING).

(** The number of processing jobs of a registry. *)
Local Abbreviation count m := (length (filter processing (map_to_list m).*2)).

Lemma activeJobs_count (this : JobManager) :
  activeJobs this = count (jobs this).
Proof. reflexivity. Qed.

Lemma count_insert_fresh (m : gmap string ProcessingJob) k job :
  m !! k = None ->
  count (<[k := job]> m)
  = ((if decide (processing job) then 1 else 0) + count m)%nat.
Proof.
  intros Hk. rewrite (map_to_list_insert m k job Hk).
  rewrite fmap_cons, filter_cons. simpl.
  now destruct (decide (status job = PROCESSING)).
Qed.

Lemma count_delete (m : gmap string ProcessingJob) k old :
  m !! k = Some old ->
  count m
  = ((if decide (processing old) then 1 else 0) + count (delete k m))%nat.
Proof.
  intros Hk. rewrite <- (map_to_list_delete m k old Hk).
  rewrite fmap_cons, filter_cons. simpl.
  now destruct (decide (status old = PROCESSING)).
Qed.

Lemma count_insert (m : gmap string ProcessingJob) k job :
  (count (<[k := job]> m)
   <= (if decide (processing job) then 1 else 0) + count m)%nat.
Proof.
  destruct (m !! k) as [old|] eqn:Hk.
  - rewrite <- insert_delete_eq.
    rewrite count_insert_fresh by apply lookup_delete_eq.
    rewrite (count_delete m k old Hk). lia.
  - rewrite count_insert_fresh by done. lia.
Qed.

Lemma count_insert_idle (m : gmap string ProcessingJob) k job :
  status job <> PROCESSING -> (count (<[k := job]> m) <= count m)%nat.
Proof.
  intros Hidle. pose proof (count_insert m k job) as H.
  destruct (decide (processing job)); [contradiction | lia].
Qed.

Lemma filter_submseteq_mono {A} (P : A -> Prop) `{!forall x, Decision (P x)}
    (l1 l2 : list A) :
  l1 ⊆+ l2 -> filter P l1 ⊆+ filter P l2.
Proof.
  induction 1 as [|x l1 l2 _ IH|x y l|x l1 l2 _ IH|l1 l2 l3 _ IH1 _ IH2].
  - done.
  - rewrite !filter_cons. destruct (decide (P x)); [by constructor | done].
  - rewrite !filter_cons.
    destruct (decide (P x)), (decide (P y)); try done. by constructor.
  - rewrite filter_cons. destruct (decide (P x)); [by constructor | done].
  - by etrans.
Qed.

Lemma count_subseteq (m1 m2 : gmap string ProcessingJob) :
  m1 ⊆ m2 -> (count m1 <= count m2)%nat.
Proof.
  intros Hsub. apply submseteq_length, filter_submseteq_mono.
  apply fmap_submseteq. now apply map_to_list_submseteq.
Qed.

Lemma shutdownJob_idle now job : status (shutdownJob now job) <> PROCESSING.
Proof.
  unfold shutdownJob.
  destruct (bool_decide (status job = PENDING)) eqn:Hp; simpl; [done|].
  destruct (bool_decide (status job = PROCESSING)) eqn:Hq; simpl; [done|].
  now apply bool_decide_eq_false in Hq.
Qed.

Lemma count_shutdown now (m : gmap string ProcessingJob) :
  count (shutdownJob now <$> m) = 0%nat.
Proof.
  rewrite map_to_list_fmap.
  induction (map_to_list m) as [|[k job] l IH]; [done|].
  rewrite !fmap_cons, filter_cons. simpl.
  destruct (decide _) as [H|_]; [|exact IH].
  now apply shutdownJob_idle in H.
Qed.

(** *** How each operation moves the number of processing jobs *)

Lemma createJob_activeJobs uuid now jobData this :
  status' jobData <> Some PROCESSING ->
  (activeJobs (snd (createJob uuid now jobData this)) <= activeJobs this)%nat.
Proof.
  intros Hidle. unfold createJob. cbn [snd].
  rewrite !activeJobs_count. cbn [jobs].
  apply count_insert_idle. cbn [status].
  destruct (status' jobData) as [st|]; simpl; congruence.
Qed.

Lemma updateJob_activeJobs_idle now jobId updates this :
  (exists st, status' updates = Some st /\ st <> PROCESSING) ->
  (activeJobs (snd (updateJob now jobId updates this)) <= activeJobs this)%nat.
Proof.
  intros (st & Hst & Hidle). unfold updateJob.
  destruct (jobs this !! jobId) as [job|]; [|done].
  cbn [snd]. rewrite !activeJobs_count. cbn [jobs].
  apply count_insert_idle. unfold applyUpdates. cbn [status].
  now rewrite Hst.
Qed.

Lemma updateJob_activeJobs now jobId updates this :
  (activeJobs (snd (updateJob now jobId updates this))
   <= S (activeJobs this))%nat.
Proof.
  unfold updateJob.
  destruct (jobs this !! jobId) as [job|]; [|cbn [snd]; lia].
  cbn [snd]. rewrite !activeJobs_count. cbn [jobs].
  pose proof (count_insert (jobs this) jobId (applyUpdates now job updates)).
  destruct (decide _); lia.
Qed.

Lemma updateJob_queue now jobId updates this :
  processingQueue (snd (updateJob now jobId updates this))
  = processingQueue this.
Proof. unfold updateJob. now destruct (jobs this !! jobId). Qed.

Lemma cancelJob_activeJobs now jobId this :
  (activeJobs (snd (cancelJob now jobId this)) <= activeJobs this)%nat.
Proof.
  unfold cancelJob.
  destruct (jobs this !! jobId) as [job|] eqn:Hjob; [|done].
  destruct (_ || _); [|done].
  pose proof (updateJob_activeJobs_idle now jobId cancelled this
                ltac:(by exists FAILED)) as H.
  destruct (updateJob now jobId cancelled this) as [r this1].
  exact H.
Qed.

Lemma processNextJob_activeJobs now this :
  (activeJobs this <= maxConcurrentJobs)%nat ->
  (activeJobs (snd (processNextJob now this)) <= maxConcurrentJobs)%nat.
Proof.
  intros Hinv. unfold processNextJob.
  destruct (bool_decide (maxConcurrentJobs <= activeJobs this)%nat) eqn:Hfull;
    [done|].
  apply bool_decide_eq_false in Hfull.
  destruct (processingQueue this) as [|jobId queue']; [done|].
  destruct (String.eqb jobId ""); [done|].
  cbn [jobs].
  destruct (jobs this !! jobId) as [job|]; [|done].
  destruct (bool_decide (status job = PENDING)); [|done].
  cbn [snd].
  pose proof (updateJob_activeJobs now jobId started
                {| jobs := jobs this; processingQueue := queue' |}) as H.
  change (activeJobs {| jobs := jobs this; processingQueue := queue' |})
    with (activeJobs this) in H.
  lia.
Qed.

Lemma cleanupOldJobs_activeJobs now this :
  (activeJobs (cleanupOldJobs now this) <= activeJobs this)%nat.
Proof.
  rewrite !activeJobs_count. unfold cleanupOldJobs. cbn [jobs].
  apply count_subseteq, map_filter_subseteq.
Qed.

Lemma shutdown_activeJobs now this : activeJobs (shutdown now this) = 0%nat.
Proof.
  rewrite activeJobs_count. unfold shutdown. cbn [jobs].
  apply count_shutdown.
Qed.

(** *** The queue *)

Lemma removeFirst_sublist x (queue : list string) :
  removeFirst x queue `sublist_of` queue.
Proof.
  induction queue as [|y queue IH]; simpl; [done|].
  destruct (String.eqb y x); [by constructor | by constructor].
Qed.

Lemma cancelJob_queue now jobId this :
  processingQueue (snd (cancelJob now jobId this))
    `sublist_of` processingQueue this.
Proof.
  unfold cancelJob.
  destruct (jobs this !! jobId) as [job|]; [|done].
  destruct (_ || _); [|done].
  pose proof (updateJob_queue now jobId cancelled this) as H.
  destruct (updateJob now jobId cancelled this) as [r this1].
  cbn [snd processingQueue] in *. rewrite H. apply removeFirst_sublist.
Qed.

(** A job is started from the head of the queue only; whether or not
    one is started, the rest of the queue keeps its order. *)
Lemma processNextJob_queue now this :
  option_list (fst (processNextJob now this))
    ++ processingQueue (snd (processNextJob now this))
    `sublist_of` processingQueue this.
Proof.
  unfold processNextJob.
  destruct (bool_decide _); [done|].
  destruct this as [registry [|jobId queue']]; cbn [processingQueue jobs];
    [done|].
  destruct (String.eqb jobId ""); [by constructor|].
  destruct (registry !! jobId) as [job|]; [|by constructor].
  destruct (bool_decide (status job = PENDING)); [|by constructor].
  cbn [fst snd option_list]. rewrite updateJob_queue. done.
Qed.

Lemma processNextJob_starts_head now this jobId :
  fst (processNextJob now this) = Some jobId ->
  (activeJobs this < maxConcurrentJobs)%nat
  /\ processingQueue this
     = jobId :: processingQueue (snd (processNextJob now this))
  /\ (exists job, jobs this !! jobId = Some job /\ status job = PENDING)
  /\ (status <$> (jobs (snd (processNextJob now this)) !! jobId))
     = Some PROCESSING.
Proof.
  unfold processNextJob.
  destruct (bool_decide (maxConcurrentJobs <= activeJobs this)%nat) eqn:Hfull;
    [discriminate|].
  apply bool_decide_eq_false in Hfull.
  destruct this as [registry [|head queue']]; cbn [processingQueue jobs];
    [discriminate|].
  destruct (String.eqb head ""); [discriminate|].
  destruct (registry !! head) as [job|] eqn:Hjob; [|discriminate].
  destruct (bool_decide (status job = PENDING)) eqn:Hp; [|discriminate].
  apply bool_decide_eq_true in Hp.
  cbn [fst snd]. intros [= <-].
  rewrite updateJob_queue. cbn [processingQueue].
  repeat split; [lia | by exists job |].
  unfold updateJob. cbn [jobs]. rewrite Hjob. cbn [snd jobs].
  now rewrite lookup_insert_eq.
Qed.

(** *** Runs *)

Lemma step_gated (o : Observed) (op : Op) :
  createsIdle op = true -> gated o -> gated (step o op).
Proof.
  intros Hidle [Hcount Hfifo].
  destruct op as [uuid now jobData | now | now jobId | now | now];
    unfold step.
  - pose proof (createJob_activeJobs uuid now jobData (manager o)) as H.
    simpl in Hidle. apply negb_true_iff, bool_decide_eq_false in Hidle.
    specialize (H Hidle).
    unfold createJob in *. unfold gated.
    cbn [snd manager submitted admitted processingQueue id] in *.
    split; [lia|].
    rewrite app_assoc. now apply sublist_app.
  - pose proof (processNextJob_activeJobs now (manager o) Hcount) as H.
    pose proof (processNextJob_queue now (manager o)) as Hq.
    destruct (processNextJob now (manager o)) as [startedId m].
    unfold gated. cbn [fst snd manager submitted admitted] in *.
    split; [exact H|].
    rewrite <- app_assoc. etrans; [|exact Hfifo].
    now apply sublist_app.
  - pose proof (cancelJob_activeJobs now jobId (manager o)) as H.
    pose proof (cancelJob_queue now jobId (manager o)) as Hq.
    unfold gated. cbn [manager submitted admitted].
    split; [lia|]. etrans; [|exact Hfifo]. now apply sublist_app.
  - pose proof (cleanupOldJobs_activeJobs now (manager o)) as H.
    unfold gated. cbn [manager submitted admitted].
    split; [lia | exact Hfifo].
  - unfold gated. cbn [manager submitted admitted]. split; [|exact Hfifo].
    rewrite shutdown_activeJobs. unfold maxConcurrentJobs. lia.
Qed.

Lemma steps_gated (ops : list Op) :
  forall o, forallb createsIdle ops = true -> gated o ->
            gated (fold_left step ops o).
Proof.
  induction ops as [|op ops IH]; intros o Hidle Hinv; simpl; [exact Hinv|].
  simpl in Hidle. apply andb_true_iff in Hidle as [Hop Hops].
  apply IH; [exact Hops|]. now apply step_gated.
Qed.

(** C7, as it holds.  From the empty manager, after any sequence of
    createJob, processNextJob, cancelJob, cleanupOldJobs and shutdown
    in which no createJob is handed a job already marked as
    processing, at most [maxConcurrentJobs] = 5 jobs are processing;
    the jobs started by processNextJob, followed by the ids still
    queued, appear in that order among the submissions; and a further
    processNextJob starts no job but the pending job at the head of
    the queue: jobs are started first come, first served.  (Every
    prefix of such a sequence is such a sequence, so this holds at
    every point of a run.) *)
Theorem run_respects_gate_and_order (ops : list Op) :
  forallb createsIdle ops = true ->
  (activeJobs (manager (run ops)) <= maxConcurrentJobs)%nat
  /\ admitted (run ops) ++ processingQueue (manager (run ops))
       `sublist_of` submitted (run ops)
  /\ (forall now jobId,
        fst (processNextJob now (manager (run ops))) = Some jobId ->
        processingQueue (manager (run ops))
        = jobId :: processingQueue
                     (snd (processNextJob now (manager (run ops))))
        /\ exists job, jobs (manager (run ops)) !! jobId = Some job
                       /\ status job = PENDING).
Proof.
  intros Hidle.
  destruct (steps_gated ops initial Hidle) as [Hcount Hfifo].
  { split; [vm_compute; lia | done]. }
  split; [exact Hcount|]. split; [exact Hfifo|].
  intros now jobId Hstart.
  destruct (processNextJob_starts_head now _ jobId Hstart)
    as (_ & Hqueue & Hjob & _).
  now split.
Qed.

Lemma removeFirst_clears x (queue : list string) :
  (count_occ String.string_dec queue x <= 1)%nat ->
  ~ In x (removeFirst x queue).
Proof.
  induction queue as [|y queue IH]; simpl; [tauto|].
  destruct (String.eqb_spec y x) as [-> | Hne].
  - destruct (String.string_dec x x) as [_|]; [|congruence].
    intros Hcount. apply (count_occ_not_In String.string_dec). lia.
  - destruct (String.string_dec y x) as [|_]; [congruence|].
    intros Hcount [Heq | Hin]; [congruence | now apply IH].
Qed.

(** C6, as it holds.  For a job of the registry that is pending or
    processing, cancelJob returns true, records the job as failed
    with the message "Job cancelled by user", and takes the first
    entry of its id out of the processing queue, after which the id
    is no longer queued if it was queued at most once; for a
    completed job it returns false and changes nothing. *)
Theorem cancelJob_cancels_or_refuses (now : Z) (jobId : string)
    (this : JobManager) (job : ProcessingJob) :
  jobs this !! jobId = Some job ->
  (status job = PENDING \/ status job = PROCESSING ->
     fst (cancelJob now jobId this) = true
     /\ jobs (snd (cancelJob now jobId this))
        = <[jobId := applyUpdates now job cancelled]> (jobs this)
     /\ status (applyUpdates now job cancelled) = FAILED
     /\ error (applyUpdates now job cancelled)
        = Some "Job cancelled by user"%string
     /\ processingQueue (snd (cancelJob now jobId this))
        = removeFirst jobId (processingQueue this)
     /\ ((count_occ String.string_dec (processingQueue this) jobId <= 1)%nat ->
         ~ In jobId (processingQueue (snd (cancelJob now jobId this)))))
  /\ (status job = COMPLETED -> cancelJob now jobId this = (false, this)).
Proof.
  intros Hjob. unfold cancelJob, updateJob. rewrite Hjob. split.
  - intros Hactive.
    assert (Hor : bool_decide (status job = PENDING)
                  || bool_decide (status job = PROCESSING) = true).
    { destruct Hactive as [H | H]; rewrite H; reflexivity. }
    rewrite Hor. cbn [fst snd jobs processingQueue].
    repeat split. apply removeFirst_clears.
  - intros Hdone. rewrite Hdone. reflexivity.
Qed.

End JobManagerFacts.

Lemma run_respects_gate_and_order_witness :
  (JobManager.activeJobs (JobManager.manager (JobManager.run Samples.burst))
   <= JobManager.maxConcurrentJobs)%nat
  /\ JobManager.admitted (JobManager.run Samples.burst)
       ++ JobManager.processingQueue
            (JobManager.manager (JobManager.run Samples.burst))
       `sublist_of` JobManager.submitted (JobManager.run Samples.burst).
Proof.
  pose proof (run_respects_gate_and_order Samples.burst eq_refl)
    as (Hcount & Hfifo & _).
  split; [exact Hcount | exact Hfifo].
Defined.

(** C7, as worded, fails: createJob lets the caller's data decide the
    status, so six jobs submitted as processing are six processing
    jobs. *)
Lemma createJob_bypasses_gate :
  ~ (JobManager.activeJobs
       (JobManager.manager (JobManager.run Samples.sixProcessing))
     <= JobManager.maxConcurrentJobs)%nat.
Proof. vm_compute. lia. Qed.

Lemma cancelJob_cancels_or_refuses_witness :
  fst (JobManager.cancelJob 2 "x" Samples.submittedOnce) = true
  /\ JobManager.jobs (snd (JobManager.cancelJob 2 "x" Samples.submittedOnce))
     = <["x"%string :=
          JobManager.applyUpdates 2 Samples.pendingX JobManager.cancelled]>
         (JobManager.jobs Samples.submittedOnce)
  /\ JobManager.status
       (JobManager.applyUpdates 2 Samples.pendingX JobManager.cancelled)
     = FAILED
  /\ JobManager.error
       (JobManager.applyUpdates 2 Samples.pendingX JobManager.cancelled)
     = Some "Job cancelled by user"%string
  /\ JobManager.processingQueue
       (snd (JobManager.cancelJob 2 "x" Samples.submittedOnce))
     = JobManager.removeFirst "x"
         (JobManager.processingQueue Samples.submittedOnce)
  /\ ((count_occ String.string_dec
         (JobManager.processingQueue Samples.submittedOnce) "x" <= 1)%nat ->
      ~ In "x"%string
          (JobManager.processingQueue
             (snd (JobManager.cancelJob 2 "x" Samples.submittedOnce)))).
Proof.
  apply (proj1 (cancelJob_cancels_or_refuses 2 "x" Samples.submittedOnce
                  Samples.pendingX eq_refl)).
  left. reflexivity.
Defined.

(** C6, as worded, fails: an id submitted twice is queued twice, and
    cancelling the pending job takes out the first entry only. *)
Lemma cancelJob_keeps_second_entry :
  (JobManager.status <$> JobManager.jobs Samples.submittedTwice !! "x"%string)
  = Some PENDING
  /\ fst (JobManager.cancelJob 2 "x" Samples.submittedTwice) = true
  /\ In "x"%string
       (JobManager.processingQueue
          (snd (JobManager.cancelJob 2 "x" Samples.submittedTwice))).
Proof. vm_compute. repeat split. now left. Qed.

(** ** Quality heuristics *)

Section QualityFacts.

Import Quality.

Lemma strictEq_refl (a : text) : strictEq a a = true.
Proof.
  induction a as [|x a IH]; simpl; [reflexivity|].
  now rewrite Ascii.eqb_refl, IH.
Qed.

(** The threshold of [isLowAccuracy], on the field that it reads. *)
Lemma isLowAccuracy_threshold (r : TranslationResult) :
  isLowAccuracy r = true <-> (translationAccuracy r < 70)%Q.
Proof.
  unfold isLowAccuracy, lt. rewrite negb_true_iff.
  split.
  - intros H. apply Qnot_le_lt. intros Hle.
    apply Qle_bool_iff in Hle. congruence.
  - intros H. destruct (Qle_bool 70 (translationAccuracy r)) eqn:E;
      [|reflexivity].
    apply Qle_bool_iff in E. now apply Qlt_not_le in H.
Qed.

Example isLowAccuracy_sixtyFive : isLowAccuracy Samples.sixtyFive = true.
Proof. reflexivity. Qed.

(** C9. For a text that is not empty (the services refuse an empty or
    blank text before any score is computed), the similarity of the
    text with itself is forced to 30. *)
Theorem calculateSemanticSimilarity_identical (x : text) :
  x <> [] ->
  calculateSemanticSimilarity x x = 30%Q.
Proof.
  intros Hx. unfold calculateSemanticSimilarity.
  destruct x as [|c x]; [congruence|].
  cbn [Js.falsy orb]. rewrite strictEq_refl. reflexivity.
Qed.

End QualityFacts.

Section ProducedResults.

Import Router.

Context {World : Type}.
Variable makeTranslationRequest :
  SarvamTranslateRequest -> World ->
  (Retry.JsError + SarvamTranslateResponse) * World.
Variable calculateQualityMetrics :
  text -> text -> string -> string -> Metrics.TranslationQualityMetrics.

Lemma sarvamLoop_accuracy (remaining : nat) :
  forall attempt request t targetLanguage sourceLanguage lastError
         (st st' : St World) r,
    sarvamLoop makeTranslationRequest calculateQualityMetrics remaining
      attempt request t targetLanguage sourceLanguage lastError st
    = (inr r, st') ->
    translationAccuracy r = Metrics.overallAccuracy (qualityMetrics r).
Proof.
  induction remaining as [|remaining IH]; intros until r; simpl.
  - unfold throw. discriminate.
  - unfold tryCatch, bind, inWorld, ret.
    destruct (makeTranslationRequest request (world st)) as [[e | response] w].
    + destruct (attempt <? maxRetries); simpl; apply IH.
    + intros [= <- _]. reflexivity.
Qed.

(** The accuracy carried by a result of the regional backend is the
    overall accuracy of its quality metrics. *)
Lemma translateWithSarvam_accuracy t targetLanguage sourceLanguage
    (st st' : St World) r :
  translateWithSarvam makeTranslationRequest calculateQualityMetrics
    t targetLanguage sourceLanguage st = (inr r, st') ->
  translationAccuracy r = Metrics.overallAccuracy (qualityMetrics r).
Proof.
  unfold translateWithSarvam, bind, enter, throw. cbv beta iota.
  destruct (2000 <? Js.len t); [discriminate|].
  destruct (validateLanguageCode targetLanguage); [|discriminate].
  apply sarvamLoop_accuracy.
Qed.

(** C8, as it holds.  [isLowAccuracy] holds of a result exactly when
    the accuracy that the result itself carries, its field
    [translationAccuracy], is below 70.  A result that the Sarvam path
    returns carries the overall accuracy of its quality metrics in that
    field, so of such a result [isLowAccuracy] holds exactly when the
    overall accuracy is below 70. *)
Theorem isLowAccuracy_below_70 (r : TranslationResult) :
  (Quality.isLowAccuracy r = true <-> (translationAccuracy r < 70)%Q)
  /\ (forall t targetLanguage sourceLanguage (st st' : St World),
        translateWithSarvam makeTranslationRequest calculateQualityMetrics
          t targetLanguage sourceLanguage st = (inr r, st') ->
        (Quality.isLowAccuracy r = true
         <-> (Metrics.overallAccuracy (qualityMetrics r) < 70)%Q)).
Proof.
  split; [apply isLowAccuracy_threshold|].
  intros t targetLanguage sourceLanguage st st' Hproduced.
  rewrite <- (translateWithSarvam_accuracy _ _ _ _ _ _ Hproduced).
  apply isLowAccuracy_threshold.
Qed.

End ProducedResults.

Lemma isLowAccuracy_below_70_witness :
  Quality.isLowAccuracy Samples.sarvamAnswer = true
  <-> (Metrics.overallAccuracy (qualityMetrics Samples.sarvamAnswer) < 70)%Q.
Proof.
  apply (proj2 (isLowAccuracy_below_70 Samples.answering Samples.eighty
                  Samples.sarvamAnswer)
           (lit "Hello world") "hi-IN"%string "auto"%string Samples.fresh
           {| Router.world := tt; Router.attempts := [SARVAM];
              Router.slept := [] |}).
  vm_compute. reflexivity.
Defined.

(** C8, as worded, fails: a result may carry an accuracy of its own
    that differs from the overall accuracy of its quality metrics, and
    [isLowAccuracy] reads the former.  Here the overall accuracy is 65
    and the result is not flagged. *)
Lemma isLowAccuracy_ignores_overallAccuracy :
  (Metrics.overallAccuracy (qualityMetrics Samples.mismatched) < 70)%Q
  /\ Quality.isLowAccuracy Samples.mismatched = false.
Proof. split; reflexivity. Qed.

Lemma calculateSemanticSimilarity_identical_witness :
  Quality.calculateSemanticSimilarity (lit "Hello world") (lit "Hello world")
  = 30%Q.
Proof.
  apply (calculateSemanticSimilarity_identical (lit "Hello world")).
  discriminate.
Defined.

(** * Further properties *)

(** ** Splitting, beyond the default sizes *)

Section SplittingMore.

Import TextChunking.

Lemma cutPosition_gt (s : text) (maxChunkSize currentPosition : Z) :
  0 < maxChunkSize -> currentPosition < Js.len s ->
  currentPosition < cutPosition s maxChunkSize currentPosition.
Proof.
  intros Hmax Hcur. unfold cutPosition. cbv zeta.
  destruct (2 * currentPosition + maxChunkSize <? _) eqn:H1.
  - apply Z.ltb_lt in H1. lia.
  - destruct (3 * currentPosition + maxChunkSize <? _) eqn:H2.
    + apply Z.ltb_lt in H2. lia.
    + lia.
Qed.

(** Without overlap every round moves the window forward, so the loop
    ends within as many rounds as the text has characters. *)
Lemma splitLoop_returns (s : text) (maxChunkSize overlapSize : Z) :
  0 < maxChunkSize -> overlapSize <= 0 ->
  forall (fuel : nat) (currentPosition : Z) (chunks : list text),
    Z.max 0 (Js.len s - currentPosition) < Z.of_nat fuel ->
    exists result,
      splitLoop fuel s maxChunkSize overlapSize currentPosition chunks
      = Some result.
Proof.
  intros Hmax Hov. induction fuel as [|fuel IH]; intros cur chunks Hfuel.
  - lia.
  - simpl. destruct (cur <? Js.len s) eqn:Hlt; [|eauto].
    apply Z.ltb_lt in Hlt. apply IH.
    pose proof (cutPosition_gt s maxChunkSize cur Hmax Hlt). lia.
Qed.

(** X1. For a positive chunk size and a text longer than it, the call
    returns exactly when the overlap is not positive: with an overlap
    of 0 or less it returns within [text.length + 1] rounds of its
    loop, and with any positive overlap it is still running after
    every number of rounds. *)
Theorem splitIntoChunks_returns_iff_no_overlap (s : text)
    (maxChunkSize overlapSize : Z) :
  0 < maxChunkSize -> maxChunkSize < Js.len s ->
  (overlapSize <= 0 ->
     exists chunks,
       splitIntoChunks (S (length s)) s maxChunkSize overlapSize = Some chunks)
  /\ (0 < overlapSize ->
      forall fuel, splitIntoChunks fuel s maxChunkSize overlapSize = None).
Proof.
  intros Hmax Hlen. unfold splitIntoChunks.
  destruct s as [|c s]; [unfold Js.len in Hlen; simpl in Hlen; lia|].
  cbn [Js.falsy orb].
  destruct (Js.len (c :: s) <=? maxChunkSize) eqn:Hle;
    [apply Z.leb_le in Hle; lia|].
  split.
  - intros Hov. apply splitLoop_returns; try assumption.
    unfold Js.len. lia.
  - intros Hov fuel. apply splitLoop_runs_on; [assumption|].
    unfold Js.len in *. lia.
Qed.

End SplittingMore.

Lemma splitIntoChunks_returns_iff_no_overlap_witness :
  (exists chunks,
      TextChunking.splitIntoChunks (S (length MoreSamples.twoSentences))
        MoreSamples.twoSentences 50 0 = Some chunks)
  /\ (forall fuel,
         TextChunking.splitIntoChunks fuel MoreSamples.twoSentences 50 10
         = None).
Proof.
  split.
  - apply (proj1 (splitIntoChunks_returns_iff_no_overlap
                    MoreSamples.twoSentences 50 0 eq_refl eq_refl)).
    discriminate.
  - apply (proj2 (splitIntoChunks_returns_iff_no_overlap
                    MoreSamples.twoSentences 50 10 eq_refl eq_refl)).
    reflexivity.
Defined.

Section ChunkSize.

Import TextChunking.

Lemma length_trimStart (s : text) : (length (Js.trimStart s) <= length s)%nat.
Proof.
  induction s as [|c s IH]; simpl; [lia|].
  destruct (Js.isWhiteSpace c); simpl; lia.
Qed.

Lemma length_trim (s : text) : (length (Js.trim s) <= length s)%nat.
Proof.
  unfold Js.trim. rewrite length_rev.
  etrans; [apply length_trimStart|].
  rewrite length_rev. apply length_trimStart.
Qed.

Lemma trimStart_app_le (a b : text) :
  (length (Js.trimStart (a ++ b)) <= length (Js.trimStart a) + length b)%nat.
Proof.
  induction a as [|c a IH]; simpl.
  - apply length_trimStart.
  - destruct (Js.isWhiteSpace c); [exact IH|].
    simpl. rewrite length_app. lia.
Qed.

(** What is left of [a ++ d] after trimming is no longer than [a]
    followed by what is left of [d] when its end is trimmed. *)
Lemma length_trim_app (a d : text) :
  (length (Js.trim (a ++ d))
   <= length a + length (Js.trimStart (rev d)))%nat.
Proof.
  unfold Js.trim. rewrite length_rev.
  assert (Hsuffix : exists pre, a ++ d = pre ++ Js.trimStart (a ++ d)).
  { generalize (a ++ d). intros l. induction l as [|c l [pre IH]]; simpl.
    - now exists [].
    - destruct (Js.isWhiteSpace c).
      + exists (c :: pre). simpl. now f_equal.
      + now exists []. }
  destruct Hsuffix as [pre Hpre].
  assert (Hmono : forall x y : text,
             (length (Js.trimStart x) <= length (Js.trimStart (x ++ y)))%nat).
  { intros x y. induction x as [|c x IH]; simpl; [lia|].
    destruct (Js.isWhiteSpace c); [exact IH|]. simpl. rewrite length_app. lia. }
  etrans; [apply (Hmono _ (rev pre))|].
  rewrite <- rev_app_distr, <- Hpre, rev_app_distr.
  etrans; [apply trimStart_app_le|]. rewrite length_rev. lia.
Qed.

Lemma lastIndexFrom_hit (s d : text) (i : nat) :
  0 <= Js.lastIndexFrom s d i ->
  Js.startsWith d (drop (Z.to_nat (Js.lastIndexFrom s d i)) s) = true.
Proof.
  induction i as [|i IH]; simpl.
  - destruct (Js.startsWith d (drop 0 s)) eqn:E; [intros _; exact E | lia].
  - destruct (Js.startsWith d (drop (S i) s)) eqn:E; [|exact IH].
    intros _. now rewrite Nat2Z.id.
Qed.

Lemma lastIndexOf_hit (s d : text) (fromIndex : Z) :
  0 <= Js.lastIndexOf s d fromIndex ->
  Js.startsWith d (drop (Z.to_nat (Js.lastIndexOf s d fromIndex)) s) = true.
Proof.
  unfold Js.lastIndexOf. destruct (Js.len s <? Js.len d); [lia|].
  apply lastIndexFrom_hit.
Qed.

Lemma startsWith_take (d x : text) :
  Js.startsWith d x = true -> take (length d) x = d.
Proof.
  revert x. induction d as [|c d IH]; intros [|y x]; simpl; try done.
  intros H. apply andb_true_iff in H as [Hc Hd].
  apply Ascii.eqb_eq in Hc. subst. f_equal. now apply IH.
Qed.

(** Where [findLastOccurrence] lands: on the start position, or right
    behind a delimiter that begins after the start and not after the
    end position. *)
Lemma findLastOccurrence_lands (s : text) (delimiters : list text)
    (startPosition endPosition : Z) :
  0 <= startPosition ->
  forall lastPosition,
    startPosition <= lastPosition ->
    let r := fold_left
               (fun lastPosition delimiter =>
                  let position := Js.lastIndexOf s delimiter endPosition in
                  if (lastPosition <? position) && (position <=? endPosition)
                  then position + Js.len delimiter
                  else lastPosition)
               delimiters lastPosition in
    r = lastPosition
    \/ exists d p,
         In d delimiters /\ startPosition < p <= endPosition
         /\ Js.startsWith d (drop (Z.to_nat p) s) = true
         /\ p + Js.len d <= Js.len s
         /\ r = p + Js.len d.
Proof.
  intros Hstart.
  induction delimiters as [|d ds IH]; intros lp Hlp; cbv zeta; simpl;
    [now left|].
  set (p := Js.lastIndexOf s d endPosition).
  destruct ((lp <? p) && (p <=? endPosition)) eqn:Hhit.
  - apply andb_true_iff in Hhit as [Hlt Hle].
    apply Z.ltb_lt in Hlt. apply Z.leb_le in Hle.
    assert (Hd : 0 <= Js.len d) by (unfold Js.len; lia).
    specialize (IH (p + Js.len d) ltac:(lia)). cbv zeta in IH.
    assert (Hroom : p + Js.len d <= Js.len s).
    { destruct (lastIndexOf_room s d endPosition) as [Hnone | Hroom];
        fold p in Hnone || fold p in Hroom; lia. }
    destruct IH as [Heq | (d' & p' & Hin & Hp & Hs & Hr & Heq)]; rewrite Heq.
    + right. exists d, p. repeat split; try lia; [now left|].
      apply lastIndexOf_hit. fold p. lia.
    + right. exists d', p'. repeat split; try lia; [now right | exact Hs].
  - specialize (IH lp Hlp). cbv zeta in IH.
    destruct IH as [Heq | (d' & p' & Hin & Hp & Hs & Hr & Heq)]; rewrite Heq;
      [now left|].
    right. exists d', p'. repeat split; try lia; [now right | exact Hs].
Qed.

Lemma take_plus {A} (n m : nat) (l : list A) :
  take (n + m) l = take n l ++ take m (drop n l).
Proof.
  revert l. induction n as [|n IH]; intros [|x l]; simpl; try done.
  - now rewrite take_nil.
  - now rewrite IH.
Qed.

Lemma length_substring (s : text) (a b : Z) :
  0 <= a <= b -> Z.of_nat (length (Js.substring s a b)) <= b - a.
Proof.
  intros Hab. unfold Js.substring, Js.len.
  rewrite length_take. lia.
Qed.

(** A cut right behind a delimiter: the chunk is the text up to the
    delimiter, and the delimiter. *)
Lemma substring_behind (s d : text) (a p : Z) :
  0 <= a <= p -> p + Js.len d <= Js.len s ->
  Js.startsWith d (drop (Z.to_nat p) s) = true ->
  exists before,
    Js.substring s a (p + Js.len d) = before ++ d
    /\ Z.of_nat (length before) <= p - a.
Proof.
  intros Hap Hroom Hd.
  pose proof (startsWith_take _ _ Hd) as Htake.
  unfold Js.substring, Js.len in *.
  replace (Z.min (Z.min (Z.max a 0) (Z.of_nat (length s)))
             (Z.min (Z.max (p + Z.of_nat (length d)) 0) (Z.of_nat (length s))))
    with a by lia.
  replace (Z.max (Z.min (Z.max a 0) (Z.of_nat (length s)))
             (Z.min (Z.max (p + Z.of_nat (length d)) 0) (Z.of_nat (length s))))
    with (p + Z.of_nat (length d)) by lia.
  replace (Z.to_nat (p + Z.of_nat (length d) - a))
    with ((Z.to_nat p - Z.to_nat a) + length d)%nat by lia.
  rewrite take_plus, drop_drop.
  replace (Z.to_nat a + (Z.to_nat p - Z.to_nat a))%nat with (Z.to_nat p) by lia.
  rewrite Htake.
  eexists. split; [reflexivity|]. rewrite length_take. lia.
Qed.

(** Every delimiter ends in white space, and at most one of its
    characters is not white space at its end. *)
Lemma delimiters_trimmed :
  Forall (fun d => (length (Js.trimStart (rev d)) <= 1)%nat)
    (paragraphDelimiters ++ sentenceDelimiters).
Proof. repeat constructor. Qed.

Lemma chunk_size (s : text) (maxChunkSize currentPosition : Z) :
  0 <= maxChunkSize -> 0 <= currentPosition ->
  Js.len (Js.trim (Js.substring s currentPosition
                     (cutPosition s maxChunkSize currentPosition)))
  <= maxChunkSize + 1.
Proof.
  intros Hmax Hcur.
  assert (Hbehind : forall ds,
            incl ds (paragraphDelimiters ++ sentenceDelimiters) ->
            currentPosition
            < findLastOccurrence s ds currentPosition
                (Z.min (currentPosition + maxChunkSize) (Js.len s)) ->
            Js.len (Js.trim (Js.substring s currentPosition
                      (findLastOccurrence s ds currentPosition
                         (Z.min (currentPosition + maxChunkSize) (Js.len s)))))
            <= maxChunkSize + 1).
  { intros ds Hds Hlt.
    pose proof (findLastOccurrence_lands s ds currentPosition
                  (Z.min (currentPosition + maxChunkSize) (Js.len s))
                  Hcur currentPosition ltac:(lia)) as Hlands.
    cbv zeta in Hlands. unfold findLastOccurrence in *.
    destruct Hlands as [Hsame | (d & p & Hin & Hp & Hs & Hroom & Heq)];
      [rewrite Hsame in Hlt; lia|].
    rewrite Heq.
    destruct (substring_behind s d currentPosition p ltac:(lia) Hroom Hs)
      as (before & Hsub & Hbefore).
    rewrite Hsub. unfold Js.len.
    pose proof (length_trim_app before d) as Htrim.
    pose proof (proj1 (List.Forall_forall _ _) delimiters_trimmed d (Hds d Hin))
      as Hd.
    cbv beta in Hd. lia. }
  unfold cutPosition. cbv zeta.
  destruct (2 * currentPosition + maxChunkSize <? _) eqn:H1.
  - apply Z.ltb_lt in H1.
    apply (Hbehind paragraphDelimiters); [|lia].
    intros d Hd. apply in_or_app. now left.
  - destruct (3 * currentPosition + maxChunkSize <? _) eqn:H2.
    + apply Z.ltb_lt in H2.
      apply (Hbehind sentenceDelimiters); [|lia].
      intros d Hd. apply in_or_app. now right.
    + unfold Js.len at 1.
      pose proof (length_trim (Js.substring s currentPosition
                    (Z.min (currentPosition + maxChunkSize) (Js.len s)))).
      destruct (Z_le_gt_dec currentPosition (Js.len s)) as [Hin | Hout].
      * pose proof (length_substring s currentPosition
                      (Z.min (currentPosition + maxChunkSize) (Js.len s))
                      ltac:(lia)).
        lia.
      * assert (Hnil : Js.substring s currentPosition
                         (Z.min (currentPosition + maxChunkSize) (Js.len s)) = []).
        { unfold Js.substring.
          replace (Z.max _ _ - Z.min _ _) with 0; [reflexivity|].
          unfold Js.len in *. lia. }
        rewrite Hnil in *. simpl in *. lia.
Qed.

Lemma splitLoop_chunk_sizes (s : text) (maxChunkSize overlapSize : Z) :
  0 <= maxChunkSize ->
  forall (fuel : nat) (currentPosition : Z) (chunks result : list text),
    0 <= currentPosition ->
    Forall (fun chunk => Js.len chunk <= maxChunkSize + 1) chunks ->
    splitLoop fuel s maxChunkSize overlapSize currentPosition chunks
    = Some result ->
    Forall (fun chunk => Js.len chunk <= maxChunkSize + 1) result.
Proof.
  intros Hmax. induction fuel as [|fuel IH];
    intros cur chunks result Hcur Hchunks; simpl; [discriminate|].
  destruct (cur <? Js.len s); [|now intros [= <-]].
  apply IH; [lia|].
  apply Forall_app. split; [exact Hchunks|].
  constructor; [|constructor]. now apply chunk_size.
Qed.

(** X3. For a chunk size that is not negative, no chunk of a returned
    list has more than [maxChunkSize + 1] characters: a cut behind a
    sentence end keeps the punctuation mark, which may sit one
    position past the window. *)
Theorem splitIntoChunks_chunk_sizes (fuel : nat) (s : text)
    (maxChunkSize overlapSize : Z) (chunks : list text) :
  0 <= maxChunkSize ->
  splitIntoChunks fuel s maxChunkSize overlapSize = Some chunks ->
  Forall (fun chunk => Js.len chunk <= maxChunkSize + 1) chunks.
Proof.
  intros Hmax. unfold splitIntoChunks.
  destruct (Js.falsy s || (Js.len s <=? maxChunkSize)) eqn:Hshort.
  - intros [= <-]. constructor; [|constructor].
    apply orb_true_iff in Hshort as [Hempty | Hle].
    + destruct s; [unfold Js.len; simpl; lia | discriminate].
    + apply Z.leb_le in Hle. lia.
  - apply splitLoop_chunk_sizes; [exact Hmax | lia | constructor].
Qed.

End ChunkSize.

Lemma splitIntoChunks_chunk_sizes_witness :
  TextChunking.splitIntoChunks 5 MoreSamples.twoSentences 40 0
  = Some MoreSamples.twoSentencesChunks
  /\ map Js.len MoreSamples.twoSentencesChunks = [41; 40]
  /\ Forall (fun chunk => Js.len chunk <= 40 + 1)
       MoreSamples.twoSentencesChunks.
Proof.
  assert (H : TextChunking.splitIntoChunks 5 MoreSamples.twoSentences 40 0
              = Some MoreSamples.twoSentencesChunks)
    by (vm_compute; reflexivity).
  split; [exact H|]. split; [reflexivity|].
  apply (splitIntoChunks_chunk_sizes 5 MoreSamples.twoSentences 40 0
           MoreSamples.twoSentencesChunks); [discriminate | exact H].
Defined.

Section AdapterChunks.

Import Adapter.

(** X2. The adapter cannot switch the overlap off: an overlap of 0,
    like a missing one, is replaced by 200.  So whenever the overlap
    asked for is not negative, a text that is not empty and is longer
    than the chunk size in force is never chunked: the splitting that
    [translateText] of the adapter starts with is still running after
    every number of rounds. *)
Theorem chunksOf_never_returns (fuel : nat) (t : text)
    (options : option LLMTranslationAdapterOptions) :
  (forall o, options ≫= chunkOverlap = Some o -> 0 <= o) ->
  t <> [] ->
  effectiveMaxChunkSize options < Js.len t ->
  0 < effectiveOverlap options /\ chunksOf fuel t options = None.
Proof.
  intros Hov Ht Hlen.
  assert (Hpos : 0 < effectiveOverlap options).
  { unfold effectiveOverlap, orNumber.
    destruct (options ≫= chunkOverlap) as [o|] eqn:Ho; [|lia].
    specialize (Hov o eq_refl).
    destruct (o =? 0) eqn:Hz; [lia|]. apply Z.eqb_neq in Hz. lia. }
  split; [exact Hpos|].
  unfold chunksOf, TextChunking.splitIntoChunks.
  destruct t as [|c t]; [congruence|]. cbn [Js.falsy orb].
  destruct (Js.len (c :: t) <=? effectiveMaxChunkSize options) eqn:Hle;
    [apply Z.leb_le in Hle; lia|].
  apply splitLoop_runs_on; [exact Hpos|]. unfold Js.len. simpl length. lia.
Qed.

End AdapterChunks.

Lemma chunksOf_never_returns_witness :
  0 < Adapter.effectiveOverlap (Some MoreSamples.overlapOff)
  /\ forall fuel,
       Adapter.chunksOf fuel (Samples.letters 101)
         (Some MoreSamples.overlapOff) = None.
Proof.
  split; [reflexivity|]. intros fuel.
  apply (chunksOf_never_returns fuel (Samples.letters 101)
           (Some MoreSamples.overlapOff)).
  - intros o [= <-]. reflexivity.
  - discriminate.
  - reflexivity.
Defined.


(** ** Merging, in general *)

Section MergingMore.

Import Merge.

Lemma countMatches_range (a b : text) :
  0 <= countMatches a b <= Z.min (Js.len a) (Js.len b).
Proof.
  unfold Js.len. revert b.
  induction a as [|x a IH]; intros [|y b]; simpl; try lia.
  specialize (IH b). destruct (Ascii.eqb x y); lia.
Qed.

Lemma countMatches_comm (a b : text) : countMatches a b = countMatches b a.
Proof.
  revert b. induction a as [|x a IH]; intros [|y b]; simpl; try reflexivity.
  rewrite IH. now rewrite (Ascii.eqb_sym x y).
Qed.

Lemma countMatches_same (a : text) : countMatches a a = Js.len a.
Proof.
  unfold Js.len. induction a as [|x a IH]; simpl; [reflexivity|].
  rewrite Ascii.eqb_refl, IH. lia.
Qed.

Lemma lowerChar_idempotent (c : ascii) :
  Js.lowerChar (Js.lowerChar c) = Js.lowerChar c.
Proof. destruct c as [[] [] [] [] [] [] [] []]; reflexivity. Qed.

Lemma toLowerCase_idempotent (a : text) :
  Js.toLowerCase (Js.toLowerCase a) = Js.toLowerCase a.
Proof.
  unfold Js.toLowerCase. rewrite map_map.
  apply map_ext. intros c. apply lowerChar_idempotent.
Qed.

Lemma falsy_toLowerCase (a : text) : Js.falsy (Js.toLowerCase a) = Js.falsy a.
Proof. now destruct a. Qed.

Lemma calculateSimilarity_range (a b : text) :
  (0 <= calculateSimilarity a b <= 1)%Q.
Proof.
  unfold calculateSimilarity.
  destruct (Js.falsy a || Js.falsy b) eqn:Hf; [split; discriminate|].
  apply orb_false_iff in Hf as [Ha Hb].
  set (strA := Js.toLowerCase a). set (strB := Js.toLowerCase b).
  pose proof (countMatches_range strA strB) as [H0 H1].
  assert (Hpos : 0 < Z.min (Js.len strA) (Js.len strB)).
  { unfold strA, strB, Js.len, Js.toLowerCase. rewrite !length_map.
    destruct a, b; try discriminate. simpl length. lia. }
  assert (HposQ : (0 < inject_Z (Z.min (Js.len strA) (Js.len strB)))%Q).
  { change 0%Q with (inject_Z 0). now rewrite <- Zlt_Qlt. }
  split.
  - apply Qle_shift_div_l; [exact HposQ|]. rewrite Qmult_0_l.
    change 0%Q with (inject_Z 0). now rewrite <- Zle_Qle.
  - apply Qle_shift_div_r; [exact HposQ|]. rewrite Qmult_1_l.
    now rewrite <- Zle_Qle.
Qed.

(** X4. The similarity of two strings lies between 0 and 1, does not
    depend on their order nor on the case of their letters, and is 1
    for a string that is not empty against itself. *)
Theorem calculateSimilarity_properties (a b : text) :
  (0 <= calculateSimilarity a b <= 1)%Q
  /\ calculateSimilarity a b = calculateSimilarity b a
  /\ calculateSimilarity (Js.toLowerCase a) b = calculateSimilarity a b
  /\ (a <> [] -> (calculateSimilarity a a == 1)%Q).
Proof.
  split; [apply calculateSimilarity_range|]. split; [|split].
  - unfold calculateSimilarity.
    rewrite (orb_comm (Js.falsy a)), (countMatches_comm (Js.toLowerCase a)),
      (Z.min_comm (Js.len (Js.toLowerCase a))).
    reflexivity.
  - unfold calculateSimilarity.
    now rewrite falsy_toLowerCase, toLowerCase_idempotent.
  - intros Ha. unfold calculateSimilarity.
    destruct a as [|x a]; [congruence|]. cbn [Js.falsy orb].
    rewrite countMatches_same, Z.min_id.
    apply Qmult_inv_r. unfold Js.len. simpl length.
    intros H. unfold Qeq in H. simpl in H. lia.
Qed.

Lemma calculateSimilarity_properties_witness :
  lit "Hello" <> []
  /\ (calculateSimilarity (lit "Hello") (lit "Hello") == 1)%Q.
Proof.
  assert (H : lit "Hello" <> []) by discriminate.
  split; [exact H|].
  apply (proj2 (proj2 (proj2
           (calculateSimilarity_properties (lit "Hello") (lit "Hello")))) H).
Defined.

(** What the loop of [findOverlapSize] gives is 0, or a candidate
    between 10 and the one it started from. *)
Lemma findOverlapLoop_between (first second : text) (t : Q) :
  forall (fuel : nat) (o q : Q),
    findOverlapLoop fuel first second t o = Some q ->
    q = 0%Q \/ (10 <= q <= o)%Q.
Proof.
  induction fuel as [|fuel IH]; intros o q; simpl; [discriminate|].
  destruct (Qle_bool 10 o) eqn:H10; [|intros [= <-]; now left].
  apply Qle_bool_iff in H10.
  destruct (Qle_bool t _).
  - intros [= <-]. right. split; [exact H10 | apply Qle_refl].
  - intros H. destruct (IH _ _ H) as [-> | [Hlo Hhi]]; [now left|].
    right. split; [exact Hlo|].
    eapply Qle_trans; [exact Hhi|].
    rewrite <- (Qplus_0_r o) at 2. unfold Qminus.
    apply Qplus_le_r. discriminate.
Qed.

Lemma toInteger_floor (q : Q) : (0 <= q)%Q -> toInteger q = Qfloor q.
Proof.
  destruct q as [n d]. unfold Qle, toInteger. simpl. intros H.
  apply Z.quot_div_nonneg; lia.
Qed.

Lemma toInteger_le (q : Q) (n : Z) :
  (0 <= q)%Q -> (q <= inject_Z n)%Q -> 0 <= toInteger q <= n.
Proof.
  intros H0 Hn. rewrite toInteger_floor by exact H0.
  split.
  - change 0 with (Qfloor 0). now apply Qfloor_resp_le.
  - rewrite <- (Qfloor_Z n). now apply Qfloor_resp_le.
Qed.

(** The overlap removed is never negative, never more than 200 and
    never more than a third of the shorter string. *)
Lemma findOverlapSize_bound (first second : text) (t q : Q) :
  findOverlapSize first second t = Some q ->
  0 <= toInteger q <= 200
  /\ 3 * toInteger q <= Z.min (Js.len first) (Js.len second).
Proof.
  unfold findOverlapSize. intros H.
  set (m := Z.min (Js.len first) (Js.len second)) in *.
  assert (Hm : 0 <= m) by (unfold m, Js.len; lia).
  destruct (findOverlapLoop_between _ _ _ _ _ _ H) as [-> | [Hlo Hhi]].
  - change (toInteger 0) with 0. lia.
  - assert (H0 : (0 <= q)%Q) by (eapply Qle_trans; [|exact Hlo]; discriminate).
    assert (H200 : (q <= inject_Z 200)%Q)
      by (eapply Qle_trans; [exact Hhi | apply Q.le_min_l]).
    assert (Hthird : (q <= inject_Z m / 3)%Q)
      by (eapply Qle_trans; [exact Hhi | apply Q.le_min_r]).
    split; [now apply toInteger_le|].
    assert (Hfloor : (inject_Z (toInteger q) <= q)%Q).
    { rewrite toInteger_floor by exact H0. apply Qfloor_le. }
    assert (H3 : (inject_Z (toInteger q * 3) <= inject_Z m)%Q).
    { rewrite inject_Z_mult.
      assert (E : (inject_Z m / 3 * 3 == inject_Z m)%Q) by field.
      rewrite <- E. apply Qmult_le_compat_r; [|discriminate].
      eapply Qle_trans; [exact Hfloor | exact Hthird]. }
    rewrite <- Zle_Qle in H3. lia.
Qed.

Lemma mergeSteps_bounds (t : Q) (rest : list text) :
  forall (acc merged : text),
    fold_left (mergeStep t) rest (Some acc) = Some merged ->
    acc `prefix_of` merged
    /\ Js.len merged <= Js.len acc + Js.len (concat rest)
    /\ 3 * Js.len acc + 2 * Js.len (concat rest) <= 3 * Js.len merged.
Proof.
  induction rest as [|chunk rest IH]; intros acc merged; simpl.
  - intros [= <-]. unfold Js.len. simpl. split; [done | lia].
  - destruct (findOverlapSize acc chunk t) as [q|] eqn:Hq.
    + intros H. destruct (IH _ _ H) as (Hpre & Hle & Hge).
      destruct (findOverlapSize_bound _ _ _ _ Hq) as [[Hq0 _] Hq3].
      rewrite substringFrom_drop in Hpre, Hle, Hge by lia.
      unfold Js.len in *.
      rewrite !length_app, ?length_drop in *.
      split; [|lia].
      etrans; [|exact Hpre]. now apply prefix_app_r.
    + intros H. exfalso.
      clear -H. induction rest as [|c rest IH]; simpl in H; [discriminate|].
      now apply IH.
Qed.

(** X5. Merging keeps what it has: the first chunk is the beginning of
    the merged text, every later chunk loses at most a third of its
    characters (and at most 200), and nothing is added; so the merged
    text is no longer than the chunks together and holds the first
    chunk and at least two thirds of the rest. *)
Theorem mergeChunks_bounds (first : text) (rest : list text) (t : Q)
    (merged : text) :
  mergeChunks (first :: rest) t = Some merged ->
  first `prefix_of` merged
  /\ Js.len merged <= Js.len first + Js.len (concat rest)
  /\ 3 * Js.len first + 2 * Js.len (concat rest) <= 3 * Js.len merged.
Proof. apply mergeSteps_bounds. Qed.

Lemma findOverlapLoop_high_threshold (first second : text) (t : Q) :
  (1 < t)%Q ->
  forall (fuel : nat) (o q : Q),
    findOverlapLoop fuel first second t o = Some q -> q = 0%Q.
Proof.
  intros Ht. induction fuel as [|fuel IH]; intros o q; simpl; [discriminate|].
  destruct (Qle_bool 10 o); [|now intros [= <-]].
  destruct (Qle_bool t _) eqn:Hsim; [|apply IH].
  apply Qle_bool_iff in Hsim. exfalso.
  apply (Qlt_not_le _ _ Ht).
  eapply Qle_trans; [exact Hsim | apply calculateSimilarity_range].
Qed.

(** Below 10 the loop stops at once. *)
Lemma findOverlapLoop_below (fuel : nat) (first second : text) (t q : Q) :
  (q < 10)%Q ->
  findOverlapLoop (S fuel) first second t q = Some 0%Q.
Proof.
  intros Hq. cbn [findOverlapLoop].
  destruct (Qle_bool 10 q) eqn:H10; [|reflexivity].
  apply Qle_bool_iff in H10. exfalso.
  apply (Qlt_irrefl q). eapply Qlt_le_trans; eassumption.
Qed.

(** No overlap is found when the threshold is above 1, or when the
    shorter string has fewer than 30 characters. *)
Lemma findOverlapSize_none (first second : text) (t : Q) :
  (1 < t)%Q \/ Z.min (Js.len first) (Js.len second) < 30 ->
  findOverlapSize first second t = Some 0%Q.
Proof.
  intros [Ht | Hshort].
  - destruct (findOverlapSize_total first second t) as [q Hq].
    rewrite Hq. f_equal.
    now apply (findOverlapLoop_high_threshold first second t Ht _ _ _ Hq).
  - unfold findOverlapSize, overlapFuel.
    apply findOverlapLoop_below.
    eapply Qle_lt_trans; [apply Q.le_min_r|].
    apply Qlt_shift_div_r; [reflexivity|].
    change (10 * 3)%Q with (inject_Z 30).
    rewrite <- Zlt_Qlt. exact Hshort.
Qed.

Lemma mergeSteps_plain (t : Q) (rest : list text) :
  (1 < t)%Q \/ Forall (fun chunk => Js.len chunk < 30) rest ->
  forall acc : text,
    fold_left (mergeStep t) rest (Some acc) = Some (acc ++ concat rest).
Proof.
  intros Hcase. induction rest as [|chunk rest IH]; intros acc; simpl.
  - now rewrite app_nil_r.
  - rewrite findOverlapSize_none.
    + change (toInteger 0) with 0.
      rewrite substringFrom_drop by lia. simpl drop.
      rewrite IH; [now rewrite app_assoc|].
      destruct Hcase as [Ht | Hshort]; [now left | right].
      now inversion Hshort.
    + destruct Hcase as [Ht | Hshort]; [now left | right].
      inversion Hshort; subst. lia.
Qed.

(** X6. Chunks of fewer than 30 characters are never taken for an
    overlap, and a threshold above 1 is never met: in both cases the
    merge is the plain concatenation of the chunks. *)
Theorem mergeChunks_plain_concatenation (first : text) (rest : list text)
    (t : Q) :
  (1 < t)%Q \/ Forall (fun chunk => Js.len chunk < 30) rest ->
  mergeChunks (first :: rest) t = Some (first ++ concat rest).
Proof. intros Hcase. now apply mergeSteps_plain. Qed.

End MergingMore.

Lemma mergeChunks_bounds_witness :
  Samples.shouted `prefix_of`
    (Samples.shouted ++ drop 10 Samples.spoken)
  /\ Js.len (Samples.shouted ++ drop 10 Samples.spoken)
     <= Js.len Samples.shouted + Js.len (concat [Samples.spoken])
  /\ 3 * Js.len Samples.shouted + 2 * Js.len (concat [Samples.spoken])
     <= 3 * Js.len (Samples.shouted ++ drop 10 Samples.spoken).
Proof.
  apply (mergeChunks_bounds Samples.shouted [Samples.spoken] (1 # 2)
           (Samples.shouted ++ drop 10 Samples.spoken)).
  vm_compute. reflexivity.
Defined.

Lemma mergeChunks_plain_concatenation_witness :
  Merge.mergeChunks [lit "Hello "; lit "world"] (1 # 2)
  = Some (lit "Hello " ++ concat [lit "world"]).
Proof.
  apply (mergeChunks_plain_concatenation (lit "Hello ") [lit "world"] (1 # 2)).
  right. repeat constructor.
Defined.

(** ** Retrying, in general *)

Section RetryMore.

Import Retry.

Context {T W : Type}.
Variable operation : W -> (JsError + T) * W.

(** The shape of every run of the loop. *)
Lemma attemptLoop_shape (config : RetryOptions) :
  forall (remaining : nat) (attempt : Z) (lastError : option JsError)
         (calls : nat) (slept : list Z) (st : W),
    attempt + Z.of_nat remaining = maxAttempts config + 1 ->
    let r := attemptLoop operation config remaining attempt lastError
               calls slept st in
    exists n : nat,
      (n <= remaining)%nat
      /\ (remaining <> O -> n <> O)
      /\ invocations r = (calls + n)%nat
      /\ delays r
         = slept ++ map (fun k => delayFor config (attempt + Z.of_nat k))
                        (seq 0 (n - 1))
      /\ final r = stateBefore operation n st.
Proof.
  induction remaining as [|remaining IH];
    intros attempt lastError calls slept st Hrem r; subst r.
  - exists O. simpl. rewrite app_nil_r.
    repeat split; try reflexivity; try lia.
  - simpl.
    destruct (operation st) as [[error | value] st'] eqn:Hop.
    + destruct (attempt =? maxAttempts config) eqn:Hlast;
        [|destruct (retryCondition config error) eqn:Hretry]; simpl.
      * exists 1%nat. simpl. rewrite app_nil_r, Hop.
        repeat split; try reflexivity; try lia.
      * apply Z.eqb_neq in Hlast.
        destruct (IH (attempt + 1) (Some error) (S calls)
                    (slept ++ [delayFor config attempt]) st' ltac:(lia))
          as (n & Hn & Hpos & Hinv & Hdel & Hfin).
        destruct n as [|n]; [exfalso; apply Hpos; [lia | reflexivity]|].
        exists (S (S n)). rewrite Hinv, Hdel, Hfin.
        repeat split; try lia.
        -- rewrite <- app_assoc. f_equal.
           replace (S (S n) - 1)%nat with (S n) by lia.
           replace (S n - 1)%nat with n by lia.
           change (seq 0 (S n)) with (0%nat :: seq 1 n).
           rewrite <- seq_shift. cbn [map]. rewrite List.map_map.
           rewrite Z.add_0_r. f_equal.
           apply map_ext. intros k. f_equal. lia.
        -- simpl. now rewrite Hop.
      * exists 1%nat. simpl. rewrite app_nil_r, Hop.
        repeat split; try reflexivity; try lia.
    + exists 1%nat. simpl. rewrite app_nil_r, Hop.
      repeat split; try reflexivity; try lia.
Qed.

(** A value that is returned is the value of the last invocation made;
    the invocations before it failed with errors that the retry
    predicate accepts. *)
Lemma attemptLoop_returns_first_success (config : RetryOptions) :
  forall (remaining : nat) (attempt : Z) (lastError : option JsError)
         (calls : nat) (slept : list Z) (st : W) (v : T),
    let r := attemptLoop operation config remaining attempt lastError
               calls slept st in
    outcome r = Returned v ->
    exists n : nat,
      invocations r = (calls + S n)%nat
      /\ resultOf operation n st = inr v
      /\ (forall k, (k < n)%nat ->
            exists e', resultOf operation k st = inl e'
                       /\ retryCondition config e' = true).
Proof.
  induction remaining as [|remaining IH];
    intros attempt lastError calls slept st v r Hout; subst r.
  - discriminate.
  - simpl in Hout |- *.
    destruct (operation st) as [[error | value] st'] eqn:Hop.
    + destruct (attempt =? maxAttempts config); [discriminate|].
      destruct (retryCondition config error) eqn:Hretry;
        [|discriminate]. simpl in Hout |- *.
      destruct (IH _ _ _ _ _ _ Hout) as (n & Hinv & Hres & Hbefore).
      exists (S n). repeat split.
      * rewrite Hinv. lia.
      * unfold resultOf in *. simpl. now rewrite Hop.
      * intros [|k] Hk.
        -- exists error. unfold resultOf. simpl. now rewrite Hop.
        -- destruct (Hbefore k ltac:(lia)) as (e' & He' & Hr').
           exists e'. unfold resultOf in *. simpl. now rewrite Hop.
    + injection Hout as <-. exists O. unfold resultOf. simpl.
      rewrite Hop. repeat split; [lia | intros; lia].
Qed.

(** [undefined] is thrown only when the loop is never entered. *)
Lemma attemptLoop_throws_undefined (config : RetryOptions) :
  forall (remaining : nat) (attempt : Z) (lastError : option JsError)
         (calls : nat) (slept : list Z) (st : W),
    outcome (attemptLoop operation config remaining attempt lastError
               calls slept st) = Thrown None ->
    lastError = None /\ remaining = O.
Proof.
  induction remaining as [|remaining IH];
    intros attempt lastError calls slept st Hout.
  - simpl in Hout. split; [congruence | reflexivity].
  - exfalso. simpl in Hout.
    destruct (operation st) as [[error | value] st'];
      [|discriminate].
    destruct (attempt =? maxAttempts config); [discriminate|].
    destruct (retryCondition config error); [|discriminate].
    simpl in Hout. apply IH in Hout. destruct Hout as [Hout _].
    discriminate.
Qed.

Lemma delayFor_le (config : RetryOptions) (attempt : Z) :
  delayFor config attempt <= maxDelay config.
Proof. unfold delayFor. lia. Qed.

(** The shape of every call. *)
Lemma executeWithRetry_shape (options : PartialRetryOptions) (st : W) :
  let config := mergeOptions options in
  let r := executeWithRetry operation options st in
  exists n : nat,
    Z.of_nat n <= Z.max 0 (maxAttempts config)
    /\ (0 < maxAttempts config -> n <> O)
    /\ invocations r = n
    /\ delays r
       = map (fun k => delayFor config (Z.of_nat k)) (seq 1 (n - 1))
    /\ final r = stateBefore operation n st.
Proof.
  intros config r. subst r. unfold executeWithRetry. fold config.
  destruct (Z_lt_le_dec (maxAttempts config) 0) as [Hneg | Hnonneg].
  - replace (Z.to_nat (maxAttempts config)) with O by lia.
    exists O. split; [lia|]. split; [intros; lia|]. repeat split.
  - destruct (attemptLoop_shape config (Z.to_nat (maxAttempts config))
                1 None 0 [] st ltac:(lia))
      as (n & Hn & Hpos & Hinv & Hdel & Hfin).
    exists n. repeat split; try assumption; try lia.
    rewrite Hdel. simpl.
    rewrite <- seq_shift, List.map_map. apply map_ext. intros k. f_equal. lia.
Qed.

Lemma delayFor_mono (config : RetryOptions) (k k' : Z) :
  0 <= baseDelay config -> 1 <= backoffFactor config ->
  1 <= k <= k' ->
  delayFor config k <= delayFor config k'.
Proof.
  intros Hbase Hfactor Hk. unfold delayFor.
  apply Z.min_le_compat_r.
  apply Z.mul_le_mono_nonneg_l; [exact Hbase|].
  apply Z.pow_le_mono_r; lia.
Qed.

Lemma delayFor_ge (config : RetryOptions) (k : Z) :
  0 <= baseDelay config -> 1 <= backoffFactor config -> 1 <= k ->
  Z.min (baseDelay config) (maxDelay config) <= delayFor config k.
Proof.
  intros Hbase Hfactor Hk. unfold delayFor.
  apply Z.min_le_compat_r.
  assert (Hpow : 0 < backoffFactor config ^ (k - 1))
    by (apply Z.pow_pos_nonneg; lia).
  nia.
Qed.

(** X7. For options within the range in which the arithmetic of the
    code is exact (whole numbers of at most 2^53, base delay and
    factor at least 1, a cap that a timer takes): the operation is
    invoked at most [maxAttempts] times, and at least once when
    [maxAttempts] is positive; after failure number [k] the engine
    sleeps [min (baseDelay * backoffFactor ^ (k - 1)) maxDelay], so it
    sleeps once less than it invokes; every sleep lies between the
    smaller of [baseDelay] and [maxDelay] and [maxDelay], and the
    sleeps never get shorter; and the operation is left in the state
    after that many invocations. *)
Theorem executeWithRetry_bounds (options : PartialRetryOptions) (st : W)
    (Hexact : RetryConfigs.withinDoubles (mergeOptions options)) :
  let config := mergeOptions options in
  let r := executeWithRetry operation options st in
  (Z.of_nat (invocations r) <= Z.max 0 (maxAttempts config))
  /\ (0 < maxAttempts config -> (1 <= invocations r)%nat)
  /\ delays r
     = map (fun k => delayFor config (Z.of_nat k))
           (seq 1 (invocations r - 1))
  /\ Forall (fun d => Z.min (baseDelay config) (maxDelay config) <= d
                      /\ d <= maxDelay config)
       (delays r)
  /\ (forall i j d d',
        delays r !! i = Some d -> delays r !! j = Some d' ->
        (i <= j)%nat -> d <= d')
  /\ final r = stateBefore operation (invocations r) st.
Proof.
  intros config r.
  destruct Hexact as (Hmax & Hbase & Hfactor & Hproduct & Hcap).
  fold config in Hmax, Hbase, Hfactor, Hproduct, Hcap.
  destruct (executeWithRetry_shape options st)
    as (n & Hn & Hpos & Hinv & Hdel & Hfin).
  fold config r in Hn, Hpos, Hinv, Hdel, Hfin.
  rewrite Hdel, Hfin, Hinv.
  split; [lia|].
  split; [intros Hsome; specialize (Hpos Hsome); lia|].
  split; [reflexivity|].
  split; [|split; [|reflexivity]].
  - apply List.Forall_forall. intros d Hd.
    apply in_map_iff in Hd. destruct Hd as (k & <- & Hk).
    apply in_seq in Hk.
    pose proof (delayFor_ge config (Z.of_nat k) ltac:(lia) Hfactor
                  ltac:(lia)) as Hlow.
    pose proof (delayFor_le config (Z.of_nat k)) as Hhigh.
    lia.
  - intros i j d d' Hi Hj Hij.
    rewrite list_lookup_fmap in Hi, Hj.
    destruct (seq 1 (n - 1) !! i) as [k|] eqn:Hki; [|discriminate].
    destruct (seq 1 (n - 1) !! j) as [k'|] eqn:Hkj; [|discriminate].
    apply lookup_seq in Hki as [-> _]. apply lookup_seq in Hkj as [-> _].
    cbn in Hi, Hj. injection Hi as <-. injection Hj as <-.
    apply delayFor_mono; lia.
Qed.

(** X8. Options that allow no attempt ([maxAttempts] zero or negative)
    make the engine throw [undefined] without invoking the operation
    and without sleeping. *)
Theorem executeWithRetry_no_attempts (options : PartialRetryOptions)
    (st : W) (n : Z) :
  maxAttempts' options = Some n -> n <= 0 ->
  let r := executeWithRetry operation options st in
  outcome r = Thrown None /\ invocations r = O /\ delays r = []
  /\ final r = st.
Proof.
  intros Hoptions Hn r. subst r. unfold executeWithRetry.
  unfold mergeOptions at 2. simpl. rewrite Hoptions. simpl.
  replace (Z.to_nat n) with O by lia. simpl. repeat split.
Qed.

(** X9. For options whose [maxAttempts] is a whole number of at most
    2^53 (the engine counts its attempts in doubles), a call ends in
    one of three ways.  It returns the value of the first invocation
    that succeeds, every invocation before it having failed with an
    error that the retry predicate accepts.  Or it throws the error of
    the last invocation made, which either was attempt number
    [maxAttempts] or failed with an error that the predicate rejects,
    the earlier ones having failed with errors it accepts.  Or, when
    no attempt is allowed, it throws [undefined]. *)
Theorem executeWithRetry_outcome (options : PartialRetryOptions) (st : W)
    (Hwhole : maxAttempts (mergeOptions options) <= 2 ^ 53) :
  let config := mergeOptions options in
  let r := executeWithRetry operation options st in
  let retried (n : nat) :=
    forall k, (k < n)%nat ->
      exists e', resultOf operation k st = inl e'
                 /\ retryCondition config e' = true in
  (exists v n, outcome r = Returned v /\ invocations r = S n
               /\ resultOf operation n st = inr v /\ retried n)
  \/ (exists e n, outcome r = Thrown (Some e) /\ invocations r = S n
                  /\ resultOf operation n st = inl e /\ retried n
                  /\ (Z.of_nat (S n) = maxAttempts config
                      \/ retryCondition config e = false))
  \/ (outcome r = Thrown None /\ invocations r = O
      /\ maxAttempts config <= 0).
Proof.
  intros config r retried. subst r retried.
  unfold executeWithRetry. fold config.
  destruct (Z_le_gt_dec (maxAttempts config) 0) as [Hnone | Hsome].
  - right. right. replace (Z.to_nat (maxAttempts config)) with O by lia.
    simpl. repeat split. assumption.
  - destruct (outcome (attemptLoop operation config
                         (Z.to_nat (maxAttempts config)) 1 None 0 [] st))
      as [v | [e |]] eqn:Hout.
    + left.
      destruct (attemptLoop_returns_first_success config _ _ _ _ _ _ _ Hout)
        as (n & Hinv & Hres & Hbefore).
      exists v, n. repeat split; assumption.
    + right. left.
      destruct (attemptLoop_rethrows_last operation config
                  (Z.to_nat (maxAttempts config)) 1 None 0 [] st e
                  ltac:(lia) Hout)
        as [[_ Hnever] | (n & Hinv & Hres & Hbefore & Hstop)];
        [discriminate|].
      exists e, n. repeat split; try assumption.
      destruct Hstop as [Hstop | Hstop]; [left; lia | now right].
    + exfalso.
      destruct (attemptLoop_throws_undefined config _ _ _ _ _ _ Hout)
        as [_ Hrem]. lia.
Qed.

(** X10. Under the policies of the services the engine sleeps as
    follows, whatever the operation does: for YouTube at most two
    invocations and one sleep of 2000 ms; for transcription at most
    three invocations and sleeps of 1500 and 3000 ms; for translation
    at most three invocations and sleeps of 1000 and 2000 ms. *)
Theorem executeWithRetry_service_policies (st : W) :
  let youtube :=
    executeWithRetry operation RetryConfigs.YOUTUBE_RETRY_CONFIG st in
  let transcription :=
    executeWithRetry operation RetryConfigs.TRANSCRIPTION_RETRY_CONFIG st in
  let translation :=
    executeWithRetry operation RetryConfigs.TRANSLATION_RETRY_CONFIG st in
  ((1 <= invocations youtube <= 2)%nat
   /\ delays youtube = take (invocations youtube - 1) [2000])
  /\ ((1 <= invocations transcription <= 3)%nat
      /\ delays transcription
         = take (invocations transcription - 1) [1500; 3000])
  /\ ((1 <= invocations translation <= 3)%nat
      /\ delays translation
         = take (invocations translation - 1) [1000; 2000]).
Proof.
  cbv zeta. split; [|split].
  - destruct (executeWithRetry_shape RetryConfigs.YOUTUBE_RETRY_CONFIG st)
      as (n & Hn & Hpos & Hinv & Hdel & Hfin).
    rewrite Hinv, Hdel. simpl in Hn, Hpos. specialize (Hpos eq_refl).
    destruct n as [|[|[|n]]]; try lia; try congruence;
      (split; [lia | reflexivity]).
  - destruct (executeWithRetry_shape
                RetryConfigs.TRANSCRIPTION_RETRY_CONFIG st)
      as (n & Hn & Hpos & Hinv & Hdel & Hfin).
    rewrite Hinv, Hdel. simpl in Hn, Hpos. specialize (Hpos eq_refl).
    destruct n as [|[|[|[|n]]]]; try lia; try congruence;
      (split; [lia | reflexivity]).
  - destruct (executeWithRetry_shape
                RetryConfigs.TRANSLATION_RETRY_CONFIG st)
      as (n & Hn & Hpos & Hinv & Hdel & Hfin).
    rewrite Hinv, Hdel. simpl in Hn, Hpos. specialize (Hpos eq_refl).
    destruct n as [|[|[|[|n]]]]; try lia; try congruence;
      (split; [lia | reflexivity]).
Qed.

End RetryMore.

Lemma executeWithRetry_no_attempts_witness :
  Retry.outcome
    (Retry.executeWithRetry RetryConfigs.resetting RetryConfigs.noAttempts
       0%nat) = Retry.Thrown None
  /\ Retry.invocations
       (Retry.executeWithRetry RetryConfigs.resetting
          RetryConfigs.noAttempts 0%nat) = O
  /\ Retry.delays
       (Retry.executeWithRetry RetryConfigs.resetting
          RetryConfigs.noAttempts 0%nat) = []
  /\ Retry.final
       (Retry.executeWithRetry RetryConfigs.resetting
          RetryConfigs.noAttempts 0%nat) = 0%nat.
Proof.
  apply (executeWithRetry_no_attempts RetryConfigs.resetting
           RetryConfigs.noAttempts 0%nat 0); [reflexivity | lia].
Defined.

(** X11. The YouTube and the translation policy are restrictions of
    the default one: an error that either of them retries is retried by
    default as well.  The translation policy never retries an answer
    with status 400, 401, 403 or 422, not even when the error carries a
    network code that the default policy retries. *)
Theorem service_policies_restrict_default (error : Retry.JsError) :
  (RetryConfigs.youtubeRetryCondition error = true ->
   Retry.defaultRetryCondition error = true)
  /\ (RetryConfigs.translationRetryCondition error = true ->
      Retry.defaultRetryCondition error = true)
  /\ (Retry.statusSatisfies error
        (fun st => bool_decide (st ∈ [400; 401; 403; 422])) = true ->
      RetryConfigs.translationRetryCondition error = false).
Proof.
  unfold RetryConfigs.youtubeRetryCondition,
    RetryConfigs.translationRetryCondition, RetryConfigs.networkCode,
    Retry.defaultRetryCondition, Retry.statusSatisfies.
  split; [|split].
  - destruct (Retry.messageIncludes error "private"
              || Retry.messageIncludes error "not found");
      [discriminate|].
    intros ->. reflexivity.
  - destruct (Retry.response error) as [r|].
    + destruct (Retry.status r =? 401) eqn:H401; [discriminate|].
      destruct (Retry.status r =? 403) eqn:H403; [discriminate|].
      destruct (Retry.status r =? 400) eqn:H400; [discriminate|].
      destruct (Retry.status r =? 422) eqn:H422; [discriminate|].
      simpl.
      destruct (Retry.status r =? 429) eqn:H429;
        destruct (500 <=? Retry.status r) eqn:H500; simpl;
        try (intros ->; reflexivity);
        intros _;
        destruct (Retry.codeIs error "ECONNRESET"
                  || Retry.codeIs error "ENOTFOUND"
                  || Retry.codeIs error "ETIMEDOUT");
        try reflexivity;
        destruct (Retry.messageIncludes error "ECONNRESET"
                  || Retry.messageIncludes error "ETIMEDOUT"
                  || Retry.messageIncludes error "ENOTFOUND");
        reflexivity.
    + intros ->. reflexivity.
  - destruct (Retry.response error) as [r|]; [|discriminate].
    intros Hstatus. apply bool_decide_eq_true in Hstatus.
    repeat (apply elem_of_cons in Hstatus as [-> | Hstatus];
            [reflexivity|]).
    now apply elem_of_nil in Hstatus.
Qed.

Lemma service_policies_restrict_default_witness :
  Retry.defaultRetryCondition
    {| Retry.code := Some "ETIMEDOUT"%string; Retry.message := None;
       Retry.response := Some {| Retry.status := 503 |} |} = true
  /\ RetryConfigs.translationRetryCondition
       {| Retry.code := Some "ECONNRESET"%string; Retry.message := None;
          Retry.response := Some {| Retry.status := 401 |} |} = false.
Proof.
  split.
  - apply (proj1 (proj2 (service_policies_restrict_default _))).
    reflexivity.
  - apply (proj2 (proj2 (service_policies_restrict_default _))).
    reflexivity.
Defined.

Lemma executeWithRetry_bounds_witness :
  (1 <= Retry.invocations
          (Retry.executeWithRetry RetryConfigs.resetting
             RetryConfigs.YOUTUBE_RETRY_CONFIG 0%nat))%nat.
Proof.
  assert (Hexact : RetryConfigs.withinDoubles
                     (Retry.mergeOptions RetryConfigs.YOUTUBE_RETRY_CONFIG))
    by (vm_compute; repeat split; discriminate).
  apply (proj1 (proj2 (executeWithRetry_bounds RetryConfigs.resetting
                         RetryConfigs.YOUTUBE_RETRY_CONFIG 0%nat Hexact))).
  reflexivity.
Defined.

Lemma executeWithRetry_outcome_witness :
  exists e,
    Retry.outcome
      (Retry.executeWithRetry RetryConfigs.resetting
         RetryConfigs.YOUTUBE_RETRY_CONFIG 0%nat)
    = Retry.Thrown (Some e).
Proof.
  assert (Hwhole : Retry.maxAttempts
                     (Retry.mergeOptions RetryConfigs.YOUTUBE_RETRY_CONFIG)
                   <= 2 ^ 53)
    by (vm_compute; discriminate).
  destruct (executeWithRetry_outcome RetryConfigs.resetting
              RetryConfigs.YOUTUBE_RETRY_CONFIG 0%nat Hwhole)
    as [(v & n & Hout & _) | [(e & n & Hout & _) | (Hout & _)]].
  - vm_compute in Hout. discriminate.
  - exists e. exact Hout.
  - vm_compute in Hout. discriminate.
Defined.

(** ** Routing: blank and long texts, and a backend that stays down *)

Section RouterMore.

Import Router.

Context {World LLMTranslationAdapterOptions : Type}.
Variable makeTranslationRequest :
  SarvamTranslateRequest -> World ->
  (Retry.JsError + SarvamTranslateResponse) * World.
Variable calculateQualityMetrics :
  text -> text -> string -> string -> Metrics.TranslationQualityMetrics.
Variable this :
  @EnhancedTranslationService World LLMTranslationAdapterOptions.

Local Abbreviation withSarvam :=
  (translateWithSarvam makeTranslationRequest calculateQualityMetrics).
Local Abbreviation translate :=
  (translateText makeTranslationRequest calculateQualityMetrics this).

Lemma trimStart_blank (t : text) :
  forallb Js.isWhiteSpace t = true -> Js.trimStart t = [].
Proof.
  induction t as [|c t IH]; simpl; [reflexivity|].
  destruct (Js.isWhiteSpace c); [exact IH | discriminate].
Qed.

Lemma trim_blank (t : text) :
  forallb Js.isWhiteSpace t = true -> Js.trim t = [].
Proof.
  intros Hblank. unfold Js.trim. now rewrite (trimStart_blank t Hblank).
Qed.

(** X12. A text that is empty or made of white space only is refused
    with 'Input text cannot be empty' whatever the method, the
    languages and the set-up of the service: no translate function is
    entered, no backend is contacted and nothing is slept. *)
Theorem translateText_blank_input (t : text) (targetLanguage : string)
    (sourceLanguage : option string) (options : option TranslationOptions)
    (st : St World) :
  forallb Js.isWhiteSpace t = true ->
  translate t targetLanguage sourceLanguage options st
  = (inl (Error "Input text cannot be empty"), st).
Proof.
  intros Hblank. unfold translateText.
  rewrite (trim_blank t Hblank). rewrite orb_true_r. reflexivity.
Qed.

Lemma translateWithSarvam_too_long (t : text)
    (targetLanguage sourceLanguage : string) (st : St World) :
  2000 < Js.len t ->
  withSarvam t targetLanguage sourceLanguage st
  = (inl RouterSamples.tooLong,
     {| world := world st; attempts := attempts st ++ [SARVAM];
        slept := slept st |}).
Proof.
  intros Hlong. unfold translateWithSarvam, bind, enter, throw.
  cbv beta iota.
  destruct (2000 <? Js.len t) eqn:Hcmp; [reflexivity|].
  apply Z.ltb_ge in Hcmp. lia.
Qed.

(** X13. Without an LLM adapter a text of more than 2000 characters
    that is not blank is never translated: whichever method is
    preferred, the call enters the Sarvam path once and throws its
    length error, without a request to the regional backend and
    without sleeping. *)
Theorem translateText_long_text_without_adapter (t : text)
    (targetLanguage : string) (sourceLanguage : option string)
    (options : option TranslationOptions) (st : St World) :
  llmAdapter this = None ->
  2000 < Js.len t -> Js.trim t <> [] ->
  translate t targetLanguage sourceLanguage options st
  = (inl RouterSamples.tooLong,
     {| world := world st; attempts := attempts st ++ [SARVAM];
        slept := slept st |}).
Proof.
  intros Hadapter Hlong Hnonblank. unfold translateText.
  assert (Hguard : (Js.falsy t || (Js.len (Js.trim t) =? 0)) = false).
  { apply orb_false_iff. split.
    - destruct t; [unfold Js.len in Hlong; simpl in Hlong; lia|].
      reflexivity.
    - apply Z.eqb_neq. unfold Js.len.
      destruct (Js.trim t); [congruence | simpl; lia]. }
  rewrite Hguard. unfold tryCatch, llmSelected. rewrite Hadapter.
  rewrite (bool_decide_eq_false_2 (is_Some None))
    by (intros [? ?]; discriminate).
  rewrite andb_false_r.
  rewrite translateWithSarvam_too_long by assumption.
  reflexivity.
Qed.

(** X14. When the text and the target language pass the checks and
    the regional backend fails three times running, the Sarvam path
    makes exactly these three requests, sleeps 1000 ms after the first
    failure and 2000 ms after the second and not at all after the
    third, and throws 'Sarvam translation failed after 3 attempts: '
    followed by the message of the third failure ('Unknown error' when
    it has none). *)
Theorem translateWithSarvam_gives_up (t : text)
    (targetLanguage sourceLanguage : string) (st : St World)
    (lang : Language) (e1 e2 e3 : Retry.JsError) (w1 w2 w3 : World) :
  Js.len t <= 2000 ->
  validateLanguageCode targetLanguage = Some lang ->
  let request :=
    {| input := Js.trim t;
       source_language_code := sourceLanguage;
       target_language_code := targetLanguage;
       request_model := "sarvam-translate:v1";
       mode := "formal";
       enable_preprocessing := true;
       numerals_format := "international" |} in
  makeTranslationRequest request (world st) = (inl e1, w1) ->
  makeTranslationRequest request w1 = (inl e2, w2) ->
  makeTranslationRequest request w2 = (inl e3, w3) ->
  withSarvam t targetLanguage sourceLanguage st
  = (inl (Error ("Sarvam translation failed after 3 attempts: "
                 ++ match Retry.message e3 with
                    | Some m => if String.eqb m "" then "Unknown error"
                                else m
                    | None => "Unknown error"
                    end)),
     {| world := w3; attempts := attempts st ++ [SARVAM];
        slept := slept st ++ [1000; 2000] |}).
Proof.
  intros Hlen Hlang request H1 H2 H3.
  unfold translateWithSarvam, bind, enter. cbv beta iota.
  destruct (2000 <? Js.len t) eqn:Hcmp;
    [apply Z.ltb_lt in Hcmp; lia|].
  rewrite Hlang. fold request.
  change (Z.to_nat maxRetries) with 3%nat.
  cbn [sarvamLoop]. unfold tryCatch, bind, inWorld, delay, ret, throw.
  cbn [world attempts slept].
  rewrite H1. cbn [world attempts slept Z.ltb Z.compare maxRetries].
  change (1 <? maxRetries) with true. cbv beta iota.
  cbn [world attempts slept].
  rewrite H2.
  change (1 + 1 <? maxRetries) with true. cbv beta iota.
  cbn [world attempts slept].
  rewrite H3.
  change (1 + 1 + 1 <? maxRetries) with false. cbv beta iota.
  rewrite <- app_assoc. reflexivity.
Qed.

(** X28. The first answer of the regional backend within the three
    attempts is the result, as it is: the translation is not checked
    (an empty one is returned like any other), the result is tagged
    SARVAM, and its accuracy and confidence are those that the
    evaluator gives for the text as it was passed in, white space at
    its ends included, and the translation.  One request is made per
    attempt, with a sleep of 1000 ms after a first failure and of
    2000 ms after a second. *)
Theorem translateWithSarvam_returns_answer (t : text)
    (targetLanguage sourceLanguage : string) (st : St World)
    (lang : Language) (response : SarvamTranslateResponse) :
  Js.len t <= 2000 ->
  validateLanguageCode targetLanguage = Some lang ->
  let request :=
    {| input := Js.trim t;
       source_language_code := sourceLanguage;
       target_language_code := targetLanguage;
       request_model := "sarvam-translate:v1";
       mode := "formal";
       enable_preprocessing := true;
       numerals_format := "international" |} in
  let metrics :=
    calculateQualityMetrics t (translated_text response) sourceLanguage
      targetLanguage in
  let result :=
    {| translatedText := translated_text response;
       sourceLanguageCode := response_source_language_code response;
       targetLanguageCode := targetLanguage;
       requestId := request_id response;
       translationAccuracy := Metrics.overallAccuracy metrics;
       confidenceScore := Metrics.confidenceScore metrics;
       qualityMetrics := metrics;
       translationMethod := Some SARVAM;
       llmMetadata := None |} in
  let after (w : World) (sleeps : list Z) :=
    (inr result,
     {| world := w; attempts := attempts st ++ [SARVAM];
        slept := slept st ++ sleeps |}) in
  (forall w1,
     makeTranslationRequest request (world st) = (inr response, w1) ->
     withSarvam t targetLanguage sourceLanguage st = after w1 [])
  /\ (forall e1 w1 w2,
        makeTranslationRequest request (world st) = (inl e1, w1) ->
        makeTranslationRequest request w1 = (inr response, w2) ->
        withSarvam t targetLanguage sourceLanguage st = after w2 [1000])
  /\ (forall e1 w1 e2 w2 w3,
        makeTranslationRequest request (world st) = (inl e1, w1) ->
        makeTranslationRequest request w1 = (inl e2, w2) ->
        makeTranslationRequest request w2 = (inr response, w3) ->
        withSarvam t targetLanguage sourceLanguage st
        = after w3 [1000; 2000]).
Proof.
  intros Hlen Hlang request metrics result after.
  assert (Hstart :
            withSarvam t targetLanguage sourceLanguage st
            = sarvamLoop makeTranslationRequest calculateQualityMetrics
                3 1 request t targetLanguage sourceLanguage None
                {| world := world st; attempts := attempts st ++ [SARVAM];
                   slept := slept st |}).
  { unfold translateWithSarvam, bind, enter. cbv beta iota.
    destruct (2000 <? Js.len t) eqn:Hcmp;
      [apply Z.ltb_lt in Hcmp; lia|].
    rewrite Hlang. reflexivity. }
  rewrite Hstart. subst after. cbv beta.
  split; [|split].
  - intros w1 H1.
    cbn [sarvamLoop]. unfold tryCatch, bind, inWorld, ret.
    cbn [world attempts slept]. rewrite H1.
    rewrite app_nil_r. reflexivity.
  - intros e1 w1 w2 H1 H2.
    cbn [sarvamLoop]. unfold tryCatch, bind, inWorld, delay, ret.
    cbn [world attempts slept]. rewrite H1.
    change (1 <? maxRetries) with true. cbv beta iota.
    cbn [world attempts slept]. rewrite H2. reflexivity.
  - intros e1 w1 e2 w2 w3 H1 H2 H3.
    cbn [sarvamLoop]. unfold tryCatch, bind, inWorld, delay, ret.
    cbn [world attempts slept]. rewrite H1.
    change (1 <? maxRetries) with true. cbv beta iota.
    cbn [world attempts slept]. rewrite H2.
    change (1 + 1 <? maxRetries) with true. cbv beta iota.
    cbn [world attempts slept]. rewrite H3.
    rewrite <- app_assoc. reflexivity.
Qed.

End RouterMore.

Lemma translateText_blank_input_witness :
  Router.translateText Samples.answering Samples.eighty Samples.sarvamOnly
    RouterSamples.blank "hi-IN" None None Samples.fresh
  = (inl (Router.Error "Input text cannot be empty"), Samples.fresh).
Proof.
  apply (translateText_blank_input Samples.answering Samples.eighty
           Samples.sarvamOnly RouterSamples.blank "hi-IN" None None
           Samples.fresh).
  reflexivity.
Defined.

Lemma translateText_long_text_without_adapter_witness :
  Router.translateText Samples.answering Samples.eighty Samples.sarvamOnly
    RouterSamples.longText "hi-IN" None (Some Samples.preferSarvam)
    Samples.fresh
  = (inl RouterSamples.tooLong,
     {| Router.world := tt; Router.attempts := [SARVAM];
        Router.slept := [] |}).
Proof.
  apply (translateText_long_text_without_adapter Samples.answering
           Samples.eighty Samples.sarvamOnly RouterSamples.longText
           "hi-IN" None (Some Samples.preferSarvam) Samples.fresh).
  - reflexivity.
  - reflexivity.
  - discriminate.
Defined.

Lemma translateWithSarvam_gives_up_witness :
  Router.translateWithSarvam Samples.down Samples.eighty (lit "hello")
    "hi-IN" "auto" Samples.fresh
  = (inl (Router.Error
            "Sarvam translation failed after 3 attempts: ECONNRESET"),
     {| Router.world := tt; Router.attempts := [SARVAM];
        Router.slept := [1000; 2000] |}).
Proof.
  apply (translateWithSarvam_gives_up Samples.down Samples.eighty
           (lit "hello") "hi-IN" "auto" Samples.fresh
           {| code := "hi-IN"; name := "Hindi"; isSupported := true |}
           (Samples.failure "ECONNRESET") (Samples.failure "ECONNRESET")
           (Samples.failure "ECONNRESET") tt tt tt);
    try reflexivity.
  unfold Js.len. simpl. lia.
Defined.

Lemma translateWithSarvam_returns_answer_witness :
  Router.translateWithSarvam RouterSamples.silent Samples.eighty
    (lit " hello ") "hi-IN" "auto" RouterSamples.counting
  = (inr {| translatedText := [];
            sourceLanguageCode := "en-IN"; targetLanguageCode := "hi-IN";
            requestId := "req-1"; translationAccuracy := 80;
            confidenceScore := 90;
            qualityMetrics := Samples.eighty (lit " hello ") [] "auto" "hi-IN";
            translationMethod := Some SARVAM; llmMetadata := None |},
     {| Router.world := 1%nat; Router.attempts := [SARVAM];
        Router.slept := [] |})
  /\ fst (Router.translateWithSarvam RouterSamples.recovering Samples.eighty
            (lit " hello ") "hi-IN" "auto" RouterSamples.counting)
     = inr {| translatedText := lit "namaste";
              sourceLanguageCode := "en-IN"; targetLanguageCode := "hi-IN";
              requestId := "req-2"; translationAccuracy := 80;
              confidenceScore := 90;
              qualityMetrics :=
                Samples.eighty (lit " hello ") (lit "namaste") "auto" "hi-IN";
              translationMethod := Some SARVAM; llmMetadata := None |}
  /\ Router.slept
       (snd (Router.translateWithSarvam RouterSamples.recovering
               Samples.eighty (lit " hello ") "hi-IN" "auto"
               RouterSamples.counting)) = [1000].
Proof.
  assert (Hlen : Js.len (lit " hello ") <= 2000)
    by (vm_compute; discriminate).
  split.
  - apply (proj1 (translateWithSarvam_returns_answer RouterSamples.silent
                    Samples.eighty (lit " hello ") "hi-IN" "auto"
                    RouterSamples.counting
                    {| code := "hi-IN"; name := "Hindi";
                       isSupported := true |}
                    {| Router.request_id := "req-1";
                       Router.translated_text := [];
                       Router.response_source_language_code := "en-IN" |}
                    Hlen eq_refl) 1%nat).
    reflexivity.
  - pose proof (proj1 (proj2 (translateWithSarvam_returns_answer
                    RouterSamples.recovering
                    Samples.eighty (lit " hello ") "hi-IN" "auto"
                    RouterSamples.counting
                    {| code := "hi-IN"; name := "Hindi";
                       isSupported := true |}
                    {| Router.request_id := "req-2";
                       Router.translated_text := lit "namaste";
                       Router.response_source_language_code := "en-IN" |}
                    Hlen eq_refl))
                  (Samples.failure "ETIMEDOUT") 1%nat 2%nat
                  eq_refl eq_refl) as Hrun.
    rewrite Hrun. split; reflexivity.
Defined.

(** ** The job manager: statistics, shutdown, cancelling, cleaning up *)

Section JobManagerMore.

Import JobManager.

Local Abbreviation having st :=
  (fun l : list ProcessingJob =>
     length (filter (fun job => status job = st) l)).

Lemma having_partition (l : list ProcessingJob) :
  length l
  = (having PENDING l + having PROCESSING l + having COMPLETED l
     + having FAILED l)%nat.
Proof.
  induction l as [|job l IH]; [reflexivity|].
  rewrite !filter_cons. cbn [length]. rewrite IH.
  destruct (status job);
    repeat (destruct (decide _) as [?|?]; try congruence);
    cbn [length]; lia.
Qed.

Lemma status_shutdownJob (now : Z) (job : ProcessingJob) :
  status (shutdownJob now job)
  = match status job with
    | PENDING | PROCESSING => FAILED
    | st => st
    end.
Proof. unfold shutdownJob. now destruct (status job) eqn:Hst; simpl. Qed.

Lemma having_shutdown (now : Z) (l : list ProcessingJob) :
  having PENDING (shutdownJob now <$> l) = O
  /\ having PROCESSING (shutdownJob now <$> l) = O
  /\ having COMPLETED (shutdownJob now <$> l) = having COMPLETED l
  /\ having FAILED (shutdownJob now <$> l)
     = (having FAILED l + having PENDING l + having PROCESSING l)%nat.
Proof.
  induction l as [|job l (IH1 & IH2 & IH3 & IH4)]; [repeat split|].
  rewrite fmap_cons, !filter_cons.
  rewrite !(status_shutdownJob now job).
  destruct (status job) eqn:Hst;
    repeat (destruct (decide _) as [?|?]; try congruence);
    cbn [length]; rewrite ?IH1, ?IH2, ?IH3, ?IH4; repeat split; lia.
Qed.

Lemma values_shutdown (now : Z) (this : JobManager) :
  values (shutdown now this) ≡ₚ shutdownJob now <$> values this.
Proof.
  unfold values, shutdown. cbn [jobs].
  rewrite map_to_list_fmap, <- !list_fmap_compose.
  apply Permutation_refl'. apply list_fmap_ext. intros i kv _.
  now destruct kv.
Qed.

Lemma shutdownJob_twice (now now' : Z) (job : ProcessingJob) :
  shutdownJob now' (shutdownJob now job) = shutdownJob now job.
Proof.
  unfold shutdownJob.
  destruct (status job) eqn:Hst; simpl; rewrite ?Hst; reflexivity.
Qed.

Lemma shutdownJob_not_pending (now : Z) (job : ProcessingJob) :
  status (shutdownJob now job) <> PENDING.
Proof. unfold shutdownJob. destruct (status job) eqn:Hst; simpl; congruence. Qed.

(** X15. The four status counts of [getJobStats] add up to its total. *)
Theorem getJobStats_total (this : JobManager) :
  JobStats.total (JobStats.getJobStats this)
  = (JobStats.pending (JobStats.getJobStats this)
     + JobStats.processing (JobStats.getJobStats this)
     + JobStats.completed (JobStats.getJobStats this)
     + JobStats.failed (JobStats.getJobStats this))%nat.
Proof. apply having_partition. Qed.

(** X16. [shutdown] is final for the jobs it finds: afterwards no job
    is pending or processing, the jobs that were are counted as failed
    and every job is still there; the completed jobs and the queue are
    untouched; [processNextJob] starts nothing; and a second
    [shutdown] changes nothing. *)
Theorem shutdown_final (now now' : Z) (this : JobManager) :
  let before := JobStats.getJobStats this in
  let after := JobStats.getJobStats (shutdown now this) in
  JobStats.pending after = O
  /\ JobStats.processing after = O
  /\ JobStats.total after = JobStats.total before
  /\ JobStats.completed after = JobStats.completed before
  /\ JobStats.failed after
     = (JobStats.failed before + JobStats.pending before
        + JobStats.processing before)%nat
  /\ processingQueue (shutdown now this) = processingQueue this
  /\ fst (processNextJob now' (shutdown now this)) = None
  /\ shutdown now' (shutdown now this) = shutdown now this.
Proof.
  cbv zeta. unfold JobStats.getJobStats, JobStats.withStatus.
  cbn [JobStats.pending JobStats.processing JobStats.total
       JobStats.completed JobStats.failed].
  rewrite !values_shutdown.
  destruct (having_shutdown now (values this)) as (H1 & H2 & H3 & H4).
  rewrite H1, H2, H3, H4, length_fmap.
  repeat split.
  - unfold processNextJob.
    destruct (bool_decide _); [reflexivity|].
    destruct (processingQueue (shutdown now this)) as [|jobId rest];
      [reflexivity|].
    destruct (String.eqb jobId ""); [reflexivity|].
    cbn [jobs shutdown]. rewrite lookup_fmap.
    destruct (jobs this !! jobId) as [job|]; [|reflexivity].
    cbn [fmap option_fmap option_map].
    rewrite bool_decide_eq_false_2; [reflexivity|].
    apply shutdownJob_not_pending.
  - unfold shutdown. cbn [jobs processingQueue]. f_equal.
    rewrite <- map_fmap_compose. apply map_fmap_ext.
    intros k job _. apply shutdownJob_twice.
Qed.

(** X17. Cancelling is final: after a [cancelJob] for an id, whether
    it cancelled the job or refused, another [cancelJob] for that id
    returns [false] and changes nothing. *)
Theorem cancelJob_twice (now now' : Z) (jobId : string) (this : JobManager) :
  cancelJob now' jobId (snd (cancelJob now jobId this))
  = (false, snd (cancelJob now jobId this)).
Proof.
  unfold cancelJob at 2 3.
  destruct (jobs this !! jobId) as [job|] eqn:Hjob.
  - destruct (bool_decide (status job = PENDING)
              || bool_decide (status job = PROCESSING)) eqn:Hlive.
    + unfold updateJob. rewrite Hjob. cbn [snd jobs processingQueue].
      unfold cancelJob. cbn [jobs]. rewrite lookup_insert_eq.
      cbn [applyUpdates status cancelled status' default from_option].
      reflexivity.
    + cbn [snd]. unfold cancelJob. rewrite Hjob, Hlive. reflexivity.
  - cbn [snd]. unfold cancelJob. rewrite Hjob. reflexivity.
Qed.

(** X18. [cleanupOldJobs] deletes exactly the completed and failed
    jobs that were last updated more than an hour before: a pending or
    processing job, and a job updated within the last hour, is kept as
    it is; no job is added or changed; and the queue is left alone, so
    it may still hold the ids of deleted jobs. *)
Theorem cleanupOldJobs_keeps (now : Z) (this : JobManager) (jobId : string)
    (job : ProcessingJob) :
  getJob jobId this = Some job ->
  (status job = PENDING \/ status job = PROCESSING
   \/ now - 3600000 <= updatedAt job ->
   getJob jobId (cleanupOldJobs now this) = Some job)
  /\ ((status job = COMPLETED \/ status job = FAILED) ->
      updatedAt job < now - 3600000 ->
      getJob jobId (cleanupOldJobs now this) = None)
  /\ (forall other kept,
        getJob other (cleanupOldJobs now this) = Some kept ->
        getJob other this = Some kept)
  /\ processingQueue (cleanupOldJobs now this) = processingQueue this.
Proof.
  unfold getJob, cleanupOldJobs. cbn [jobs processingQueue].
  intros Hjob. split; [|split; [|split]].
  - intros Hkeep. apply map_lookup_filter_Some. split; [exact Hjob|].
    cbn [snd]. unfold expired.
    destruct Hkeep as [Hst | [Hst | Hrecent]].
    + rewrite Hst. reflexivity.
    + rewrite Hst. reflexivity.
    + apply andb_false_iff. right. apply Z.ltb_ge. exact Hrecent.
  - intros Hdone Hold. apply map_lookup_filter_None. right.
    intros job' Hjob'. rewrite Hjob in Hjob'. injection Hjob' as <-.
    cbn [snd]. unfold expired.
    assert (Hcmp : (updatedAt job <? now - 3600000) = true)
      by now apply Z.ltb_lt.
    rewrite Hcmp.
    destruct Hdone as [-> | ->]; discriminate.
  - intros other kept Hkept.
    now apply map_lookup_filter_Some in Hkept as [Hkept _].
  - reflexivity.
Qed.

(** X19. What one call of [processNextJob] does.  With five or more
    jobs processing it does nothing.  Otherwise it takes the head off
    the queue, whatever becomes of it, and touches no other job; it
    starts the head exactly when the head is not the empty id and
    names a stored job that is pending, and that job is then
    processing at 5 percent.  So a job submitted under the empty id is
    never started, and a stale head costs a call. *)
Theorem processNextJob_cases (now : Z) (this : JobManager) :
  let r := processNextJob now this in
  ((maxConcurrentJobs <= activeJobs this)%nat -> r = (None, this))
  /\ (forall jobId rest,
        (activeJobs this < maxConcurrentJobs)%nat ->
        processingQueue this = jobId :: rest ->
        processingQueue (snd r) = rest
        /\ (forall other, other <> jobId ->
              getJob other (snd r) = getJob other this)
        /\ (fst r = Some jobId
            <-> jobId <> ""%string
                /\ exists job, getJob jobId this = Some job
                               /\ status job = PENDING)
        /\ (fst r = None -> jobs (snd r) = jobs this)
        /\ (fst r = Some jobId ->
            exists job, getJob jobId (snd r) = Some job
                        /\ status job = PROCESSING /\ progress job = 5
                        /\ updatedAt job = now)).
Proof.
  cbv zeta. unfold processNextJob, getJob. split.
  - intros Hfull. now rewrite bool_decide_eq_true_2.
  - intros jobId rest Hroom Hqueue.
    rewrite bool_decide_eq_false_2 by lia. rewrite Hqueue.
    destruct (String.eqb jobId "") eqn:Hempty.
    { apply String.eqb_eq in Hempty. subst jobId.
      cbn [fst snd jobs processingQueue].
      split; [reflexivity|]. split; [reflexivity|].
      split; [|split; [reflexivity | discriminate]].
      split; [discriminate|]. intros [Hne _]. now elim Hne. }
    apply String.eqb_neq in Hempty.
    cbn [jobs]. destruct (jobs this !! jobId) as [job|] eqn:Hjob.
    + destruct (bool_decide (status job = PENDING)) eqn:Hpending.
      * apply bool_decide_eq_true in Hpending.
        unfold updateJob. cbn [jobs processingQueue]. rewrite Hjob.
        cbn [fst snd jobs processingQueue].
        split; [reflexivity|].
        split; [intros other Hother; now rewrite lookup_insert_ne|].
        split; [|split; [discriminate|]].
        -- split; [|reflexivity]. intros _. split; [exact Hempty|].
           exists job. split; [reflexivity | exact Hpending].
        -- intros _. rewrite lookup_insert_eq. eexists.
           split; [reflexivity|]. repeat split.
      * apply bool_decide_eq_false in Hpending.
        cbn [fst snd jobs processingQueue].
        split; [reflexivity|]. split; [reflexivity|].
        split; [|split; [reflexivity | discriminate]].
        split; [discriminate|].
        intros (_ & job' & Hjob' & Hst). congruence.
    + cbn [fst snd jobs processingQueue].
      split; [reflexivity|]. split; [reflexivity|].
      split; [|split; [reflexivity | discriminate]].
      split; [discriminate|].
      intros (_ & job' & Hjob' & _). discriminate.
Qed.

(** X20. [createJob] stores the job under its id, where [getJob] finds
    it, and appends the id to the queue; the other jobs are not
    touched.  When the id is already taken, the job stored under it is
    replaced, the number of jobs stays the same, and the id is queued
    once more. *)
Theorem createJob_getJob (uuid : string) (now : Z) (jobData : JobData)
    (this : JobManager) :
  let job := fst (createJob uuid now jobData this) in
  let after := snd (createJob uuid now jobData this) in
  getJob (id job) after = Some job
  /\ (forall other, other <> id job -> getJob other after = getJob other this)
  /\ processingQueue after = processingQueue this ++ [id job]
  /\ JobStats.total (JobStats.getJobStats after)
     = match getJob (id job) this with
       | Some _ => JobStats.total (JobStats.getJobStats this)
       | None => S (JobStats.total (JobStats.getJobStats this))
       end.
Proof.
  cbv zeta. unfold createJob, getJob, JobStats.getJobStats, values.
  cbn [fst snd jobs processingQueue JobStats.total id].
  split; [apply lookup_insert_eq|].
  split; [intros other Hother; now apply lookup_insert_ne|].
  split; [reflexivity|].
  rewrite !length_fmap.
  rewrite !length_map_to_list, map_size_insert.
  now destruct (jobs this !! default uuid (id' jobData)).
Qed.

End JobManagerMore.

Lemma cleanupOldJobs_keeps_witness :
  JobManager.getJob "x"
    (JobManager.cleanupOldJobs 7200000 Samples.submittedOnce)
  = Some Samples.pendingX.
Proof.
  apply (proj1 (cleanupOldJobs_keeps 7200000 Samples.submittedOnce "x"
                  Samples.pendingX eq_refl)).
  left. reflexivity.
Defined.

Lemma processNextJob_cases_witness :
  JobManager.processingQueue
    (snd (JobManager.processNextJob 1
            (snd (JobManager.createJob "uuid" 0 JobStats.unnamed
                    JobManager.empty)))) = []
  /\ fst (JobManager.processNextJob 1
            (snd (JobManager.createJob "uuid" 0 JobStats.unnamed
                    JobManager.empty))) = None.
Proof.
  destruct (proj2 (processNextJob_cases 1
                     (snd (JobManager.createJob "uuid" 0 JobStats.unnamed
                             JobManager.empty)))
              ""%string [])
    as (Hqueue & _ & Hstart & _).
  - vm_compute. lia.
  - reflexivity.
  - split; [exact Hqueue|].
    destruct (fst (JobManager.processNextJob 1
                     (snd (JobManager.createJob "uuid" 0 JobStats.unnamed
                             JobManager.empty)))) as [started|] eqn:Hfst;
      [|reflexivity].
    exfalso.
    assert (Hid : started = ""%string)
      by (vm_compute in Hfst; discriminate).
    subst started. now destruct (proj1 Hstart eq_refl) as [Hne _].
Defined.

(** ** YouTube URLs *)

Section YouTubeFacts.

Import YouTubeUrlValidator.

(** *** The matchers *)

Lemma literal_Some (d s rest : text) :
  literal d s = Some rest <-> s = d ++ rest.
Proof.
  revert s. induction d as [|c d IH]; intros s; simpl.
  - split; congruence.
  - destruct s as [|x s]; [split; discriminate|].
    destruct (Ascii.eqb c x) eqn:Hcx.
    + apply Ascii.eqb_eq in Hcx. subst x. rewrite IH.
      split; congruence.
    + apply Ascii.eqb_neq in Hcx. split; [discriminate | congruence].
Qed.

Lemma lit_then_Some {A} (d : string) (k : text -> option A) (s : text)
    (r : A) :
  lit_then d k s = Some r ->
  exists rest, s = lit d ++ rest /\ k rest = Some r.
Proof.
  unfold lit_then. destruct (literal (lit d) s) as [rest|] eqn:Hd;
    [|discriminate].
  apply literal_Some in Hd. eauto.
Qed.

Lemma optional_Some {A} (d : string) (k : bool -> text -> option A)
    (s : text) (r : A) :
  optional d k s = Some r ->
  (exists rest, s = lit d ++ rest /\ k true rest = Some r)
  \/ k false s = Some r.
Proof.
  unfold optional. destruct (literal (lit d) s) as [rest|] eqn:Hd;
    [|now right].
  apply literal_Some in Hd.
  destruct (k true rest) as [r'|] eqn:Hk; [|now right].
  intros [= <-]. left. eauto.
Qed.

Lemma dotStar_Some {A} (k : text -> option A) (s : text) (r : A) :
  dotStar k s = Some r ->
  exists skipped rest, s = skipped ++ rest /\ k rest = Some r.
Proof.
  induction s as [|c s IH]; simpl.
  - intros Hk. now exists [], [].
  - destruct (isLineTerminator c); [intros Hk; now exists [], (c :: s)|].
    destruct (dotStar k s) as [r'|] eqn:Hstar.
    + intros [= <-]. destruct (IH eq_refl) as (skipped & rest & -> & Hk).
      now exists (c :: skipped), rest.
    + intros Hk. now exists [], (c :: s).
Qed.

Lemma idChars_Some (n : nat) (s read rest : text) :
  idChars n s = Some (read, rest) ->
  s = read ++ rest /\ length read = n /\ forallb idChar read = true.
Proof.
  revert s read. induction n as [|n IH]; intros s read; simpl.
  - intros [= <- <-]. repeat split.
  - destruct s as [|c s]; [discriminate|].
    destruct (idChar c) eqn:Hc; [|discriminate].
    destruct (idChars n s) as [[read' rest']|] eqn:Hrec; [|discriminate].
    intros [= <- <-]. destruct (IH _ _ Hrec) as (-> & <- & Hall).
    simpl. rewrite Hc, Hall. repeat split.
Qed.

Lemma idChars_app (read rest : text) :
  forallb idChar read = true ->
  idChars (length read) (read ++ rest) = Some (read, rest).
Proof.
  induction read as [|c read IH]; simpl; [reflexivity|].
  intros Hall. apply andb_true_iff in Hall as [Hc Hall].
  now rewrite Hc, (IH Hall).
Qed.

Lemma isValidVideoId_iff (videoId : text) :
  isValidVideoId videoId = true
  <-> length videoId = 11%nat /\ forallb idChar videoId = true.
Proof.
  unfold isValidVideoId. split.
  - destruct (idChars 11 videoId) as [[read rest]|] eqn:Hread;
      [|discriminate].
    destruct rest; [|discriminate]. intros _.
    apply idChars_Some in Hread as (-> & Hlen & Hall).
    now rewrite app_nil_r.
  - intros [Hlen Hall].
    rewrite <- (app_nil_r videoId), <- Hlen at 1.
    now rewrite (idChars_app videoId [] Hall).
Qed.

Lemma videoIdGroup_Some (s videoId : text) :
  videoIdGroup s = Some videoId ->
  isValidVideoId videoId = true /\ exists rest, s = videoId ++ rest.
Proof.
  unfold videoIdGroup.
  destruct (idChars 11 s) as [[read rest]|] eqn:Hread; [|discriminate].
  intros [= <-]. apply idChars_Some in Hread as (-> & Hlen & Hall).
  split; [now apply isValidVideoId_iff | eauto].
Qed.

Lemma videoIdGroup_app (videoId rest : text) :
  isValidVideoId videoId = true ->
  videoIdGroup (videoId ++ rest) = Some videoId.
Proof.
  intros Hvalid. apply isValidVideoId_iff in Hvalid as [Hlen Hall].
  unfold videoIdGroup. rewrite <- Hlen.
  now rewrite (idChars_app videoId rest Hall).
Qed.

Lemma valid_nonempty (videoId : text) :
  isValidVideoId videoId = true ->
  exists c rest, videoId = c :: rest.
Proof.
  intros Hvalid. apply isValidVideoId_iff in Hvalid as [Hlen _].
  destruct videoId as [|c rest]; [discriminate | eauto].
Qed.

Ltac unravel :=
  repeat match goal with
    | H : lit_then _ _ _ = Some _ |- _ =>
        apply lit_then_Some in H as (? & -> & H)
    | H : optional _ _ _ = Some _ |- _ =>
        apply optional_Some in H as [(? & -> & H) | H]
    | H : dotStar _ _ = Some _ |- _ =>
        apply dotStar_Some in H as (? & ? & -> & H)
    | H : _ = Some _ |- _ => progress cbv beta in H
    end.

Ltac host_is h :=
  exists h%string; eexists; split;
  [simpl; tauto | cbn [lit app]; reflexivity].

Ltac pick_host :=
  first [ host_is "https://www.youtube.com/"
        | host_is "http://www.youtube.com/"
        | host_is "https://youtube.com/"
        | host_is "http://youtube.com/"
        | host_is "https://youtu.be/"
        | host_is "http://youtu.be/" ].

Ltac found_id H :=
  match type of H with
  | match videoIdGroup ?r with _ => _ end = Some _ =>
      let Hid := fresh "Hid" in
      destruct (videoIdGroup r) as [videoId|] eqn:Hid; [|discriminate];
      injection H as <-;
      apply videoIdGroup_Some in Hid as [Hid _];
      destruct (valid_nonempty _ Hid) as (c & v & ->);
      exists (c :: v); split; [reflexivity | exact Hid]
  end.

Lemma onYoutubeCom_found (path : string) (cleanUrl : text) (m : Match) :
  In path ["/watch?v="; "/embed/"; "/v/"]%string ->
  onYoutubeCom path cleanUrl = Some m -> found cleanUrl m.
Proof.
  intros Hpath Hm. unfold onYoutubeCom in Hm.
  destruct Hpath as [<- | [<- | [<- | []]]];
    unravel; (split; [found_id Hm | pick_host]).
Qed.

Lemma onYoutuBe_found (cleanUrl : text) (m : Match) :
  onYoutuBe cleanUrl = Some m -> found cleanUrl m.
Proof.
  intros Hm. unfold onYoutuBe in Hm.
  unravel; (split; [found_id Hm | pick_host]).
Qed.

Lemma onWatchQuery_found (cleanUrl : text) (m : Match) :
  onWatchQuery cleanUrl = Some m -> found cleanUrl m.
Proof.
  intros Hm. unfold onWatchQuery in Hm.
  unravel; (split; [found_id Hm | pick_host]).
Qed.

Lemma patterns_found (pattern : text -> option Match) (cleanUrl : text)
    (m : Match) :
  In pattern YOUTUBE_URL_PATTERNS ->
  pattern cleanUrl = Some m -> found cleanUrl m.
Proof.
  intros [<- | [<- | [<- | [<- | [<- | []]]]]].
  - apply onYoutubeCom_found. simpl. tauto.
  - apply onYoutubeCom_found. simpl. tauto.
  - apply onYoutubeCom_found. simpl. tauto.
  - apply onYoutuBe_found.
  - apply onWatchQuery_found.
Qed.

(** The loop returns the id found by the first pattern that matches. *)
Lemma firstVideoId_first (patterns : list (text -> option Match))
    (cleanUrl : text) :
  (forall pattern m, In pattern patterns ->
     pattern cleanUrl = Some m -> found cleanUrl m) ->
  match firstVideoId patterns cleanUrl with
  | Some videoId =>
      existsb (fun pattern => bool_decide (is_Some (pattern cleanUrl)))
        patterns = true
      /\ isValidVideoId videoId = true
      /\ exists host rest, In host hosts /\ cleanUrl = lit host ++ rest
  | None =>
      existsb (fun pattern => bool_decide (is_Some (pattern cleanUrl)))
        patterns = false
  end.
Proof.
  induction patterns as [|pattern patterns IH]; intros Hfound;
    [reflexivity|].
  cbn [firstVideoId existsb].
  destruct (pattern cleanUrl) as [m|] eqn:Hm.
  - destruct (Hfound pattern m (or_introl eq_refl) Hm)
      as [(videoId & Hgroup & Hvalid) Hhost].
    rewrite Hgroup.
    destruct (valid_nonempty _ Hvalid) as (c & v & ->).
    rewrite Hvalid. rewrite bool_decide_eq_true_2 by eauto.
    repeat split; assumption.
  - rewrite bool_decide_eq_false_2 by (intros [? ?]; discriminate).
    cbn [orb]. apply IH. intros p m Hp. apply Hfound. now right.
Qed.

Lemma validateYouTubeUrl_extractVideoId_agree (url : text) :
  is_Some (extractVideoId url) -> validateYouTubeUrl url = true.
Proof.
  unfold validateYouTubeUrl, extractVideoId.
  destruct (Js.falsy url); [intros [? ?]; discriminate|].
  pose proof (firstVideoId_first YOUTUBE_URL_PATTERNS (Js.trim url)
                (fun p m => patterns_found p (Js.trim url) m)) as Hfirst.
  destruct (firstVideoId YOUTUBE_URL_PATTERNS (Js.trim url));
    [intros _; apply Hfirst | intros [? ?]; discriminate].
Qed.

(** X21. [validateYouTubeUrl] and [extractVideoId] agree: a URL is
    accepted exactly when a video id can be extracted from it, and
    exactly then [normalizeUrl] gives a URL.  An extracted id is
    always a valid id, eleven characters out of [a-zA-Z0-9_-]: the
    check in the loop of [extractVideoId] never turns a match down. *)
Theorem validateYouTubeUrl_extractVideoId (url : text) :
  (validateYouTubeUrl url = true <-> is_Some (extractVideoId url))
  /\ (is_Some (normalizeUrl url) <-> is_Some (extractVideoId url))
  /\ (forall videoId, extractVideoId url = Some videoId ->
        isValidVideoId videoId = true
        /\ length videoId = 11%nat
        /\ normalizeUrl url
           = Some (lit "https://www.youtube.com/watch?v=" ++ videoId)).
Proof.
  unfold normalizeUrl, validateYouTubeUrl, extractVideoId.
  destruct (Js.falsy url).
  { split; [split; [discriminate | intros [? ?]; discriminate]|].
    split; [split; intros [? ?]; discriminate|].
    discriminate. }
  pose proof (firstVideoId_first YOUTUBE_URL_PATTERNS (Js.trim url)
                (fun p m => patterns_found p (Js.trim url) m)) as Hfirst.
  destruct (firstVideoId YOUTUBE_URL_PATTERNS (Js.trim url))
    as [extracted|].
  - destruct Hfirst as (Hsome & Hvalid & _).
    destruct (valid_nonempty _ Hvalid) as (c & v & ->).
    rewrite Hsome.
    split; [split; eauto|]. split; [split; eauto|].
    intros videoId [= <-].
    split; [exact Hvalid|]. split; [|reflexivity].
    now apply isValidVideoId_iff in Hvalid.
  - rewrite Hfirst.
    split; [split; [discriminate | intros [? ?]; discriminate]|].
    split; [split; intros [? ?]; discriminate|].
    discriminate.
Qed.

(** X24. Only YouTube hosts are accepted: the text of an accepted URL,
    white space at its ends apart, starts with http:// or https://
    followed by www.youtube.com/, youtube.com/ or youtu.be/. *)
Theorem validateYouTubeUrl_host (url : text) :
  validateYouTubeUrl url = true ->
  exists host rest, In host hosts /\ Js.trim url = lit host ++ rest.
Proof.
  unfold validateYouTubeUrl. destruct (Js.falsy url); [discriminate|].
  pose proof (firstVideoId_first YOUTUBE_URL_PATTERNS (Js.trim url)
                (fun p m => patterns_found p (Js.trim url) m)) as Hfirst.
  destruct (firstVideoId YOUTUBE_URL_PATTERNS (Js.trim url))
    as [videoId|].
  - intros _. apply Hfirst.
  - rewrite Hfirst. discriminate.
Qed.

(** *** White space at the ends *)

Lemma trimStart_app_word (a b : text) (c : ascii) :
  Js.isWhiteSpace c = false ->
  Js.trimStart (a ++ c :: b) = Js.trimStart a ++ c :: b.
Proof.
  intros Hc. induction a as [|x a IH]; simpl.
  - now rewrite Hc.
  - destruct (Js.isWhiteSpace x); [exact IH | reflexivity].
Qed.

Lemma trim_keeps (c z : ascii) (mid tail : text) :
  Js.isWhiteSpace c = false -> Js.isWhiteSpace z = false ->
  Js.trim (c :: mid ++ z :: tail)
  = c :: mid ++ z :: rev (Js.trimStart (rev tail)).
Proof.
  intros Hc Hz. unfold Js.trim.
  cbn [Js.trimStart]. rewrite Hc.
  change (c :: mid ++ z :: tail) with ((c :: mid) ++ z :: tail).
  rewrite rev_app_distr. cbn [rev]. rewrite <- app_assoc.
  cbn [app]. rewrite trimStart_app_word by exact Hz.
  rewrite rev_app_distr. cbn [rev]. rewrite rev_app_distr, !rev_involutive.
  cbn [rev app]. rewrite <- !app_assoc. reflexivity.
Qed.

Lemma idChar_not_space (c : ascii) :
  idChar c = true -> Js.isWhiteSpace c = false.
Proof. destruct c as [[] [] [] [] [] [] [] []]; vm_compute; congruence. Qed.

Lemma trim_behind_id (c : ascii) (w videoId tail : text) :
  Js.isWhiteSpace c = false ->
  isValidVideoId videoId = true ->
  exists tail',
    Js.trim ((c :: w) ++ videoId ++ tail) = (c :: w) ++ videoId ++ tail'.
Proof.
  intros Hc Hvalid. apply isValidVideoId_iff in Hvalid as [Hlen Hall].
  destruct (exists_last (l := videoId)) as (init & z & ->);
    [intros ->; discriminate|].
  rewrite forallb_app in Hall. apply andb_true_iff in Hall as [_ Hz].
  cbn [forallb] in Hz. rewrite andb_true_r in Hz.
  apply idChar_not_space in Hz.
  exists (rev (Js.trimStart (rev tail))).
  replace ((c :: w) ++ (init ++ [z]) ++ tail)
    with (c :: (w ++ init) ++ z :: tail)
    by (cbn [app]; now rewrite <- !app_assoc).
  rewrite trim_keeps by assumption.
  cbn [app]. now rewrite <- !app_assoc.
Qed.

Lemma extractVideoId_of_form (form : string) (videoId tail : text) :
  In form forms ->
  isValidVideoId videoId = true ->
  extractVideoId (lit form ++ videoId ++ tail) = Some videoId.
Proof.
  intros Hform Hvalid.
  destruct (valid_nonempty _ Hvalid) as (c & v & Hid).
  unfold forms in Hform. cbn [In] in Hform.
  repeat (destruct Hform as [<- | Hform]);
    [..|destruct Hform];
    (match goal with
     | |- extractVideoId (lit ?f ++ _) = _ =>
         destruct (trim_behind_id "h" (tl (lit f)) videoId tail
                     eq_refl Hvalid) as [tail' Htrim]
     end;
     unfold extractVideoId;
     change (Js.falsy _) with false; cbv iota;
     match goal with
     | |- firstVideoId _ (Js.trim ?u) = _ =>
         match type of Htrim with
         | Js.trim ?u' = _ => change u with u'
         end
     end;
     rewrite Htrim;
     cbn -[videoIdGroup isValidVideoId];
     rewrite (videoIdGroup_app videoId tail' Hvalid);
     cbn [group1 group2 orElse]; rewrite Hid; cbn [orElse];
     rewrite <- Hid, Hvalid; reflexivity).
Qed.

(** X23. Every documented form of URL gives its id, whatever follows
    the id: for a valid id, [extractVideoId] of one of the fourteen
    forms (watch, embed, v and youtu.be, with http or https, with or
    without www) followed by the id and by any text at all returns the
    id, and the URL is accepted.  So an id is cut out of a longer run
    of id characters, and no text behind the id makes a URL
    invalid. *)
Theorem extractVideoId_forms (form : string) (videoId tail : text) :
  In form forms ->
  isValidVideoId videoId = true ->
  extractVideoId (lit form ++ videoId ++ tail) = Some videoId
  /\ validateYouTubeUrl (lit form ++ videoId ++ tail) = true.
Proof.
  intros Hform Hvalid.
  pose proof (extractVideoId_of_form form videoId tail Hform Hvalid)
    as Hextract.
  split; [exact Hextract|].
  apply validateYouTubeUrl_extractVideoId_agree. rewrite Hextract. eauto.
Qed.

(** X22. What [normalizeUrl] returns is a fixed point: it is accepted,
    it holds the same video id as the URL it was made from, and
    normalizing it again gives it back. *)
Theorem normalizeUrl_idempotent (url normalized : text) :
  normalizeUrl url = Some normalized ->
  validateYouTubeUrl normalized = true
  /\ extractVideoId normalized = extractVideoId url
  /\ normalizeUrl normalized = Some normalized.
Proof.
  unfold normalizeUrl at 1.
  destruct (extractVideoId url) as [[|c v]|] eqn:Hextract;
    try discriminate.
  intros Hnormalized.
  assert (Hshape : normalized
                   = lit "https://www.youtube.com/watch?v=" ++ c :: v)
    by congruence.
  clear Hnormalized. subst normalized.
  assert (Hvalid : isValidVideoId (c :: v) = true).
  { unfold extractVideoId in Hextract.
    destruct (Js.falsy url); [discriminate|].
    pose proof (firstVideoId_first YOUTUBE_URL_PATTERNS (Js.trim url)
                  (fun p m => patterns_found p (Js.trim url) m)) as Hfirst.
    rewrite Hextract in Hfirst. apply Hfirst. }
  assert (Hagain :
            extractVideoId (lit "https://www.youtube.com/watch?v="
                            ++ c :: v) = Some (c :: v)).
  { rewrite <- (app_nil_r (c :: v)) at 1.
    apply extractVideoId_of_form; [|exact Hvalid].
    unfold forms. cbn [In]. tauto. }
  split; [|split].
  - apply validateYouTubeUrl_extractVideoId_agree. rewrite Hagain. eauto.
  - exact Hagain.
  - unfold normalizeUrl. now rewrite Hagain.
Qed.

(** *** The query of a watch URL *)

Lemma literal_app (d rest : text) : literal d (d ++ rest) = Some rest.
Proof. now apply literal_Some. Qed.

Lemma lit_then_is_Some {A} (d : string) (k : text -> option A)
    (rest : text) :
  is_Some (k rest) -> is_Some (lit_then d k (lit d ++ rest)).
Proof. unfold lit_then. now rewrite literal_app. Qed.

Lemma optional_is_Some {A} (d : string) (k : bool -> text -> option A)
    (taken : bool) (rest : text) :
  is_Some (k taken rest) ->
  is_Some (optional d k ((if taken then lit d else []) ++ rest)).
Proof.
  intros Hk. unfold optional. destruct taken.
  - rewrite literal_app. destruct (k true rest); [eauto|].
    now destruct Hk.
  - cbn [app]. destruct (literal (lit d) rest) as [rest'|]; [|exact Hk].
    destruct (k true rest'); [eauto | exact Hk].
Qed.

Lemma dotStar_is_Some {A} (k : text -> option A) (skipped rest : text) :
  forallb (fun c => negb (isLineTerminator c)) skipped = true ->
  is_Some (k rest) -> is_Some (dotStar k (skipped ++ rest)).
Proof.
  intros Hline Hk.
  assert (Hhere : forall s, is_Some (k s) -> is_Some (dotStar k s)).
  { intros [|c s] Hs; [exact Hs|]. cbn [dotStar].
    destruct (isLineTerminator c); [exact Hs|].
    destruct (dotStar k s); [eauto | exact Hs]. }
  induction skipped as [|c skipped IH]; [now apply Hhere|].
  cbn [forallb] in Hline. apply andb_true_iff in Hline as [Hc Hline].
  cbn [app dotStar]. apply negb_true_iff in Hc. rewrite Hc.
  destruct (IH Hline) as [r ->]. eauto.
Qed.

(** X25. In the query of a watch URL the id is looked for behind any
    'v=' on the first line, not behind a parameter named v: a watch
    URL (http or https, with or without www) whose query holds, after
    any text without a line break, the characters 'v=' and a valid id
    is accepted, and a valid id is extracted from it, whatever comes
    behind. *)
Theorem validateYouTubeUrl_query (secure www : bool)
    (params videoId tail : text) :
  forallb (fun c => negb (isLineTerminator c)) params = true ->
  isValidVideoId videoId = true ->
  let url :=
    watchUrl secure www ++ params ++ lit "v=" ++ videoId ++ tail in
  validateYouTubeUrl url = true
  /\ exists extracted,
       extractVideoId url = Some extracted
       /\ isValidVideoId extracted = true.
Proof.
  intros Hline Hvalid url.
  assert (Haccepted : validateYouTubeUrl url = true).
  { subst url. unfold validateYouTubeUrl.
    destruct (trim_behind_id "h"
                (tl (watchUrl secure www) ++ params ++ lit "v=")
                videoId tail eq_refl Hvalid) as [tail' Htrim].
    assert (Hsame : forall rest,
              ("h"%char :: tl (watchUrl secure www) ++ params ++ lit "v=")
              ++ videoId ++ rest
              = watchUrl secure www ++ params ++ lit "v=" ++ videoId
                ++ rest).
    { intros rest.
      change ("h"%char :: tl (watchUrl secure www) ++ params ++ lit "v=")
        with (watchUrl secure www ++ params ++ lit "v=").
      now rewrite <- !app_assoc. }
    rewrite !Hsame in Htrim. rewrite Htrim.
    assert (Hnonempty :
              Js.falsy (watchUrl secure www ++ params ++ lit "v="
                        ++ videoId ++ tail) = false)
      by now destruct secure, www.
    rewrite Hnonempty.
    unfold YOUTUBE_URL_PATTERNS. cbn [existsb].
    assert (Hfifth :
              is_Some (onWatchQuery
                         (watchUrl secure www ++ params ++ lit "v="
                          ++ videoId ++ tail'))).
    { unfold onWatchQuery, watchUrl. rewrite <- !app_assoc.
      apply lit_then_is_Some.
      apply (optional_is_Some "s" _ secure).
      apply lit_then_is_Some.
      apply (optional_is_Some "www." _ www).
      apply lit_then_is_Some.
      apply dotStar_is_Some; [exact Hline|].
      apply lit_then_is_Some.
      rewrite (videoIdGroup_app videoId tail' Hvalid). eauto. }
    rewrite (bool_decide_eq_true_2 _ Hfifth).
    now rewrite !orb_true_r. }
  split; [exact Haccepted|].
  assert (Hsome : is_Some (extractVideoId url)).
  { unfold validateYouTubeUrl in Haccepted. unfold extractVideoId.
    destruct (Js.falsy url); [discriminate|].
    pose proof (firstVideoId_first YOUTUBE_URL_PATTERNS (Js.trim url)
                  (fun p m => patterns_found p (Js.trim url) m)) as Hfirst.
    destruct (firstVideoId YOUTUBE_URL_PATTERNS (Js.trim url));
      [eauto | congruence]. }
  destruct Hsome as [extracted Hextracted]. exists extracted.
  split; [exact Hextracted|].
  unfold extractVideoId in Hextracted.
  destruct (Js.falsy url); [discriminate|].
  pose proof (firstVideoId_first YOUTUBE_URL_PATTERNS (Js.trim url)
                (fun p m => patterns_found p (Js.trim url) m)) as Hfirst.
  rewrite Hextracted in Hfirst. apply Hfirst.
Qed.

End YouTubeFacts.

Lemma validateYouTubeUrl_host_witness :
  exists host rest,
    In host YouTubeUrlValidator.hosts
    /\ Js.trim (lit "  https://youtu.be/dQw4w9WgXcQ?t=10 ")
       = lit host ++ rest.
Proof.
  apply (validateYouTubeUrl_host
           (lit "  https://youtu.be/dQw4w9WgXcQ?t=10 ")).
  reflexivity.
Defined.

Lemma extractVideoId_forms_witness :
  YouTubeUrlValidator.extractVideoId
    (lit "https://www.youtube.com/embed/"
     ++ YouTubeUrlValidator.rickroll ++ lit "EXTRA&t=10s") 
  = Some YouTubeUrlValidator.rickroll
  /\ YouTubeUrlValidator.validateYouTubeUrl
       (lit "https://www.youtube.com/embed/"
        ++ YouTubeUrlValidator.rickroll ++ lit "EXTRA&t=10s") = true.
Proof.
  apply (extractVideoId_forms "https://www.youtube.com/embed/"
           YouTubeUrlValidator.rickroll (lit "EXTRA&t=10s")).
  - unfold YouTubeUrlValidator.forms. cbn [In]. tauto.
  - reflexivity.
Defined.

Lemma normalizeUrl_idempotent_witness :
  YouTubeUrlValidator.validateYouTubeUrl
    (lit "https://www.youtube.com/watch?v=dQw4w9WgXcQ") = true
  /\ YouTubeUrlValidator.extractVideoId
       (lit "https://www.youtube.com/watch?v=dQw4w9WgXcQ")
     = YouTubeUrlValidator.extractVideoId
         (lit "http://youtu.be/dQw4w9WgXcQ?t=10")
  /\ YouTubeUrlValidator.normalizeUrl
       (lit "https://www.youtube.com/watch?v=dQw4w9WgXcQ")
     = Some (lit "https://www.youtube.com/watch?v=dQw4w9WgXcQ").
Proof.
  apply (normalizeUrl_idempotent (lit "http://youtu.be/dQw4w9WgXcQ?t=10")
           (lit "https://www.youtube.com/watch?v=dQw4w9WgXcQ")).
  reflexivity.
Defined.

Lemma validateYouTubeUrl_query_witness :
  YouTubeUrlValidator.validateYouTubeUrl
    (YouTubeUrlValidator.watchUrl true true ++ lit "list=PL1&pre"
     ++ lit "v=" ++ YouTubeUrlValidator.rickroll ++ lit "&t=1") = true
  /\ exists extracted,
       YouTubeUrlValidator.extractVideoId
         (YouTubeUrlValidator.watchUrl true true ++ lit "list=PL1&pre"
          ++ lit "v=" ++ YouTubeUrlValidator.rickroll ++ lit "&t=1")
       = Some extracted
       /\ YouTubeUrlValidator.isValidVideoId extracted = true.
Proof.
  apply (validateYouTubeUrl_query true true (lit "list=PL1&pre")
           YouTubeUrlValidator.rickroll (lit "&t=1"));
    reflexivity.
Defined.

Lemma validateYouTubeUrl_extractVideoId_witness :
  YouTubeUrlValidator.isValidVideoId YouTubeUrlValidator.rickroll = true
  /\ length YouTubeUrlValidator.rickroll = 11%nat
  /\ YouTubeUrlValidator.normalizeUrl
       (lit "https://youtu.be/dQw4w9WgXcQ")
     = Some (lit "https://www.youtube.com/watch?v="
             ++ YouTubeUrlValidator.rickroll).
Proof.
  apply (proj2 (proj2 (validateYouTubeUrl_extractVideoId
                         (lit "https://youtu.be/dQw4w9WgXcQ")))).
  reflexivity.
Defined.

(** ** The quality evaluator *)

Section EvaluatorFacts.

Import Quality Evaluator.

Lemma clamp_between (low high score : Q) :
  (0 <= low)%Q -> (high <= 100)%Q -> (low <= score <= high)%Q ->
  (low <= clamp score <= high)%Q.
Proof.
  intros Hlow Hhigh [Hl Hh]. unfold clamp. split.
  - eapply Qle_trans; [|apply Q.le_max_r].
    apply Q.min_glb; [|exact Hl].
    eapply Qle_trans; [exact Hl|]. eapply Qle_trans; eassumption.
  - apply Q.max_lub.
    + eapply Qle_trans; [exact Hlow|]. eapply Qle_trans; eassumption.
    + eapply Qle_trans; [apply Q.le_min_r | exact Hh].
Qed.

Lemma strictEq_eq (a b : text) : strictEq a b = true -> a = b.
Proof.
  revert b. induction a as [|x a IH]; intros [|y b]; simpl;
    try discriminate; [reflexivity|].
  intros H. apply andb_true_iff in H as [Hxy Hab].
  apply Ascii.eqb_eq in Hxy. subst y. now rewrite (IH b Hab).
Qed.

Lemma splitWhitespaceFrom_nonempty (s word : text) (inRun : bool) :
  (1 <= length (splitWhitespaceFrom s word inRun))%nat.
Proof.
  revert word inRun. induction s as [|c s IH]; intros word inRun; simpl;
    [lia|].
  destruct (Js.isWhiteSpace c); [destruct inRun|]; simpl;
    try apply IH; lia.
Qed.

Lemma splitWhitespace_nonempty (s : text) :
  (1 <= length (splitWhitespace s))%nat.
Proof. apply splitWhitespaceFrom_nonempty. Qed.

(** A share of a positive whole is between 0 and 1. *)
Lemma share_range (part whole : nat) :
  (part <= whole)%nat -> (1 <= whole)%nat ->
  (0 <= inject_Z (Z.of_nat part) / inject_Z (Z.of_nat whole) <= 1)%Q.
Proof.
  intros Hpart Hwhole.
  assert (Hpos : (0 < inject_Z (Z.of_nat whole))%Q).
  { change 0%Q with (inject_Z 0). rewrite <- Zlt_Qlt. lia. }
  split.
  - apply Qle_shift_div_l; [exact Hpos|].
    rewrite Qmult_0_l. change 0%Q with (inject_Z 0).
    rewrite <- Zle_Qle. lia.
  - apply Qle_shift_div_r; [exact Hpos|].
    rewrite Qmult_1_l. rewrite <- Zle_Qle. lia.
Qed.

(** X26. The semantic similarity takes one of three kinds of value: 0
    when the source or the translation is empty; 30 when the two are
    the same text up to the case of letters (taken for untranslated);
    and otherwise a score from 75 to 95, so that no pair of texts is
    scored between 30 and 75 or above 95. *)
Theorem calculateSemanticSimilarity_range (sourceText translatedText : text) :
  (sourceText = [] \/ translatedText = [] ->
   calculateSemanticSimilarity sourceText translatedText = 0%Q)
  /\ (sourceText <> [] -> translatedText <> [] ->
      Js.toLowerCase sourceText = Js.toLowerCase translatedText ->
      calculateSemanticSimilarity sourceText translatedText = 30%Q)
  /\ (sourceText <> [] -> translatedText <> [] ->
      Js.toLowerCase sourceText <> Js.toLowerCase translatedText ->
      (75 <= calculateSemanticSimilarity sourceText translatedText <= 95)%Q).
Proof.
  unfold calculateSemanticSimilarity. split; [|split].
  - intros [-> | ->]; [reflexivity|]. now rewrite orb_true_r.
  - intros Hs Ht Hsame.
    destruct sourceText; [congruence|].
    destruct translatedText; [congruence|].
    cbn [Js.falsy orb]. rewrite Hsame, strictEq_refl. reflexivity.
  - intros Hs Ht Hdiffer.
    destruct sourceText as [|c s]; [congruence|].
    destruct translatedText as [|d t]; [congruence|].
    cbn [Js.falsy orb].
    destruct (strictEq _ _) eqn:Heq;
      [apply strictEq_eq in Heq; congruence|].
    fold (clamp (75 + inject_Z (Z.of_nat (length (List.filter
      (fun word => existsb (fun tWord => (3 <? Js.len word)
         && (Retry.includes word tWord || Retry.includes tWord word))
         (splitWhitespace (Js.toLowerCase (d :: t))))
      (splitWhitespace (Js.toLowerCase (c :: s))))))
      / inject_Z (Z.max (Z.of_nat (length (splitWhitespace
                           (Js.toLowerCase (c :: s)))))
                        (Z.of_nat (length (splitWhitespace
                           (Js.toLowerCase (d :: t)))))) * 20)).
    apply clamp_between; [discriminate | discriminate|].
    rewrite <- Nat2Z.inj_max.
    match goal with
    | |- (_ <= 75 + inject_Z (Z.of_nat ?p) / inject_Z (Z.of_nat ?w) * 20
          <= _)%Q =>
        destruct (share_range p w) as [Hlow Hhigh]
    end.
    + etransitivity; [apply List.filter_length_le|]. apply Nat.le_max_l.
    + etransitivity; [apply (splitWhitespace_nonempty
                               (Js.toLowerCase (c :: s)))|].
      apply Nat.le_max_l.
    + split.
      * rewrite <- (Qplus_0_r 75) at 1. apply Qplus_le_compat;
          [apply Qle_refl|].
        apply Qmult_le_0_compat; [exact Hlow | discriminate].
      * change 95%Q with (75 + 1 * 20)%Q. apply Qplus_le_compat;
          [apply Qle_refl|].
        apply Qmult_le_compat_r; [exact Hhigh | discriminate].
Qed.

(** *** The three whole-numbered scores *)

Lemma lt_true (a b : Q) : lt a b = true -> (a < b)%Q.
Proof.
  unfold lt. rewrite negb_true_iff. intros H.
  apply Qnot_le_lt. intros Hle. apply Qle_bool_iff in Hle. congruence.
Qed.

Lemma le_true (a b : Q) : le a b = true -> (a <= b)%Q.
Proof. apply Qle_bool_iff. Qed.

Lemma lt_false (a b : Q) : lt a b = false -> (b <= a)%Q.
Proof.
  unfold lt. rewrite negb_false_iff. apply Qle_bool_iff.
Qed.

Lemma count_positive {A} (l : list A) :
  (1 <= length l)%nat -> (0 < count l)%Q.
Proof.
  intros Hl. unfold count. change 0%Q with (inject_Z 0).
  rewrite <- Zlt_Qlt. lia.
Qed.

(** A translation of fewer than three tenths of the words of the
    source has fewer than half of them. *)
Lemma truncated_is_short (translated source : Q) :
  (0 < source)%Q -> (translated < source * (3 # 10))%Q ->
  (translated / source < 1 # 2)%Q.
Proof.
  intros Hsource Htruncated.
  apply Qlt_shift_div_r; [exact Hsource|].
  eapply Qlt_le_trans; [exact Htruncated|].
  rewrite (Qmult_comm (1 # 2)).
  apply Qmult_le_l; [exact Hsource | discriminate].
Qed.

(** X27. The three scores that are made of whole steps take few
    values, and the floor at 0 and the ceiling at 100 never act on
    them.  The fluency and the grammar score of a blank text are 0; of
    any other text the fluency is one of 55, 65, 70, 75, 80, 90 and
    the grammar score one of 30, 50, 60, 70, 80, 90.  The adequacy is
    0 when the source or the translation is empty and otherwise one of
    25, 55, 75, 90: the deduction for a truncated translation only
    ever comes on top of the one for a bad length ratio. *)
Theorem heuristic_scores_values (sourceText translatedText : text) :
  (blank translatedText = true ->
   calculateFluency translatedText = 0%Q
   /\ calculateGrammarScore translatedText = 0%Q)
  /\ (blank translatedText = false ->
      In (calculateFluency translatedText) [55; 65; 70; 75; 80; 90]%Q
      /\ In (calculateGrammarScore translatedText)
           [30; 50; 60; 70; 80; 90]%Q)
  /\ (sourceText = [] \/ translatedText = [] ->
      calculateAdequacy sourceText translatedText = 0%Q)
  /\ (sourceText <> [] -> translatedText <> [] ->
      In (calculateAdequacy sourceText translatedText) [25; 55; 75; 90]%Q).
Proof.
  split; [|split; [|split]].
  - intros Hblank. unfold calculateFluency, calculateGrammarScore.
    rewrite Hblank. split; reflexivity.
  - intros Hblank. unfold calculateFluency, calculateGrammarScore.
    rewrite Hblank. cbv zeta. split.
    + destruct (Quality.lt _ 3 || gt _ 12);
        destruct (gt _ (3 # 10));
        destruct (0 <? length (sentencesOf translatedText))%nat;
        try destruct (le 5 _ && le _ 20);
        vm_compute; tauto.
    + destruct (length (sentencesOf translatedText) =? 0)%nat;
        try destruct (gt _ (7 # 10));
        destruct (gt _ (1 # 2));
        vm_compute; tauto.
  - intros Hempty. unfold calculateAdequacy.
    destruct Hempty as [-> | ->]; [reflexivity|].
    now rewrite orb_true_r.
  - intros Hsource Htranslated. unfold calculateAdequacy.
    destruct sourceText as [|c s]; [congruence|].
    destruct translatedText as [|d t]; [congruence|].
    cbn [Js.falsy orb]. cbv zeta.
    set (sourceWords := Quality.splitWhitespace (Js.trim (c :: s))).
    set (translatedWords := Quality.splitWhitespace (Js.trim (d :: t))).
    pose proof (count_positive sourceWords
                  (splitWhitespace_nonempty _)) as Hpositive.
    destruct (Quality.lt (count translatedWords)
                (count sourceWords * (3 # 10))) eqn:Htruncated.
    + apply lt_true in Htruncated.
      pose proof (truncated_is_short _ _ Hpositive Htruncated) as Hshort.
      destruct (le (7 # 10) (count translatedWords / count sourceWords))
        eqn:Hratio.
      { apply le_true in Hratio. exfalso.
        apply (Qlt_irrefl (7 # 10)).
        eapply Qle_lt_trans; [exact Hratio|].
        eapply Qlt_trans; [exact Hshort | reflexivity]. }
      cbn [andb].
      destruct (Quality.lt (count translatedWords / count sourceWords)
                  (1 # 2)) eqn:Hhalf.
      * cbn [orb]. vm_compute. tauto.
      * apply lt_false in Hhalf. exfalso.
        apply (Qlt_irrefl (1 # 2)).
        eapply Qle_lt_trans; eassumption.
    + destruct (le (7 # 10) _ && le _ (3 # 2));
        [|destruct (Quality.lt _ (1 # 2) || gt _ 2)];
        vm_compute; tauto.
Qed.

End EvaluatorFacts.

Lemma calculateSemanticSimilarity_range_witness :
  (75 <= Quality.calculateSemanticSimilarity (lit "Hello world")
           (lit "Namaste duniya") <= 95)%Q.
Proof.
  apply (proj2 (proj2 (calculateSemanticSimilarity_range (lit "Hello world")
                         (lit "Namaste duniya"))));
    discriminate.
Defined.

Lemma heuristic_scores_values_witness :
  In (Evaluator.calculateFluency (lit "Namaste duniya"))
     [55; 65; 70; 75; 80; 90]%Q
  /\ In (Evaluator.calculateGrammarScore (lit "Namaste duniya"))
       [30; 50; 60; 70; 80; 90]%Q.
Proof.
  apply (proj1 (proj2 (heuristic_scores_values (lit "Hello world")
                         (lit "Namaste duniya")))).
  reflexivity.
Defined.
